(** * Ingestion and retrieval pipeline of talon-loadmaster

    A shallow embedding of the Supabase edge functions (document
    processing, URL and manual knowledge ingestion, chat) and of the
    SQL similarity-search functions, followed by the properties the
    specification states about them.

    Conventions.
    - A JavaScript string is a Stdlib [string]; every [ascii] stands for
      one UTF-16 code unit below 256, and [JS.length] counts code units
      the way [String.prototype.length] does.
    - JavaScript numbers that hold indices are [Z]; the only fractional
      constant of the sources, [maxChunkSize * 0.5], is compared after
      doubling both sides, which is exact.
    - Calls to external collaborators (request body, storage, embedding
      service, database, console) are recorded in a trace of effects;
      their outcomes are read from an environment record.
    - SQL [float] values are idealised as rationals. *)

From Stdlib Require Import ZArith QArith Lqa String Ascii List Sorted Lia Bool DecimalString.
From stdpp Require Import gmap strings list.
From Equations Require Import Equations.
Close Scope Q_scope.

(* ===================================================================== *)
(** * JavaScript string primitives                                        *)
(* ===================================================================== *)

Module JS.
Local Open Scope Z_scope.

Definition LF : ascii := "010"%char.

Definition length (s : string) : Z := Z.of_nat (String.length s).

(** Relative index of [String.prototype.slice]: a negative index counts
    from the end, and the result is clamped to [0 .. len]. *)
Definition rel_index (len i : Z) : Z :=
  if i <? 0 then Z.max (len + i) 0 else Z.min i len.

Definition slice (s : string) (b e : Z) : string :=
  let len := length s in
  let from := rel_index len b in
  let to := rel_index len e in
  String.substring (Z.to_nat from) (Z.to_nat (Z.max (to - from) 0)) s.

(** [String.prototype.substring]: both ends clamped to [0 .. len] and
    swapped when out of order. *)
Definition substring (s : string) (b e : Z) : string :=
  let len := length s in
  let b' := Z.min (Z.max b 0) len in
  let e' := Z.min (Z.max e 0) len in
  let from := Z.min b' e' in
  let to := Z.max b' e' in
  String.substring (Z.to_nat from) (Z.to_nat (to - from)) s.

(** White space and line terminators stripped by [trim], restricted to
    code units below 256: TAB, LF, VT, FF, CR, SP and NBSP. *)
Definition is_whitespace (c : ascii) : bool :=
  let n := nat_of_ascii c in
  ((9 <=? n)%nat && (n <=? 13)%nat) || (n =? 32)%nat || (n =? 160)%nat.

Fixpoint trimStart (s : string) : string :=
  match s with
  | EmptyString => EmptyString
  | String c s' => if is_whitespace c then trimStart s' else s
  end.

Fixpoint trimEnd (s : string) : string :=
  match s with
  | EmptyString => EmptyString
  | String c s' =>
      match trimEnd s' with
      | EmptyString => if is_whitespace c then EmptyString else String c EmptyString
      | t => String c t
      end
  end.

Definition trim (s : string) : string := trimEnd (trimStart s).

(** [s.lastIndexOf(c, fromIndex)] for a one-character search string: the
    largest index [i <= fromIndex] holding [c], or [-1]. [scan_last]
    walks the string from index [i], remembering the last hit. *)
Fixpoint scan_last (c : ascii) (s : string) (i bound found : Z) : Z :=
  match s with
  | EmptyString => found
  | String x s' =>
      if bound <? i then found
      else scan_last c s' (i + 1) bound (if Ascii.eqb x c then i else found)
  end.

Definition lastIndexOf (s : string) (c : ascii) (fromIndex : Z) : Z :=
  scan_last c s 0 (Z.max fromIndex 0) (-1).

(** [s.split(sep)] for a one-character separator; never the empty list. *)
Fixpoint split (sep : ascii) (s : string) : list string :=
  match s with
  | EmptyString => [EmptyString]
  | String c s' =>
      if Ascii.eqb c sep then EmptyString :: split sep s'
      else match split sep s' with
           | h :: t => String c h :: t
           | [] => [String c EmptyString]
           end
  end.

Definition join (sep : string) (l : list string) : string := String.concat sep l.

Fixpoint startsWith (p s : string) : bool :=
  match p, s with
  | EmptyString, _ => true
  | String a p', String b s' => Ascii.eqb a b && startsWith p' s'
  | String _ _, EmptyString => false
  end.

Fixpoint includes (s sub : string) : bool :=
  startsWith sub s ||
  match s with
  | EmptyString => false
  | String _ s' => includes s' sub
  end.

Definition endsWith (s suffix : string) : bool :=
  let n := String.length s in
  let m := String.length suffix in
  (m <=? n)%nat && String.eqb (String.substring (n - m) m s) suffix.

(** [toLowerCase] on code units below 256: A-Z and the Latin-1 capitals
    (0xC0-0xDE without 0xD7) move up by 32. *)
Definition lower_char (c : ascii) : ascii :=
  let n := nat_of_ascii c in
  if ((65 <=? n)%nat && (n <=? 90)%nat)
     || ((192 <=? n)%nat && (n <=? 222)%nat && negb (n =? 215)%nat)
  then ascii_of_nat (n + 32) else c.

Fixpoint toLowerCase (s : string) : string :=
  match s with
  | EmptyString => EmptyString
  | String c s' => String (lower_char c) (toLowerCase s')
  end.

(** [c.repeat(n)]. *)
Fixpoint repeat (c : ascii) (n : nat) : string :=
  match n with
  | O => EmptyString
  | S n' => String c (repeat c n')
  end.

(** Template-literal rendering of a non-negative integer. *)
Definition of_nat (n : nat) : string := NilEmpty.string_of_uint (Nat.to_uint n).

(** [s.replace(/^"|"$/g, '')]: one leading and one trailing double quote
    are removed (the two matches never overlap). *)
Definition dquote : ascii := ascii_of_nat 34.

Definition strip_leading_quote (s : string) : string :=
  match s with
  | String c s' => if Ascii.eqb c dquote then s' else s
  | EmptyString => EmptyString
  end.

Fixpoint strip_trailing_quote (s : string) : string :=
  match s with
  | EmptyString => EmptyString
  | String c EmptyString => if Ascii.eqb c dquote then EmptyString else s
  | String c s' => String c (strip_trailing_quote s')
  end.

Definition strip_quotes (s : string) : string :=
  strip_trailing_quote (strip_leading_quote s).

End JS.

(* ===================================================================== *)
(** * Chunker                                                             *)
(* ===================================================================== *)

Module Chunker.
Local Open Scope Z_scope.

(** [interface TextChunk]. *)
Record TextChunk := mkChunk {
  content : string;
  startIndex : Z;
  endIndex : Z
}.

(** One pass through the body of the [while] loop of [chunkText]
    (part_000 lines 167-189, part_001 lines 866-888): the chunks after
    the pass and the next [startIndex]. *)
Definition chunkText_body (text : string) (maxChunkSize overlap : Z)
    (startIndex : Z) (chunks : list TextChunk) : Z * list TextChunk :=
  let endIndex := Z.min (startIndex + maxChunkSize) (JS.length text) in
  let endIndex :=
    if endIndex <? JS.length text then
      let lastPeriod := JS.lastIndexOf text "."%char endIndex in
      let lastNewline := JS.lastIndexOf text JS.LF endIndex in
      let breakPoint := Z.max lastPeriod lastNewline in
      if 2 * startIndex + maxChunkSize <? 2 * breakPoint
      then breakPoint + 1 else endIndex
    else endIndex in
  let content := JS.trim (JS.slice text startIndex endIndex) in
  let chunks :=
    if 0 <? JS.length content
    then chunks ++ [mkChunk content startIndex endIndex] else chunks in
  (Z.max (startIndex + 1) (endIndex - overlap), chunks).

Lemma chunkText_body_advances text maxChunkSize overlap startIndex chunks :
  startIndex < fst (chunkText_body text maxChunkSize overlap startIndex chunks).
Proof. unfold chunkText_body; simpl. lia. Qed.

(** The [while (startIndex < text.length)] loop. *)
Equations? chunkText_loop (text : string) (maxChunkSize overlap : Z)
    (start : Z) (chunks : list TextChunk) : list TextChunk
    by wf (Z.to_nat (JS.length text - start)) lt :=
  chunkText_loop text maxChunkSize overlap start chunks
    with Z_lt_dec start (JS.length text) => {
    | left _ :=
        chunkText_loop text maxChunkSize overlap
          (fst (chunkText_body text maxChunkSize overlap start chunks))
          (snd (chunkText_body text maxChunkSize overlap start chunks));
    | right _ := chunks }.
Proof.
  pose proof (chunkText_body_advances text maxChunkSize overlap start chunks).
  lia.
Qed.

(** The same loop cut off after [n] passes: the state [(startIndex,
    chunks)] reached from [st]. *)
Fixpoint chunkText_run (text : string) (maxChunkSize overlap : Z) (n : nat)
    (st : Z * list TextChunk) : Z * list TextChunk :=
  match n with
  | O => st
  | S n' =>
      if fst st <? JS.length text
      then chunkText_run text maxChunkSize overlap n'
             (chunkText_body text maxChunkSize overlap (fst st) (snd st))
      else st
  end.

(** [chunkText] of part_000 (line 162) and of the second file of
    part_001 (line 861). *)
Definition chunkText (text : string) (maxChunkSize overlap : Z) : list TextChunk :=
  chunkText_loop text maxChunkSize overlap 0 [].

(** Body of the loop of the legacy [chunkText] (first file of part_001,
    lines 414-438), which also snaps to the last space. *)
Definition chunkTextLegacy_body (text : string) (maxChunkSize overlap : Z)
    (startIndex : Z) (chunks : list TextChunk) : Z * list TextChunk :=
  let endIndex := Z.min (startIndex + maxChunkSize) (JS.length text) in
  let endIndex :=
    if endIndex <? JS.length text then
      let lastSentenceEnd := JS.lastIndexOf text "."%char endIndex in
      let lastNewline := JS.lastIndexOf text JS.LF endIndex in
      let lastSpace := JS.lastIndexOf text " "%char endIndex in
      let bestEndIndex := Z.max (Z.max lastSentenceEnd lastNewline) lastSpace in
      if 2 * startIndex + maxChunkSize <? 2 * bestEndIndex
      then bestEndIndex + 1 else endIndex
    else endIndex in
  let chunkContent := JS.trim (JS.slice text startIndex endIndex) in
  let chunks :=
    match chunkContent with
    | EmptyString => chunks
    | _ => chunks ++ [mkChunk chunkContent startIndex endIndex]
    end in
  (Z.max (startIndex + 1) (endIndex - overlap), chunks).

Lemma chunkTextLegacy_body_advances text maxChunkSize overlap startIndex chunks :
  startIndex < fst (chunkTextLegacy_body text maxChunkSize overlap startIndex chunks).
Proof. unfold chunkTextLegacy_body; simpl. lia. Qed.

Equations? chunkTextLegacy_loop (text : string) (maxChunkSize overlap : Z)
    (start : Z) (chunks : list TextChunk) : list TextChunk
    by wf (Z.to_nat (JS.length text - start)) lt :=
  chunkTextLegacy_loop text maxChunkSize overlap start chunks
    with Z_lt_dec start (JS.length text) => {
    | left _ :=
        chunkTextLegacy_loop text maxChunkSize overlap
          (fst (chunkTextLegacy_body text maxChunkSize overlap start chunks))
          (snd (chunkTextLegacy_body text maxChunkSize overlap start chunks));
    | right _ := chunks }.
Proof.
  pose proof (chunkTextLegacy_body_advances text maxChunkSize overlap start chunks).
  lia.
Qed.

(** Legacy [chunkText] of the first file of part_001 (line 400), with
    its early return for [text.length <= maxChunkSize]. *)
Definition chunkTextLegacy (text : string) (maxChunkSize overlap : Z) : list TextChunk :=
  if JS.length text <=? maxChunkSize
  then [mkChunk text 0 (JS.length text)]
  else chunkTextLegacy_loop text maxChunkSize overlap 0 [].

End Chunker.

(* ===================================================================== *)
(** * Effects of an edge function                                         *)
(* ===================================================================== *)

Module Eff.

(** An embedding, [vector(1536)] in the schema. *)
Definition vector := list Q.

(** [upload_status], with the values of the CHECK constraint of
    [public.documents]. *)
Inductive upload_status := pending | processing | completed | failed.

#[global] Instance upload_status_eq_dec : EqDecision upload_status.
Proof. solve_decision. Defined.

(** The columns an edge function writes into [public.document_chunks]. *)
Record chunk_row := mkRow {
  document_id : option string;
  chunk_index : nat;
  row_content : string;
  token_count : Z;
  embedding : vector;
  start_char : Z;
  end_char : Z
}.

(** Calls to the collaborators of an edge function, in program order.
    [console.log] calls are informational and left out. *)
Inductive effect :=
| UpdateStatus (id : option string) (status : upload_status)
| Download (path : option string)
| EmbeddingRequest (model input : string)
| InsertChunk (row : chunk_row) (stored : bool)
| Rpc (fn : string)
| ChatCompletion (system : string)
| ConsoleError (message : string)
| Sleep (ms : Z).

(** Reply of [fetch('https://api.openai.com/v1/embeddings')]. *)
Inductive embedding_reply :=
| ReplyOk (v : vector)
| ReplyNotOk (status : nat) (errorText : string)
| ReplyBroken (message : string).

(** A promise either resolves or rejects with an error message. *)
Inductive outcome (A : Type) :=
| Returned (a : A)
| Thrown (message : string).
Arguments Returned {A} a.
Arguments Thrown {A} message.

(** What a handler can change: whether the request body was read, and
    the calls made so far. *)
Record world := mkWorld { bodyUsed : bool; trace : list effect }.

Definition M (A : Type) : Type := world -> world * outcome A.

Definition ret {A} (a : A) : M A := fun w => (w, Returned a).

Definition bind {A B} (m : M A) (k : A -> M B) : M B :=
  fun w => match m w with
           | (w', Returned a) => k a w'
           | (w', Thrown msg) => (w', Thrown msg)
           end.

Definition throw {A} (message : string) : M A := fun w => (w, Thrown message).

(** [try { m } catch (error) { h error }]. *)
Definition try_catch {A} (m : M A) (h : string -> M A) : M A :=
  fun w => match m w with
           | (w', Thrown msg) => h msg w'
           | r => r
           end.

Definition emit (e : effect) : M unit :=
  fun w => (mkWorld (bodyUsed w) (trace w ++ [e]), Returned tt).

Definition history : M (list effect) := fun w => (w, Returned (trace w)).

Definition console_error (message : string) : M unit := emit (ConsoleError message).

(** [req.json()]: the body can be read once; a second read rejects, and
    so does a body that is not JSON ([None]). *)
Definition req_json {B} (json_body : option B) : M B :=
  fun w =>
    if bodyUsed w then (w, Thrown "Body already consumed.")
    else match json_body with
         | Some b => (mkWorld true (trace w), Returned b)
         | None => (mkWorld true (trace w), Thrown "Unexpected end of JSON input")
         end.

Definition initial : world := mkWorld false [].

End Eff.

Declare Scope eff_scope.
Delimit Scope eff_scope with eff.
Notation "x <- m ;; k" := (Eff.bind m (fun x => k))
  (at level 100, m at next level, k at level 200, right associativity) : eff_scope.
Notation "m ;;; k" := (Eff.bind m (fun _ => k))
  (at level 100, k at level 200, right associativity) : eff_scope.

(* ===================================================================== *)
(** * Embedder                                                            *)
(* ===================================================================== *)

Module Embedder.
Import Eff.
Local Open Scope eff_scope.

Section Service.
(** The embedding service: its reply to a request, given the calls made
    before it. *)
Variable embedding_service : list effect -> string -> string -> embedding_reply.

Definition fetch_embedding (model input : string) (with_text : bool) : M vector :=
  calls <- history ;;
  emit (EmbeddingRequest model input) ;;;
  match embedding_service calls model input with
  | ReplyOk v => ret v
  | ReplyNotOk status errorText =>
      throw (if with_text
             then "OpenAI API error: " ++ JS.of_nat status ++ " " ++ errorText
             else "OpenAI API error: " ++ JS.of_nat status)%string
  | ReplyBroken message => throw message
  end.

(** [generateEmbedding] of add-manual-knowledge (index.ts line 91) and
    of the URL function (part_001 line 1056). *)
Definition generateEmbedding_truncating (text : string) : M vector :=
  let maxLength := 8000%Z in
  let truncatedText :=
    if (maxLength <? JS.length text)%Z then JS.substring text 0 maxLength else text in
  fetch_embedding "text-embedding-ada-002" truncatedText true.

(** [generateEmbedding] of document processing (part_000 line 195,
    part_001 line 894) and of the chat function (index.ts line 258). *)
Definition generateEmbedding (text : string) : M vector :=
  fetch_embedding "text-embedding-ada-002" text true.

(** [generateEmbedding] of the Markdown variant of document processing
    (part_001 line 444). *)
Definition generateEmbedding_small (text : string) : M vector :=
  fetch_embedding "text-embedding-3-small" text false.

End Service.
End Embedder.

(* ===================================================================== *)
(** * Ingestion pipeline: the process-document edge function              *)
(* ===================================================================== *)

Module Pipeline.
Import Eff Chunker.
Local Open Scope eff_scope.

Record Blob := mkBlob { blob_text : outcome string; blob_size : Z }.

(** The JSON body of a request; a missing key reads as [undefined]. *)
Record body := mkBody { documentId : option string; filePath : option string }.

(** The collaborators of one request. *)
Record env := mkEnv {
  req_method : string;
  req_body : option body;
  storage_download : option string -> Blob + string;
  embedding_service : list effect -> string -> string -> embedding_reply;
  insert_error : list effect -> chunk_row -> option string
}.

Inductive response :=
| Preflight
| Success (chunksCreated : nat)
| Failure (details : string).

Definition text (fileData : Blob) : M string := fun w => (w, blob_text fileData).

(** [extractTextFromFile] of part_000 (line 135). *)
Definition extractTextFromFile (fileData : Blob) (filePath : option string) : M string :=
  match filePath with
  | None => throw "Cannot read properties of undefined (reading 'toLowerCase')"
  | Some filePath =>
      let fileName := JS.toLowerCase filePath in
      if JS.endsWith fileName ".txt" || JS.endsWith fileName ".md" then text fileData
      else if JS.endsWith fileName ".pdf" then text fileData
      else try_catch (text fileData)
             (fun _ => throw ("Unsupported file type or cannot extract text from "
                              ++ fileName)%string)
  end.

(** [estimateTokens]: [Math.ceil(text.length / 4)]. *)
Definition estimateTokens (text : string) : Z := ((JS.length text + 3) / 4)%Z.

(** JavaScript truthiness of a possibly missing string. *)
Definition truthy (s : option string) : bool :=
  match s with
  | Some (String _ _) => true
  | _ => false
  end.

Definition batchSize : nat := 5.

Section Serve.
Variable e : env.
(** Text extraction, chunking and the embedding model differ between the
    versions of the function; the request handling around them does not.
    [embed] is [generateEmbedding] of the version at hand. *)
Variable extract : Blob -> option string -> M string.
Variable chunker : string -> list TextChunk.
Variable model : string.
Variable with_text : bool.
Variable empty_message : string.

Definition embed (text : string) : M vector :=
  Embedder.fetch_embedding (embedding_service e) model text with_text.

Definition update_status (id : option string) (status : upload_status) : M unit :=
  emit (UpdateStatus id status).

Definition download (path : option string) : M (Blob + string) :=
  emit (Download path) ;;; ret (storage_download e path).

Definition insert_chunk (row : chunk_row) : M (option string) :=
  calls <- history ;;
  let insertError := insert_error e calls row in
  emit (InsertChunk row (bool_decide (insertError = None))) ;;;
  ret insertError.

(** The callback of [batch.map]: embed one chunk and store it; every
    failure is caught and logged. [batch.map] starts the tasks of a
    batch in index order, each up to its embedding request, and
    [Promise.all] waits for all of them; the order in which their
    replies arrive is not fixed by the code. Tasks share no state, and
    [run_batch] takes the schedule that finishes each task before the
    next one starts. What is stated of the rows and of the logs of a
    run reads which calls were made and how they were answered, and
    nothing of the order of calls of different tasks beyond the order
    of the embedding requests. *)
Definition process_chunk (documentId : option string) (i index : nat)
    (chunk : TextChunk) : M unit :=
  try_catch
    (embedding <- embed (content chunk) ;;
     insertError <- insert_chunk
       (mkRow documentId (i + index) (content chunk)
              (estimateTokens (content chunk)) embedding
              (startIndex chunk) (endIndex chunk)) ;;
     match insertError with
     | Some _ => console_error ("Failed to insert chunk " ++ JS.of_nat (i + index) ++ ":")%string
     | None => ret tt
     end)
    (fun chunkError =>
       console_error ("Failed to process chunk " ++ JS.of_nat (i + index) ++ ":")%string).

Fixpoint run_batch (documentId : option string) (i index : nat)
    (batch : list TextChunk) : M unit :=
  match batch with
  | [] => ret tt
  | chunk :: rest =>
      process_chunk documentId i index chunk ;;;
      run_batch documentId i (S index) rest
  end.

(** [for (let i = 0; i < chunks.length; i += batchSize)]. *)
Equations? batch_loop (documentId : option string) (chunks : list TextChunk)
    (i : nat) : M unit by wf (length chunks - i)%nat lt :=
  batch_loop documentId chunks i with lt_dec i (length chunks) => {
    | left _ :=
        run_batch documentId i 0 (take batchSize (drop i chunks)) ;;;
        (if (i + batchSize <? length chunks)%nat then emit (Sleep 1000) else ret tt) ;;;
        batch_loop documentId chunks (i + batchSize)
    | right _ := ret tt }.
Proof. unfold batchSize. lia. Qed.

(** The [try] block after the request body has been read. *)
Definition ingest (documentId filePath : option string) : M response :=
  update_status documentId processing ;;;
  downloaded <- download filePath ;;
  match downloaded with
  | inr message => throw ("Failed to download file: " ++ message)%string
  | inl fileData =>
      text <- extract fileData filePath ;;
      if (JS.length text =? 0)%Z || (JS.length (JS.trim text) =? 0)%Z
      then throw empty_message
      else
        let chunks := chunker text in
        batch_loop documentId chunks 0 ;;;
        update_status documentId completed ;;;
        ret (Success (length chunks))
  end.

(** [catch] block of part_000 (lines 110-132): the document id is read
    again from the request. *)
Definition on_error_reread (message : string) : M response :=
  console_error "Error processing document:" ;;;
  body <- try_catch (req_json (req_body e)) (fun _ => ret (mkBody None None)) ;;
  (if truthy (documentId body)
   then update_status (documentId body) failed else ret tt) ;;;
  ret (Failure message).

(** [serve] of part_000. *)
Definition serve_reread : M response :=
  if String.eqb (req_method e) "OPTIONS" then ret Preflight
  else
    try_catch
      (body <- req_json (req_body e) ;;
       ingest (documentId body) (filePath body))
      on_error_reread.

(** [catch] block of part_001 (lines 120-145 and 582-607): the document
    id is the variable declared before the [try]. *)
Definition on_error_outer (documentId : option string) (message : string) : M response :=
  console_error "Error processing document:" ;;;
  try_catch
    (if truthy documentId then update_status documentId failed else ret tt)
    (fun updateError => console_error "Failed to update document status:") ;;;
  ret (Failure message).

(** [serve] of part_001: [documentId] is [undefined] until the body has
    been read, and holds [body.documentId] afterwards. *)
Definition serve_outer : M response :=
  if String.eqb (req_method e) "OPTIONS" then ret Preflight
  else fun w =>
    match req_json (req_body e) w with
    | (w1, Returned body) =>
        try_catch (ingest (documentId body) (filePath body))
                  (on_error_outer (documentId body)) w1
    | (w1, Thrown message) => on_error_outer None message w1
    end.

End Serve.

(** part_000: plain-text extraction, [chunkText(text, 1000, 200)]. *)
Definition serve_part000 (e : env) : M response :=
  serve_reread e extractTextFromFile
    (fun text => chunkText text 1000 200)
    "text-embedding-ada-002" true
    "No text content could be extracted from the file".

(** Second file of part_001, over its extractor. *)
Definition serve_part001 (e : env) (extractTextFromFile : Blob -> option string -> M string)
    : M response :=
  serve_outer e extractTextFromFile
    (fun text => chunkText text 1000 200)
    "text-embedding-ada-002" true
    "No text content could be extracted from the file".

(** First file of part_001, over its Markdown converter and chunker. *)
Definition serve_part001_markdown (e : env)
    (convertToMarkdownWithUnstructured : Blob -> option string -> M string)
    (chunkMarkdown : string -> Z -> Z -> list TextChunk) : M response :=
  serve_outer e convertToMarkdownWithUnstructured
    (fun markdownContent => chunkMarkdown markdownContent 1000%Z 200%Z)
    "text-embedding-3-small" false
    "No content could be extracted from the file".

(** ** Reading a trace *)

(** The statuses written to document [id], in order. *)
Definition status_updates (id : string) (calls : list effect) : list upload_status :=
  omap (fun c => match c with
                 | UpdateStatus (Some id') status =>
                     if decide (id' = id) then Some status else None
                 | _ => None
                 end) calls.

(** The rows that reached [document_chunks]. *)
Definition stored_rows (calls : list effect) : list chunk_row :=
  omap (fun c => match c with
                 | InsertChunk row true => Some row
                 | _ => None
                 end) calls.

(** The inputs sent to the embedding service. *)
Definition embedding_inputs (calls : list effect) : list string :=
  omap (fun c => match c with
                 | EmbeddingRequest _ input => Some input
                 | _ => None
                 end) calls.

(** The [documents] table, keyed by [id], reduced to [upload_status]. *)
Definition apply_call (documents : gmap string upload_status) (c : effect)
    : gmap string upload_status :=
  match c with
  | UpdateStatus (Some id) status => alter (fun _ => status) id documents
  | _ => documents
  end.

Definition apply_calls (documents : gmap string upload_status) (calls : list effect)
    : gmap string upload_status :=
  foldl apply_call documents calls.

End Pipeline.

(* ===================================================================== *)
(** * Text extraction: CSV                                                *)
(* ===================================================================== *)

Module Csv.
Local Open Scope string_scope.

Definition newline : string := String JS.LF EmptyString.

(** The [for] loop of [parseCSVToText] in the second file of part_001
    (lines 836-850); [result] is the array being filled. *)
Fixpoint parseCSV_loop (lines : list string) (i : nat) (result : list string)
    : list string :=
  match lines with
  | [] => result
  | l :: rest =>
      let line := JS.trim l in
      let result :=
        match line with
        | EmptyString => result
        | _ =>
            let columns :=
              map (fun col => JS.strip_quotes (JS.trim col)) (JS.split "," line) in
            if (i =? 0)%nat
            then app result ["Table Headers: " ++ JS.join ", " columns]
            else app result ["Row " ++ JS.of_nat i ++ ": " ++ JS.join " | " columns]
        end in
      parseCSV_loop rest (S i) result
  end.

(** [parseCSVToText] of the second file of part_001 (line 832). *)
Definition parseCSVToText (csvContent : string) : string :=
  let lines := JS.split JS.LF csvContent in
  JS.join newline (parseCSV_loop lines 0 []).

(** The loop of the fallback [parseCSVToText] in the first file of
    part_001 (lines 295-304); [result] is the string being built. *)
Fixpoint parseCSVFallback_loop (lines : list string) (i : nat) (result : string)
    : string :=
  match lines with
  | [] => result
  | l :: rest =>
      let line := JS.trim l in
      let result :=
        match line with
        | EmptyString => result
        | _ =>
            if (i =? 0)%nat
            then result ++ "CSV Headers: " ++ line ++ newline ++ newline
            else result ++ "Row " ++ JS.of_nat i ++ ": " ++ line ++ newline
        end in
      parseCSVFallback_loop rest (S i) result
  end.

(** [parseCSVToText] of the first file of part_001 (line 291), used by
    [extractTextFromFileFallback]. *)
Definition parseCSVToText_fallback (csvText : string) : string :=
  let lines := JS.split JS.LF csvText in
  parseCSVFallback_loop lines 0 "".

End Csv.

(* ===================================================================== *)
(** * Similarity search: the SQL functions of part_002                    *)
(* ===================================================================== *)

Module Search.
Import Eff.

Record document := mkDocument {
  d_id : string;
  d_upload_status : upload_status
}.

Record document_chunk := mkDocumentChunk {
  dc_id : string;
  dc_document_id : string;
  dc_content : string;
  dc_chunk_index : Z;
  dc_metadata : string;
  dc_embedding : option vector
}.

Record knowledge := mkKnowledge {
  kb_id : string;
  kb_title : string;
  kb_content : string;
  kb_description : option string;
  kb_tags : list string;
  kb_embedding : option vector
}.

(** [RETURNS TABLE] of [search_chunks]. *)
Record chunk_match := mkChunkMatch {
  cm_id : string;
  cm_document_id : string;
  cm_content : string;
  cm_chunk_index : Z;
  cm_metadata : string;
  cm_similarity : Q
}.

(** [RETURNS TABLE] of [search_knowledge]. *)
Record knowledge_match := mkKnowledgeMatch {
  km_id : string;
  km_title : string;
  km_content : string;
  km_description : option string;
  km_tags : list string;
  km_similarity : Q
}.

Definition Qltb (x y : Q) : bool := negb (Qle_bool y x).

Section Ranking.
Context {A : Type}.

(** [ORDER BY distance]: rows carry the distance they were scanned with. *)
Fixpoint insert_by_distance (x : Q * A) (rows : list (Q * A)) : list (Q * A) :=
  match rows with
  | [] => [x]
  | y :: rest =>
      if Qle_bool (fst x) (fst y) then x :: rows
      else y :: insert_by_distance x rest
  end.

Definition order_by_distance (rows : list (Q * A)) : list (Q * A) :=
  foldr insert_by_distance [] rows.

(** [LIMIT match_count]: a negative count is an error ([None]). *)
Definition limit (match_count : Z) (rows : list (Q * A)) : option (list (Q * A)) :=
  if (match_count <? 0)%Z then None
  else Some (take (Z.to_nat match_count) rows).

End Ranking.

Section Functions.
(** The [<=>] operator of pgvector. *)
Variable cosine_distance : vector -> vector -> Q.

(** A predicate over a NULL operand is not true: rows without an
    embedding are dropped by the WHERE clause. *)
Definition scan {A} (embedding_of : A -> option vector) (query_embedding : vector)
    (rows : list A) : list (Q * A) :=
  omap (fun row => match embedding_of row with
                   | Some v => Some (cosine_distance v query_embedding, row)
                   | None => None
                   end) rows.

Definition search_chunks_rows (query_embedding : vector) (match_threshold : Q)
    (match_count : Z) (document_chunks : list document_chunk)
    (documents : list document)
    : option (list (Q * (document_chunk * document))) :=
  let joined :=
    flat_map (fun dc =>
      map (fun d => (dc, d))
          (List.filter (fun d => String.eqb (dc_document_id dc) (d_id d)) documents))
      document_chunks in
  let selected :=
    List.filter (fun r =>
      bool_decide (d_upload_status (snd (snd r)) = completed)
      && Qltb match_threshold (1 - fst r))
      (scan (fun r => dc_embedding (fst r)) query_embedding joined) in
  limit match_count (order_by_distance selected).

Definition search_chunks (query_embedding : vector) (match_threshold : Q)
    (match_count : Z) (document_chunks : list document_chunk)
    (documents : list document) : option (list chunk_match) :=
  option_map
    (map (fun r => let dc := fst (snd r) in
                   mkChunkMatch (dc_id dc) (dc_document_id dc) (dc_content dc)
                     (dc_chunk_index dc) (dc_metadata dc) (1 - fst r)))
    (search_chunks_rows query_embedding match_threshold match_count
                        document_chunks documents).

Definition search_knowledge_rows (query_embedding : vector) (match_threshold : Q)
    (match_count : Z) (knowledge_base : list knowledge)
    : option (list (Q * knowledge)) :=
  let selected :=
    List.filter (fun r =>
      bool_decide (is_Some (kb_embedding (snd r)))
      && Qltb match_threshold (1 - fst r))
      (scan kb_embedding query_embedding knowledge_base) in
  limit match_count (order_by_distance selected).

Definition search_knowledge (query_embedding : vector) (match_threshold : Q)
    (match_count : Z) (knowledge_base : list knowledge)
    : option (list knowledge_match) :=
  option_map
    (map (fun r => let kb := snd r in
                   mkKnowledgeMatch (kb_id kb) (kb_title kb) (kb_content kb)
                     (kb_description kb) (kb_tags kb) (1 - fst r)))
    (search_knowledge_rows query_embedding match_threshold match_count knowledge_base).

End Functions.
End Search.

(* ===================================================================== *)
(** * URL ingestion: title derivation                                     *)
(* ===================================================================== *)

Module Url.
Import Eff.

Section Title.
(** [new URL(url).hostname]; the constructor throws on a string that is
    not a URL. *)
Variable url_hostname : string -> outcome string.

(** [extractTitleFromContent] of part_001 (line 1040). Reading element 0
    of an empty array would give [undefined], whose [trim] throws. *)
Definition extractTitleFromContent (content url : string) : outcome string :=
  match JS.split JS.LF content with
  | [] => Thrown "Cannot read properties of undefined (reading 'trim')"
  | first :: _ =>
      let firstLine := JS.trim first in
      if ((10 <? JS.length firstLine) && (JS.length firstLine <? 100))%Z
      then Returned firstLine
      else match url_hostname url with
           | Returned hostname => Returned ("Content from " ++ hostname)%string
           | Thrown _ => Returned "Web Content"%string
           end
  end.

End Title.
End Url.

(* ===================================================================== *)
(** * Chat: retrieval and context assembly                                *)
(* ===================================================================== *)

Module Chat.
Import Eff Search.
Local Open Scope string_scope.
Local Open Scope eff_scope.

Record turn := mkTurn { role : string; turn_content : string }.

(** The value the JSON body holds under [conversationHistory]. In an
    array an element that is [null] reads as [None]; any other element
    is read with its [role] and its [content]. *)
Inductive history_value :=
| NoHistory
| TurnArray (items : list (option turn))
| TextValue (s : string)
| OtherValue.

(** The JSON body as it arrives: [NoHistory] for a key that is missing
    or [null], [OtherValue] for a number, a boolean or an object. *)
Record payload := mkPayload {
  payload_message : string;
  payload_history : history_value
}.

(** A body whose history is missing or an array of messages. *)
Record body := mkBody {
  message : string;
  conversationHistory : option (list turn)
}.

(** The elements of an array none of which is [null]. *)
Fixpoint present (items : list (option turn)) : option (list turn) :=
  match items with
  | [] => Some []
  | Some t :: rest => option_map (cons t) (present rest)
  | None :: _ => None
  end.

Definition typed_history (h : history_value) : option (option (list turn)) :=
  match h with
  | NoHistory => Some None
  | TurnArray items => option_map Some (present items)
  | TextValue _ | OtherValue => None
  end.

(** The payload as a body, when its history is missing or an array of
    messages. *)
Definition typed (p : payload) : option body :=
  option_map (mkBody (payload_message p)) (typed_history (payload_history p)).

(** [{ data, error }] of [supabase.rpc]: rows, or [null] with an error. *)
Inductive rpc_result (A : Type) :=
| RpcData (rows : list A)
| RpcError (message : string).
Arguments RpcData {A} rows.
Arguments RpcError {A} message.

Definition data {A} (r : rpc_result A) : option (list A) :=
  match r with RpcData rows => Some rows | RpcError _ => None end.

Definition error {A} (r : rpc_result A) : option string :=
  match r with RpcData _ => None | RpcError message => Some message end.

(** Reply of [fetch('https://api.openai.com/v1/chat/completions')]. *)
Inductive completion_reply :=
| CompletionOk (assistantResponse : string)
| CompletionNotOk (status : nat) (errorText : string)
| CompletionBroken (message : string).

Record env := mkEnv {
  req_method : string;
  req_payload : option payload;
  embedding_service : list effect -> string -> string -> embedding_reply;
  rpc_search_chunks : vector -> Q -> Z -> rpc_result chunk_match;
  rpc_search_knowledge : vector -> Q -> Z -> rpc_result knowledge_match;
  completion_service : string -> list turn -> string -> completion_reply
}.

(** The body of the request, when it is one with a history that is
    missing or an array of messages. *)
Definition req_body (e : env) : option body :=
  match req_payload e with
  | Some p => typed p
  | None => None
  end.

Inductive response :=
| Preflight
| Answer (response : string) (documentChunks knowledgeEntries : nat)
| Failure (details : string).

Definition blank_line : string := String JS.LF (String JS.LF EmptyString).

(** [relevantChunks.forEach((chunk, index) => context += ...)]. *)
Fixpoint append_chunks (context : string) (index : nat) (chunks : list chunk_match)
    : string :=
  match chunks with
  | [] => context
  | chunk :: rest =>
      append_chunks
        (context ++ "[" ++ JS.of_nat (index + 1) ++ "] " ++ cm_content chunk ++ blank_line)
        (S index) rest
  end.

(** [relevantKnowledge.forEach((entry, index) => context += ...)]. *)
Fixpoint append_knowledge (context : string) (index : nat)
    (entries : list knowledge_match) : string :=
  match entries with
  | [] => context
  | entry :: rest =>
      append_knowledge
        (context ++ "[KB" ++ JS.of_nat (index + 1) ++ "] " ++ km_title entry ++ ": "
                 ++ km_content entry ++ blank_line)
        (S index) rest
  end.

(** Lines 166-179 of the chat function. *)
Definition assemble_context (relevantChunks : option (list chunk_match))
    (relevantKnowledge : option (list knowledge_match)) : string :=
  let context := "" in
  let context :=
    match relevantChunks with
    | Some (c :: cs) =>
        append_chunks (context ++ "Relevant document excerpts:" ++ blank_line) 0 (c :: cs)
    | _ => context
    end in
  match relevantKnowledge with
  | Some (k :: ks) =>
      append_knowledge (context ++ "Relevant knowledge base entries:" ++ blank_line)
                       0 (k :: ks)
  | _ => context
  end.

Definition persona : string :=
"You are TALON, a specialized AI assistant for military vehicle load planning and transportation operations. Your expertise includes:

- Military vehicle specifications and capabilities
- Load planning procedures and calculations
- Equipment and munition considerations
- Transportation logistics and operations
- Infrastructure requirements and constraints
- Safety protocols and regulations

Always provide accurate, professional, and actionable advice. If you don't have specific information, clearly state your limitations and suggest consulting official military documentation or subject matter experts.

".

Definition closing : string :=
"

Respond in a helpful, professional manner appropriate for military personnel.".

(** The [systemPrompt] template of lines 188-201. *)
Definition systemPrompt (context : string) : string :=
  persona
  ++ match context with
     | EmptyString => ""
     | _ => "Use the following context information to inform your response:"
            ++ blank_line ++ context
     end
  ++ closing.

(** [conversationHistory?.slice(-6) || []] for a history that is missing
    or an array. *)
Definition recentHistory {A} (conversationHistory : option (list A)) : list A :=
  match conversationHistory with
  | Some turns => drop (List.length turns - 6) turns
  | None => []
  end.

(** Lines 182-185: the recent history, and the [map] over it that reads
    [role] and [content] of every element kept. Only arrays and strings
    have a [slice]; the slice of an empty string is falsy and gives
    [[]]; only arrays have a [map], and reading [role] of [null]
    throws. *)
Definition read_history (conversationHistory : history_value) : outcome (list turn) :=
  match conversationHistory with
  | NoHistory => Returned (recentHistory None)
  | TurnArray items =>
      match present (recentHistory (Some items)) with
      | Some turns => Returned turns
      | None => Thrown "Cannot read properties of null (reading 'role')"
      end
  | TextValue EmptyString => Returned []
  | TextValue _ => Thrown "recentHistory.map is not a function"
  | OtherValue => Thrown "conversationHistory?.slice is not a function"
  end.

Definition count {A} (rows : option (list A)) : nat :=
  match rows with Some l => List.length l | None => 0 end.

Section Serve.
Variable e : env.

Definition rpc {A} (fn : string) (result : rpc_result A) : M (rpc_result A) :=
  emit (Rpc fn) ;;; ret result.

Definition complete (system : string) (history : list turn) (user : string) : M string :=
  emit (ChatCompletion system) ;;;
  match completion_service e system history user with
  | CompletionOk assistantResponse => ret assistantResponse
  | CompletionNotOk status errorText =>
      throw ("OpenAI API error: " ++ JS.of_nat status ++ " " ++ errorText)
  | CompletionBroken message => throw message
  end.

(** The [try] block of the chat function (index.ts lines 135-241). *)
Definition chat_turn : M response :=
  body <- req_json (req_payload e) ;;
  let message := payload_message body in
  questionEmbedding <- Embedder.generateEmbedding (embedding_service e) message ;;
  chunks <- rpc "search_chunks" (rpc_search_chunks e questionEmbedding (7 # 10) 5) ;;
  (match error chunks with
   | Some _ => console_error "Error searching chunks:"
   | None => ret tt
   end) ;;;
  knowledge <- rpc "search_knowledge" (rpc_search_knowledge e questionEmbedding (7 # 10) 3) ;;
  (match error knowledge with
   | Some _ => console_error "Error searching knowledge base:"
   | None => ret tt
   end) ;;;
  let relevantChunks := data chunks in
  let relevantKnowledge := data knowledge in
  let context := assemble_context relevantChunks relevantKnowledge in
  recentHistory <- (fun w => (w, read_history (payload_history body))) ;;
  assistantResponse <- complete (systemPrompt context) recentHistory message ;;
  ret (Answer assistantResponse (count relevantChunks) (count relevantKnowledge)).

(** [serve] of the chat function. *)
Definition serve : M response :=
  if String.eqb (req_method e) "OPTIONS" then ret Preflight
  else
    try_catch chat_turn
      (fun message => console_error "Error in chat function:" ;;; ret (Failure message)).

End Serve.
End Chat.

(* ===================================================================== *)
(** * Markdown conversion and structure-aware chunking (part_001)         *)
(* ===================================================================== *)

Module Markdown.
Import Eff Chunker Pipeline.
Local Open Scope string_scope.
Local Open Scope eff_scope.

(** ** String primitives used by this file *)

Definition prepend (c : ascii) (parts : list string) : list string :=
  match parts with
  | h :: t => String c h :: t
  | [] => [String c EmptyString]
  end.

(** [^] under the [m] flag matches after a line terminator; below 256
    these are LF and CR. *)
Definition is_line_terminator (c : ascii) : bool :=
  Ascii.eqb c JS.LF || Ascii.eqb c (ascii_of_nat 13).

(** [#{1,3}\s] at the head of [s]: one to three hashes, then a white
    space character. *)
Definition heading_here (s : string) : bool :=
  match s with
  | String "#" (String c1 r1) =>
      JS.is_whitespace c1
      || (Ascii.eqb c1 "#"
          && match r1 with
             | String c2 r2 =>
                 JS.is_whitespace c2
                 || (Ascii.eqb c2 "#"
                     && match r2 with
                        | String c3 _ => JS.is_whitespace c3
                        | EmptyString => false
                        end)
             | EmptyString => false
             end)
  | _ => false
  end.

(** The pieces of [s] when it is cut before every heading; [line_start]
    tells whether [s] begins a line. A cut at the very beginning of [s]
    shows as an empty first piece. *)
Fixpoint cut_at_headings (line_start : bool) (s : string) : list string :=
  match s with
  | EmptyString => [EmptyString]
  | String c s' =>
      let pieces := prepend c (cut_at_headings (is_line_terminator c) s') in
      if line_start && heading_here s then EmptyString :: pieces else pieces
  end.

(** [content.split(/(?=^#{1,3}\s)/m)]: an empty match at the position
    where the current piece starts does not split, so the text is never
    cut at index 0. *)
Definition split_sections (content : string) : list string :=
  match content with
  | EmptyString => [EmptyString]
  | String c s' => prepend c (cut_at_headings (is_line_terminator c) s')
  end.

(** Length of the longest prefix of [s] that is white space and ends
    with a line feed, counted from [i]; [None] when the white space at
    the head of [s] holds no line feed. *)
Fixpoint blank_run (s : string) (i : nat) (found : option nat) : option nat :=
  match s with
  | EmptyString => found
  | String c s' =>
      if JS.is_whitespace c
      then blank_run s' (S i) (if Ascii.eqb c JS.LF then Some (S i) else found)
      else found
  end.

(** [section.split(/\n\s*\n/)]; [skip] characters of a separator found
    earlier are still to be passed over. *)
Fixpoint split_paragraphs_from (skip : nat) (s : string) : list string :=
  match s with
  | EmptyString => [EmptyString]
  | String c s' =>
      match skip with
      | S k => split_paragraphs_from k s'
      | O =>
          if Ascii.eqb c JS.LF
          then match blank_run s' 0 None with
               | Some k => EmptyString :: split_paragraphs_from k s'
               | None => prepend c (split_paragraphs_from 0 s')
               end
          else prepend c (split_paragraphs_from 0 s')
      end
  end.

Definition split_paragraphs (section : string) : list string :=
  split_paragraphs_from 0 section.

(** [toUpperCase] on code units below 256 whose upper case is again one
    code unit below 256: a-z and the Latin-1 small letters 0xE0-0xFE
    without 0xF7. *)
Definition upper_char (c : ascii) : ascii :=
  let n := nat_of_ascii c in
  if ((97 <=? n)%nat && (n <=? 122)%nat)
     || ((224 <=? n)%nat && (n <=? 254)%nat && negb (n =? 247)%nat)
  then ascii_of_nat (n - 32) else c.

Fixpoint toUpperCase (s : string) : string :=
  match s with
  | EmptyString => EmptyString
  | String c s' => String (upper_char c) (toUpperCase s')
  end.

(** [array.pop()] on a fresh array: its last element. *)
Definition pop (parts : list string) : option string := last parts.

(** ** Fallback extraction *)

Definition placeholder (fileName : string) (fileSize : Z) : string :=
  "Document: " ++ fileName ++ Csv.newline
  ++ "File Size: " ++ JS.of_nat (Z.to_nat fileSize) ++ " bytes" ++ Csv.newline
  ++ "Type: "
  ++ match pop (JS.split "." fileName) with
     | Some ext => toUpperCase ext
     | None => "undefined"
     end
  ++ " document" ++ Csv.newline ++ Csv.newline
  ++ "This document was uploaded successfully but requires the Unstructured.io API for full content extraction."
  ++ Csv.newline
  ++ "Please configure the UNSTRUCTURED_API_KEY environment variable to enable advanced document parsing."
  ++ Csv.newline ++ Csv.newline
  ++ "To configure the API key:" ++ Csv.newline
  ++ "1. Sign up at unstructured.io" ++ Csv.newline
  ++ "2. Get your API key" ++ Csv.newline
  ++ "3. Add it as a secret in your Supabase project" ++ Csv.newline ++ Csv.newline
  ++ "The document is stored and ready for processing once the API key is configured.".

Definition is_binary_document (fileName : string) : bool :=
  JS.endsWith fileName ".pdf" || JS.endsWith fileName ".docx"
  || JS.endsWith fileName ".doc" || JS.endsWith fileName ".xlsx"
  || JS.endsWith fileName ".xls" || JS.endsWith fileName ".pptx".

(** [extractTextFromFileFallback] (line 234). *)
Definition extractTextFromFileFallback (fileData : Blob) (filePath : option string)
    : M string :=
  match filePath with
  | None => throw "Cannot read properties of undefined (reading 'toLowerCase')"
  | Some filePath =>
      let fileName := JS.toLowerCase filePath in
      if JS.endsWith fileName ".txt" || JS.endsWith fileName ".md"
         || JS.endsWith fileName ".json"
      then text fileData
      else if JS.endsWith fileName ".csv"
      then csvText <- text fileData ;; ret (Csv.parseCSVToText_fallback csvText)
      else if is_binary_document fileName
      then ret (placeholder fileName (blob_size fileData))
      else try_catch (text fileData)
             (fun _ =>
                console_error "Failed to read file as text:" ;;;
                throw ("Unable to extract content from " ++ fileName
                       ++ ". This file type may require the Unstructured.io API for proper parsing."))
  end.

(** ** Conversion through the Unstructured service *)

(** An element of the reply; a missing [text] reads as [undefined]. *)
Record element := mkElement { el_type : string; el_text : option string }.

(** Reply of [fetch('https://api.unstructured.io/general/v0/general')]. *)
Inductive unstructured_reply :=
| ElementsOk (result : list element)
| ElementsNotOk (status : nat) (errorText : string)
| ElementsBroken (message : string).

(** The [for (const element of result)] loop (lines 190-216). *)
Fixpoint render_elements (result : list element) (markdownContent : string) : string :=
  match result with
  | [] => markdownContent
  | element :: rest =>
      let markdownContent :=
        match el_text element with
        | Some text =>
            match JS.trim text with
            | EmptyString => markdownContent
            | _ =>
                if String.eqb (el_type element) "Title"
                then markdownContent ++ "# " ++ text ++ Csv.newline ++ Csv.newline
                else if String.eqb (el_type element) "Header"
                then markdownContent ++ "## " ++ text ++ Csv.newline ++ Csv.newline
                else if String.eqb (el_type element) "SubHeader"
                then markdownContent ++ "### " ++ text ++ Csv.newline ++ Csv.newline
                else if String.eqb (el_type element) "Table"
                then markdownContent ++ text ++ Csv.newline ++ Csv.newline
                else if String.eqb (el_type element) "ListItem"
                then markdownContent ++ "- " ++ text ++ Csv.newline
                else markdownContent ++ text ++ Csv.newline ++ Csv.newline
            end
        | None => markdownContent
        end in
      render_elements rest markdownContent
  end.

Section Convert.
(** [UNSTRUCTURED_API_KEY], and what the service replies for a file. *)
Variable unstructuredApiKey : option string.
Variable unstructured_service : Blob -> string -> unstructured_reply.

(** [convertToMarkdownWithUnstructured] (line 149). *)
Definition convertToMarkdownWithUnstructured (fileData : Blob)
    (filePath : option string) : M string :=
  match filePath with
  | None => throw "Cannot read properties of undefined (reading 'split')"
  | Some path =>
      let fileName :=
        match pop (JS.split "/" path) with
        | Some (String c s) => String c s
        | _ => EmptyString
        end in
      if negb (truthy unstructuredApiKey)
      then extractTextFromFileFallback fileData filePath
      else
        try_catch
          (match unstructured_service fileData fileName with
           | ElementsBroken message => throw message
           | ElementsNotOk status errorText =>
               console_error "Unstructured.io API error:" ;;;
               extractTextFromFileFallback fileData filePath
           | ElementsOk result =>
               let markdownContent := render_elements result "" in
               match JS.trim markdownContent with
               | EmptyString => extractTextFromFileFallback fileData filePath
               | trimmed => ret trimmed
               end
           end)
          (fun _ =>
             console_error "Error converting to Markdown with Unstructured.io:" ;;;
             extractTextFromFileFallback fileData filePath)
  end.

End Convert.

(** ** Structure-aware chunking *)

(** State of the loop of [chunkLargeMarkdownSection]. *)
Record section_state := mkSectionState {
  st_chunks : list TextChunk;
  st_currentChunk : string;
  st_chunkStartIndex : Z;
  st_currentIndex : Z
}.

(** One pass of [for (const paragraph of paragraphs)] (lines 362-385). *)
Definition add_paragraph (maxChunkSize overlap : Z) (st : section_state)
    (paragraph : string) : section_state :=
  let paragraphWithSpacing := paragraph ++ Csv.newline ++ Csv.newline in
  let currentChunk := st_currentChunk st in
  let currentIndex := st_currentIndex st in
  if (maxChunkSize <? JS.length currentChunk + JS.length paragraphWithSpacing)%Z
     && (0 <? JS.length currentChunk)%Z
  then
    let overlapText := JS.slice currentChunk (- overlap) (JS.length currentChunk) in
    mkSectionState
      (app (st_chunks st)
           [mkChunk (JS.trim currentChunk) (st_chunkStartIndex st) currentIndex])
      (overlapText ++ paragraphWithSpacing)
      (currentIndex - JS.length overlapText)
      (currentIndex + JS.length paragraphWithSpacing)
  else
    mkSectionState
      (st_chunks st)
      (currentChunk ++ paragraphWithSpacing)
      (if (JS.length currentChunk =? 0)%Z then currentIndex else st_chunkStartIndex st)
      (currentIndex + JS.length paragraphWithSpacing).

(** [chunkLargeMarkdownSection] (line 354). *)
Definition chunkLargeMarkdownSection (section : string) (maxChunkSize overlap : Z)
    : list TextChunk :=
  let paragraphs := split_paragraphs section in
  let st := fold_left (add_paragraph maxChunkSize overlap) paragraphs
                      (mkSectionState [] "" 0 0) in
  if (0 <? JS.length (JS.trim (st_currentChunk st)))%Z
  then app (st_chunks st)
           [mkChunk (JS.trim (st_currentChunk st)) (st_chunkStartIndex st)
                    (st_currentIndex st)]
  else st_chunks st.

(** One pass of [for (const section of sections)] of [chunkMarkdown]
    (lines 323-349): the chunks and [currentIndex] after the pass. *)
Definition add_section (maxChunkSize overlap : Z) (st : list TextChunk * Z)
    (section : string) : list TextChunk * Z :=
  let chunks := fst st in
  let currentIndex := snd st in
  if (JS.length (JS.trim section) =? 0)%Z
  then (chunks, (currentIndex + JS.length section)%Z)
  else if (JS.length section <=? maxChunkSize)%Z
  then (app chunks [mkChunk (JS.trim section) currentIndex
                            (currentIndex + JS.length section)%Z],
        (currentIndex + JS.length section)%Z)
  else
    (app chunks
         (map (fun chunk =>
                 mkChunk (content chunk) (currentIndex + startIndex chunk)%Z
                         (currentIndex + endIndex chunk)%Z)
              (chunkLargeMarkdownSection section maxChunkSize overlap)),
     (currentIndex + JS.length section)%Z).

(** [chunkMarkdown] (line 315). *)
Definition chunkMarkdown (content : string) (maxChunkSize overlap : Z)
    : list TextChunk :=
  let sections := split_sections content in
  fst (fold_left (add_section maxChunkSize overlap) sections ([], 0%Z)).

(** [serve] of the first file of part_001, with its converter and
    chunker. *)
Definition serve (e : env) (unstructuredApiKey : option string)
    (unstructured_service : Blob -> string -> unstructured_reply) : M response :=
  serve_part001_markdown e
    (convertToMarkdownWithUnstructured unstructuredApiKey unstructured_service)
    chunkMarkdown.

End Markdown.

(* ===================================================================== *)
(** * Knowledge entries: add-manual-knowledge and process-url             *)
(* ===================================================================== *)

Module Knowledge.
Import Eff.
Local Open Scope string_scope.

(** ** HTML to text (part_001 line 1028) *)

(** Equality of two code units under the [i] flag, for a pattern
    character [p] in lower case. *)
Definition eqb_ci (p c : ascii) : bool := Ascii.eqb (JS.lower_char c) p.

Fixpoint startsWith_ci (pattern s : string) : bool :=
  match pattern, s with
  | EmptyString, _ => true
  | String p pattern', String c s' => eqb_ci p c && startsWith_ci pattern' s'
  | String _ _, EmptyString => false
  end.

(** Index of the first occurrence of [pattern] in [s], ignoring case. *)
Fixpoint find_ci (pattern s : string) : option nat :=
  if startsWith_ci pattern s then Some 0%nat
  else match s with
       | EmptyString => None
       | String _ s' => option_map S (find_ci pattern s')
       end.

(** Index of the first [c] in [s]. *)
Fixpoint index_of (c : ascii) (s : string) : option nat :=
  match s with
  | EmptyString => None
  | String x s' => if Ascii.eqb x c then Some 0%nat else option_map S (index_of c s')
  end.

Fixpoint drop_string (n : nat) (s : string) : string :=
  match n, s with
  | S n', String _ s' => drop_string n' s'
  | _, _ => s
  end.

(** Length of the match of [<tag[^>]*>.*?</tag>] (flags [s] and [i]) at
    the head of [s]: the opening up to the first [>], then everything up
    to the first closing tag. [opening] is [<tag] and [closing] is
    [</tag>], both in lower case. *)
Definition block_match (opening closing : string) (s : string) : option nat :=
  if startsWith_ci opening s then
    let after_name := drop_string (String.length opening) s in
    match index_of ">" after_name with
    | Some j =>
        match find_ci closing (drop_string (S j) after_name) with
        | Some k => Some (String.length opening + S j + k + String.length closing)%nat
        | None => None
        end
    | None => None
    end
  else None.

(** [.replace(/<tag[^>]*>.*?<\/tag>/gsi, '')]; [skip] characters of a
    match found earlier are still to be dropped. *)
Fixpoint remove_blocks_from (opening closing : string) (skip : nat) (s : string)
    : string :=
  match s with
  | EmptyString => EmptyString
  | String c s' =>
      match skip with
      | S k => remove_blocks_from opening closing k s'
      | O =>
          match block_match opening closing s with
          | Some (S k) => remove_blocks_from opening closing k s'
          | _ => String c (remove_blocks_from opening closing 0 s')
          end
      end
  end.

Definition remove_blocks (opening closing : string) (s : string) : string :=
  remove_blocks_from opening closing 0 s.

(** [.replace(/<[^>]*>/g, ' ')]. *)
Fixpoint replace_tags_from (skip : nat) (s : string) : string :=
  match s with
  | EmptyString => EmptyString
  | String c s' =>
      match skip with
      | S k => replace_tags_from k s'
      | O =>
          if Ascii.eqb c "<"
          then match index_of ">" s' with
               | Some j => String " " (replace_tags_from (S j) s')
               | None => String c (replace_tags_from 0 s')
               end
          else String c (replace_tags_from 0 s')
      end
  end.

Definition replace_tags (s : string) : string := replace_tags_from 0 s.

(** [.replace(/\s+/g, ' ')]; [in_run] tells that the previous character
    was white space. *)
Fixpoint collapse_spaces_from (in_run : bool) (s : string) : string :=
  match s with
  | EmptyString => EmptyString
  | String c s' =>
      if JS.is_whitespace c
      then if in_run then collapse_spaces_from true s'
           else String " " (collapse_spaces_from true s')
      else String c (collapse_spaces_from false s')
  end.

Definition collapse_spaces (s : string) : string := collapse_spaces_from false s.

Definition extractTextFromHTML (html : string) : string :=
  JS.trim
    (collapse_spaces
       (replace_tags
          (remove_blocks "<style" "</style>"
             (remove_blocks "<script" "</script>" html)))).

(** ** Effects of the two functions *)

(** A row of [public.knowledge_base] as the functions write it. *)
Record knowledge_row := mkKnowledgeRow {
  k_title : string;
  k_description : string;
  k_source_type : string;
  k_source_reference : option string;
  k_content : string;
  k_embedding : vector;
  k_tags : list string;
  k_user_id : string
}.

(** Calls to the collaborators that document processing does not have. *)
Inductive call :=
| GetUser (token : string)
| FetchUrl (url : string)
| InsertKnowledge (row : knowledge_row) (stored : bool).

(** The world of these functions: the world of [Eff], holding the
    request body, the embedding requests and the console, and the calls
    above. *)
Record kworld := mkKWorld { base : world; calls : list call }.

Definition K (A : Type) : Type := kworld -> kworld * outcome A.

Definition ret {A} (a : A) : K A := fun w => (w, Returned a).

Definition bind {A B} (m : K A) (k : A -> K B) : K B :=
  fun w => match m w with
           | (w', Returned a) => k a w'
           | (w', Thrown msg) => (w', Thrown msg)
           end.

Definition throw {A} (message : string) : K A := fun w => (w, Thrown message).

Definition try_catch {A} (m : K A) (h : string -> K A) : K A :=
  fun w => match m w with
           | (w', Thrown msg) => h msg w'
           | r => r
           end.

(** A computation of [Eff] run on the base world. *)
Definition lift {A} (m : M A) : K A :=
  fun w => let (b, r) := m (base w) in (mkKWorld b (calls w), r).

Definition record (c : call) : K unit :=
  fun w => (mkKWorld (base w) (calls w ++ [c]), Returned tt).

Definition initial : kworld := mkKWorld Eff.initial [].

Inductive fetch_reply :=
| FetchOk (body : string)
| FetchNotOk (status : nat) (statusText : string)
| FetchRejected (message : string).

Record request (B : Type) := mkRequest {
  method : string;
  authorization : option string;
  json_body : option B
}.
Arguments mkRequest {B} method authorization json_body.
Arguments method {B} r.
Arguments authorization {B} r.
Arguments json_body {B} r.

(** The collaborators of one request. *)
Record env := mkEnv {
  auth_user : string -> option string;
  embedding_service : list effect -> string -> string -> embedding_reply;
  insert_error : list call -> knowledge_row -> option string;
  fetch_url : string -> fetch_reply;
  url_hostname : string -> outcome string
}.

Inductive response :=
| Preflight
| Success (title : string) (contentLength : Z)
| Failure (details : string).

(** [s.replace(pattern, '')] for a string pattern: the first occurrence
    is removed. *)
Fixpoint remove_first (pattern s : string) : string :=
  if JS.startsWith pattern s then drop_string (String.length pattern) s
  else match s with
       | EmptyString => EmptyString
       | String c s' => String c (remove_first pattern s')
       end.

Record manual_body := mkManualBody {
  title : option string;
  content : option string;
  tags : option (list string)
}.

Record url_body := mkUrlBody { url : option string }.

(** [!s?.trim()]. *)
Definition blank (s : option string) : bool :=
  match s with
  | Some s => (JS.length (JS.trim s) =? 0)%Z
  | None => true
  end.

End Knowledge.

Declare Scope keff_scope.
Delimit Scope keff_scope with keff.
Notation "x <- m ;; k" := (Knowledge.bind m (fun x => k))
  (at level 100, m at next level, k at level 200, right associativity) : keff_scope.
Notation "m ;;; k" := (Knowledge.bind m (fun _ => k))
  (at level 100, k at level 200, right associativity) : keff_scope.

Module KnowledgeFunctions.
Import Eff Knowledge.
Local Open Scope string_scope.
Local Open Scope keff_scope.

Section Serve.
Variable e : env.

(** The header check and [supabase.auth.getUser(token)] shared by both
    functions: the id of the user, or an error. *)
Definition authenticate (authHeader : option string) : K string :=
  if negb (Pipeline.truthy authHeader) then throw "No authorization header"
  else
    let token := remove_first "Bearer " (default "" authHeader) in
    record (GetUser token) ;;;
    match auth_user e token with
    | Some user_id => ret user_id
    | None => throw "Unauthorized"
    end.

Definition insert_knowledge (row : knowledge_row) : K unit :=
  fun w =>
    let insertError := insert_error e (calls w) row in
    match insertError with
    | Some message =>
        (mkKWorld (base w) (calls w ++ [InsertKnowledge row false]), Thrown message)
    | None =>
        (mkKWorld (base w) (calls w ++ [InsertKnowledge row true]), Returned tt)
    end.

Definition on_error (label : string) (message : string) : K response :=
  lift (console_error label) ;;; ret (Failure message).

(** [serve] of add-manual-knowledge (index.ts lines 16-89). *)
Definition add_manual_knowledge (req : request manual_body) : K response :=
  if String.eqb (method req) "OPTIONS" then ret Preflight
  else
    try_catch
      (body <- lift (req_json (json_body req)) ;;
       user_id <- authenticate (authorization req) ;;
       if blank (title body) || blank (content body)
       then throw "Title and content are required"
       else
         let title := default "" (title body) in
         let content := default "" (content body) in
         embedding <- lift (Embedder.generateEmbedding_truncating
                              (embedding_service e) content) ;;
         insert_knowledge
           (mkKnowledgeRow (JS.trim title) ("Manual entry: " ++ JS.trim title)
              "manual" None (JS.trim content) embedding
              (default [] (tags body)) user_id) ;;;
         ret (Success title (JS.length content)))
      (on_error "Error adding manual knowledge:").

Definition fetch (url : option string) : K string :=
  match url with
  | None => throw "Invalid URL: 'undefined'"
  | Some url =>
      record (FetchUrl url) ;;;
      match fetch_url e url with
      | FetchOk body => ret body
      | FetchNotOk status statusText =>
          throw ("Failed to fetch URL: " ++ JS.of_nat status ++ " " ++ statusText)
      | FetchRejected message => throw message
      end
  end.

(** [serve] of process-url (part_001 lines 934-1026). *)
Definition process_url (req : request url_body) : K response :=
  if String.eqb (method req) "OPTIONS" then ret Preflight
  else
    try_catch
      (body <- lift (req_json (json_body req)) ;;
       user_id <- authenticate (authorization req) ;;
       content <- fetch (url body) ;;
       let textContent := extractTextFromHTML content in
       if (JS.length textContent =? 0)%Z || (JS.length (JS.trim textContent) <? 50)%Z
       then throw "No meaningful content could be extracted from the URL"
       else
         title <- (fun w => (w, Url.extractTitleFromContent (url_hostname e) textContent
                                  (default "" (url body)))) ;;
         embedding <- lift (Embedder.generateEmbedding_truncating
                              (embedding_service e) textContent) ;;
         insert_knowledge
           (mkKnowledgeRow title ("Content extracted from: " ++ default "" (url body))
              "url" (url body) textContent embedding ["url"; "web-content"] user_id) ;;;
         ret (Success title (JS.length textContent)))
      (on_error "Error processing URL:").

End Serve.
End KnowledgeFunctions.

(* ===================================================================== *)
(** * Maintenance pass over stuck documents (part_003)                    *)
(* ===================================================================== *)

Module Maintenance.
Import Eff.

(** The columns of [documents] the statement reads or writes. *)
Record document := mkDocument { upload_status : Eff.upload_status; updated_at : Z }.

(** [UPDATE documents SET upload_status = 'failed', updated_at = now()
    WHERE upload_status = 'processing'], on the table keyed by [id]. *)
Definition fail_stuck_documents (now : Z) (documents : gmap string document)
    : gmap string document :=
  (fun d => if decide (upload_status d = processing)
            then mkDocument failed now else d) <$> documents.

End Maintenance.

(* ===================================================================== *)
(** * The chat client (main.tsx)                                          *)
(* ===================================================================== *)

Module Client.

(** [messages.slice(-10)], the history [sendMessage] puts in the
    request (main.tsx line 72). *)
Definition history_window {A} (messages : list A) : list A :=
  drop (length messages - 10) messages.

(** The body [handleManualEntry] sends for the three fields of the form
    (main.tsx lines 367-379); nothing is sent while the title or the
    content is blank. *)
Definition manual_entry (manualTitle manualContent manualTags : string)
    : option Knowledge.manual_body :=
  match JS.trim manualTitle, JS.trim manualContent with
  | EmptyString, _ | _, EmptyString => None
  | title, content =>
      let tags :=
        List.filter (fun tag => match tag with EmptyString => false | _ => true end)
                    (map JS.trim (JS.split "," manualTags)) in
      Some (Knowledge.mkManualBody (Some title) (Some content) (Some tags))
  end.

End Client.

(* ===================================================================== *)
(** * Properties of the chunker                                           *)
(* ===================================================================== *)

Section ChunkerFacts.
Import Chunker.
Local Open Scope Z_scope.

Lemma chunkText_loop_unfold text maxChunkSize overlap start chunks :
  chunkText_loop text maxChunkSize overlap start chunks =
  if start <? JS.length text
  then chunkText_loop text maxChunkSize overlap
         (fst (chunkText_body text maxChunkSize overlap start chunks))
         (snd (chunkText_body text maxChunkSize overlap start chunks))
  else chunks.
Proof.
  rewrite chunkText_loop_equation_1.
  destruct (Z_lt_dec start (JS.length text)) as [Hlt | Hge]; simpl.
  - apply Z.ltb_lt in Hlt. now rewrite Hlt.
  - apply Z.ltb_nlt in Hge. now rewrite Hge.
Qed.

(** Cutting the loop off after enough passes does not change its
    result, and the cut-off run has left the loop by then. *)
Lemma chunkText_run_complete text maxChunkSize overlap n :
  forall start chunks,
    JS.length text - start <= Z.of_nat n ->
    JS.length text <= fst (chunkText_run text maxChunkSize overlap n (start, chunks))
    /\ chunkText_loop text maxChunkSize overlap start chunks
       = snd (chunkText_run text maxChunkSize overlap n (start, chunks)).
Proof.
  induction n as [| n IH]; intros start chunks Hfuel.
  - simpl. split; [lia |].
    rewrite chunkText_loop_unfold.
    destruct (Z.ltb_spec start (JS.length text)); [lia | reflexivity].
  - cbn [chunkText_run fst snd].
    rewrite chunkText_loop_unfold.
    destruct (Z.ltb_spec start (JS.length text)) as [Hlt | Hge].
    + pose proof (chunkText_body_advances text maxChunkSize overlap start chunks) as Hadv.
      destruct (chunkText_body text maxChunkSize overlap start chunks) as [start' chunks'].
      cbn [fst snd] in *. apply IH. lia.
    + cbn [fst snd]. split; [lia | reflexivity].
Qed.

(** The end of the window that starts at [start]: the hard cut, or the
    position after the last period or line feed when that lies beyond
    half a chunk. *)
Definition window_end (text : string) (maxChunkSize start : Z) : Z :=
  let hard := Z.min (start + maxChunkSize) (JS.length text) in
  if hard <? JS.length text then
    let breakPoint :=
      Z.max (JS.lastIndexOf text "."%char hard) (JS.lastIndexOf text JS.LF hard) in
    if 2 * start + maxChunkSize <? 2 * breakPoint then breakPoint + 1 else hard
  else hard.

(** C5. For every text, every chunk size and every overlap (also an
    overlap at or above the chunk size), each pass of the loop of
    [chunkText] moves the window start to [max (start + 1) (end - overlap)]
    for the window end [end] of that pass, which lies strictly after the
    previous start; the loop is left after at most [text.length] passes
    with the start at or beyond the end of the text, and what
    [chunkText] returns is the chunk list of that moment. *)
Theorem chunkText_terminates (text : string) (maxChunkSize overlap : Z) :
  (forall start chunks,
      fst (chunkText_body text maxChunkSize overlap start chunks)
      = Z.max (start + 1) (window_end text maxChunkSize start - overlap)
      /\ start < fst (chunkText_body text maxChunkSize overlap start chunks))
  /\ JS.length text
     <= fst (chunkText_run text maxChunkSize overlap (String.length text) (0, []))
  /\ chunkText text maxChunkSize overlap
     = snd (chunkText_run text maxChunkSize overlap (String.length text) (0, [])).
Proof.
  split.
  - intros start chunks. split; [reflexivity | apply chunkText_body_advances].
  - unfold chunkText. apply chunkText_run_complete. unfold JS.length. lia.
Qed.

Lemma chunkText_empty maxChunkSize overlap : chunkText "" maxChunkSize overlap = [].
Proof. unfold chunkText. rewrite chunkText_loop_unfold. reflexivity. Qed.

(** The legacy variant returns early on a text that fits one chunk. *)
Lemma chunkTextLegacy_short text maxChunkSize overlap :
  JS.length text <= maxChunkSize ->
  chunkTextLegacy text maxChunkSize overlap = [mkChunk text 0 (JS.length text)].
Proof.
  intros Hfit. unfold chunkTextLegacy.
  destruct (Z.leb_spec (JS.length text) maxChunkSize); [reflexivity | lia].
Qed.

(** C4. [chunkText], called as the pipeline calls it, splits the
    four-character text [abcd] into four chunks instead of one: once a
    window reaches the end of the text the start advances one character
    at a time. The legacy variant, which returns early for a text that
    fits one chunk, returns one chunk with empty content for the empty
    text. *)
Theorem chunkText_short_input_many_chunks :
  chunkText "abcd" 1000 200
  = [mkChunk "abcd" 0 4; mkChunk "bcd" 1 4; mkChunk "cd" 2 4; mkChunk "d" 3 4]
  /\ chunkTextLegacy "" 1000 200 = [mkChunk "" 0 0].
Proof. split; reflexivity. Qed.

End ChunkerFacts.

(* ===================================================================== *)
(** * Properties of the ingestion pipeline                                *)
(* ===================================================================== *)

Section PipelineFacts.
Import Eff Chunker Pipeline.

(** The world after further calls [evs]. *)
Definition after (w : world) (evs : list effect) : world :=
  mkWorld (bodyUsed w) (trace w ++ evs).

Lemma after_after w evs evs' : after (after w evs) evs' = after w (evs ++ evs').
Proof. unfold after; simpl. now rewrite app_assoc. Qed.

Lemma after_nil w : after w [] = w.
Proof. destruct w; unfold after; simpl. now rewrite app_nil_r. Qed.

Lemma bind_returned {A B} (m : M A) (k : A -> M B) w w' a :
  m w = (w', Returned a) -> bind m k w = k a w'.
Proof. intros H. unfold bind. now rewrite H. Qed.

Lemma bind_thrown {A B} (m : M A) (k : A -> M B) w w' msg :
  m w = (w', Thrown msg) -> bind m k w = (w', Thrown msg).
Proof. intros H. unfold bind. now rewrite H. Qed.

Lemma emit_after c w : emit c w = (after w [c], Returned tt).
Proof. reflexivity. Qed.

Lemma status_updates_app id l1 l2 :
  status_updates id (l1 ++ l2) = status_updates id l1 ++ status_updates id l2.
Proof. apply omap_app. Qed.

Lemma stored_rows_app l1 l2 : stored_rows (l1 ++ l2) = stored_rows l1 ++ stored_rows l2.
Proof. apply omap_app. Qed.

Lemma embedding_inputs_app l1 l2 :
  embedding_inputs (l1 ++ l2) = embedding_inputs l1 ++ embedding_inputs l2.
Proof. apply omap_app. Qed.

(** The row written for chunk number [k]. *)
Definition row_for (documentId : option string) (k : nat) (chunk : TextChunk)
    (v : vector) : chunk_row :=
  mkRow documentId k (content chunk) (estimateTokens (content chunk)) v
        (startIndex chunk) (endIndex chunk).

(** [rows_of documentId k chunks rows]: [rows] are rows written for some
    of [chunks], in order, the chunk at position [j] under index [k + j]. *)
Inductive rows_of (documentId : option string)
    : nat -> list TextChunk -> list chunk_row -> Prop :=
| rows_of_nil k : rows_of documentId k [] []
| rows_of_stored k chunk chunks v rows :
    rows_of documentId (S k) chunks rows ->
    rows_of documentId k (chunk :: chunks) (row_for documentId k chunk v :: rows)
| rows_of_missing k chunk chunks rows :
    rows_of documentId (S k) chunks rows ->
    rows_of documentId k (chunk :: chunks) rows.

Lemma rows_of_app documentId k cs1 rows1 cs2 rows2 :
  rows_of documentId k cs1 rows1 ->
  rows_of documentId (k + length cs1) cs2 rows2 ->
  rows_of documentId k (cs1 ++ cs2) (rows1 ++ rows2).
Proof.
  intros H1. revert cs2 rows2. induction H1; intros cs2 rows2 H2; simpl in *.
  - now rewrite Nat.add_0_r in H2.
  - constructor. apply IHrows_of. now rewrite Nat.add_succ_r in H2.
  - apply rows_of_missing. apply IHrows_of. now rewrite Nat.add_succ_r in H2.
Qed.

Lemma rows_of_lookup documentId k chunks rows :
  rows_of documentId k chunks rows ->
  Forall (fun row => exists j chunk v,
              chunk_index row = (k + j)%nat /\ chunks !! j = Some chunk
              /\ row = row_for documentId (k + j) chunk v) rows.
Proof.
  induction 1 as [k | k chunk chunks v rows _ IH | k chunk chunks rows _ IH].
  - constructor.
  - constructor.
    + exists 0%nat, chunk, v. rewrite Nat.add_0_r. auto.
    + eapply Forall_impl; [exact IH |].
      intros row (j & c & v' & Hi & Hl & Hr). exists (S j), c, v'.
      rewrite Nat.add_succ_r. auto.
  - eapply Forall_impl; [exact IH |].
    intros row (j & c & v' & Hi & Hl & Hr). exists (S j), c, v'.
    rewrite Nat.add_succ_r. auto.
Qed.

Lemma rows_of_sublist documentId k chunks rows :
  rows_of documentId k chunks rows ->
  sublist (map chunk_index rows) (seq k (length chunks)).
Proof.
  induction 1; simpl.
  - constructor.
  - now apply sublist_skip.
  - now apply sublist_cons.
Qed.

Section Batches.
Variable e : env.
Variable model : string.
Variable with_text : bool.

(** Every reply of the embedding service and of the database is a
    success. *)
Definition replies_ok : Prop :=
  (forall calls m input, exists v, embedding_service e calls m input = ReplyOk v)
  /\ (forall calls row, insert_error e calls row = None).

(** No embedding request succeeds. *)
Definition embedding_down : Prop :=
  forall calls m input v, embedding_service e calls m input <> ReplyOk v.

(** What the calls [evs] made for the chunks [cs], numbered from [k],
    amount to. *)
Definition batch_post (documentId : option string) (k : nat)
    (cs : list TextChunk) (evs : list effect) : Prop :=
  (forall id, status_updates id evs = [])
  /\ embedding_inputs evs = map content cs
  /\ rows_of documentId k cs (stored_rows evs)
  /\ (replies_ok -> map chunk_index (stored_rows evs) = seq k (length cs))
  /\ (embedding_down -> stored_rows evs = []).

Lemma batch_post_app documentId k cs1 evs1 cs2 evs2 :
  batch_post documentId k cs1 evs1 ->
  batch_post documentId (k + length cs1) cs2 evs2 ->
  batch_post documentId k (cs1 ++ cs2) (evs1 ++ evs2).
Proof.
  intros (Hs1 & Hi1 & Hr1 & Hok1 & Hd1) (Hs2 & Hi2 & Hr2 & Hok2 & Hd2).
  repeat split.
  - intros id. now rewrite status_updates_app, Hs1, Hs2.
  - now rewrite embedding_inputs_app, Hi1, Hi2, map_app.
  - rewrite stored_rows_app. now apply rows_of_app.
  - intros Hok. rewrite stored_rows_app, map_app, Hok1, Hok2 by assumption.
    rewrite length_app. symmetry. apply seq_app.
  - intros Hd. now rewrite stored_rows_app, Hd1, Hd2.
Qed.

Lemma batch_post_nil documentId k evs :
  (forall id, status_updates id evs = []) ->
  embedding_inputs evs = [] -> stored_rows evs = [] ->
  batch_post documentId k [] evs.
Proof.
  intros Hs Hi Hr. repeat split; auto; rewrite Hr; constructor.
Qed.

Lemma process_chunk_spec documentId i index chunk w :
  exists evs,
    process_chunk e model with_text documentId i index chunk w
    = (after w evs, Returned tt)
    /\ batch_post documentId (i + index) [chunk] evs.
Proof.
  unfold process_chunk, try_catch, bind, embed, Embedder.fetch_embedding,
    insert_chunk, history, console_error, throw, ret, bind.
  cbn [emit bodyUsed trace].
  destruct (embedding_service e (trace w) model (content chunk)) as [v | st txt | msg] eqn:Hreply.
  - cbn [emit bodyUsed trace].
    match goal with
    | |- context [insert_error e ?calls ?row] =>
        destruct (insert_error e calls row) as [err |] eqn:Hins
    end.
    + eexists [_; _; _]. split.
      * unfold after, emit; cbn. rewrite <- !app_assoc. reflexivity.
      * repeat split; cbn; try reflexivity.
        -- apply rows_of_missing. constructor.
        -- intros [_ Hok]. rewrite Hok in Hins. discriminate.
    + eexists [_; _]. split.
      * unfold after, emit; cbn. rewrite <- !app_assoc. reflexivity.
      * repeat split; cbn; try reflexivity.
        -- apply (rows_of_stored documentId (i + index) chunk [] v). constructor.
        -- intros Hd. now apply Hd in Hreply.
  - eexists [_; _]. split.
    + unfold after, emit; cbn. rewrite <- !app_assoc. reflexivity.
    + repeat split; cbn; try reflexivity.
      * apply rows_of_missing. constructor.
      * intros [Hok _]. destruct (Hok (trace w) model (content chunk)) as [v Hv].
        rewrite Hv in Hreply. discriminate.
  - eexists [_; _]. split.
    + unfold after, emit; cbn. rewrite <- !app_assoc. reflexivity.
    + repeat split; cbn; try reflexivity.
      * apply rows_of_missing. constructor.
      * intros [Hok _]. destruct (Hok (trace w) model (content chunk)) as [v Hv].
        rewrite Hv in Hreply. discriminate.
Qed.

Lemma run_batch_spec documentId i batch :
  forall index w,
  exists evs,
    run_batch e model with_text documentId i index batch w = (after w evs, Returned tt)
    /\ batch_post documentId (i + index) batch evs.
Proof.
  induction batch as [| chunk rest IH]; intros index w.
  - exists []. rewrite after_nil. split; [reflexivity |].
    now apply batch_post_nil.
  - cbn [run_batch].
    destruct (process_chunk_spec documentId i index chunk w) as (evs1 & Hrun1 & Hpost1).
    rewrite (bind_returned _ _ _ _ _ Hrun1).
    destruct (IH (S index) (after w evs1)) as (evs2 & Hrun2 & Hpost2).
    rewrite Hrun2, after_after.
    exists (evs1 ++ evs2). split; [reflexivity |].
    change (chunk :: rest) with ([chunk] ++ rest).
    apply batch_post_app; [exact Hpost1 |].
    cbn [length]. now replace (i + index + 1)%nat with (i + S index)%nat by lia.
Qed.

Lemma batch_loop_unfold documentId chunks i :
  batch_loop e model with_text documentId chunks i =
  if (i <? length chunks)%nat
  then Eff.bind (run_batch e model with_text documentId i 0 (take batchSize (drop i chunks)))
         (fun _ =>
            Eff.bind (if (i + batchSize <? length chunks)%nat
                      then emit (Sleep 1000) else ret tt)
              (fun _ => batch_loop e model with_text documentId chunks (i + batchSize)))
  else ret tt.
Proof.
  rewrite batch_loop_equation_1.
  destruct (lt_dec i (length chunks)) as [Hlt | Hge]; simpl.
  - apply Nat.ltb_lt in Hlt. now rewrite Hlt.
  - apply Nat.ltb_nlt in Hge. now rewrite Hge.
Qed.

Lemma batch_post_renumber documentId k k' evs :
  batch_post documentId k [] evs -> batch_post documentId k' [] evs.
Proof.
  intros (Hs & Hi & Hr & _ & _). inversion Hr as [k0 Hk Hnil Hrows | |]; subst.
  apply batch_post_nil; auto.
Qed.

(** The whole loop, started at chunk [i], handles the chunks from [i]
    on and always runs to its end. *)
Lemma batch_loop_spec documentId chunks n :
  forall i w,
    (length chunks - i <= n)%nat ->
    exists evs,
      batch_loop e model with_text documentId chunks i w = (after w evs, Returned tt)
      /\ batch_post documentId i (drop i chunks) evs.
Proof.
  induction n as [| n IH]; intros i w Hfuel; rewrite batch_loop_unfold;
    destruct (Nat.ltb_spec i (length chunks)) as [Hlt | Hge]; try lia.
  1, 3: exists []; rewrite after_nil; split; [reflexivity |];
        rewrite drop_ge by lia; now apply batch_post_nil.
  destruct (run_batch_spec documentId i (take batchSize (drop i chunks)) 0%nat w)
    as (evs1 & Hrun1 & Hpost1).
  rewrite (bind_returned _ _ _ _ _ Hrun1).
  assert (exists pause,
            (if (i + batchSize <? length chunks)%nat then emit (Sleep 1000) else ret tt)
              (after w evs1) = (after (after w evs1) pause, Returned tt)
            /\ batch_post documentId 0 [] pause) as (pause & Hpause & Hquiet).
  { destruct (i + batchSize <? length chunks)%nat.
    - exists [Sleep 1000]. split; [reflexivity | now apply batch_post_nil].
    - exists []. rewrite after_nil. split; [reflexivity | now apply batch_post_nil]. }
  rewrite (bind_returned _ _ _ _ _ Hpause).
  destruct (IH (i + batchSize)%nat (after (after w evs1) pause)) as (evs2 & Hrun2 & Hpost2);
    [unfold batchSize; lia |].
  rewrite Hrun2, !after_after.
  exists (evs1 ++ pause ++ evs2). split; [reflexivity |].
  rewrite <- (take_drop batchSize (drop i chunks)).
  rewrite Nat.add_0_r in Hpost1.
  apply batch_post_app; [exact Hpost1 |].
  rewrite drop_drop.
  change (drop (i + batchSize) chunks) with ([] ++ drop (i + batchSize) chunks).
  apply batch_post_app; [eapply batch_post_renumber; exact Hquiet |].
  cbn [length]. rewrite Nat.add_0_r.
  destruct (Nat.le_gt_cases batchSize (length (drop i chunks))) as [Hfull | Hshort].
  - rewrite length_take, Nat.min_l by exact Hfull. exact Hpost2.
  - rewrite length_drop in Hshort. unfold batchSize in *.
    rewrite (drop_ge chunks (i + 5)) in Hpost2 |- * by lia.
    eapply batch_post_renumber; exact Hpost2.
Qed.

Section Ingest.
Variable extract : Blob -> option string -> M string.
Variable chunker : string -> list TextChunk.
Variable empty_message : string.

(** An extractor that leaves the request and the trace alone. *)
Definition pure_extractor : Prop :=
  forall fileData path w, fst (extract fileData path w) = w.

Definition blank (text : string) : bool :=
  ((JS.length text =? 0) || (JS.length (JS.trim text) =? 0))%Z.

(** A run of [ingest] whose download and extraction succeed with a text
    that is not blank: every chunk is handled, then the status is set to
    completed. *)
Lemma ingest_success documentId path fileData text w :
  storage_download e path = inl fileData ->
  extract fileData path (after w [UpdateStatus documentId processing; Download path])
  = (after w [UpdateStatus documentId processing; Download path], Returned text) ->
  blank text = false ->
  exists evs,
    ingest e extract chunker model with_text empty_message documentId path w
    = (after w ([UpdateStatus documentId processing; Download path]
                ++ evs ++ [UpdateStatus documentId completed]),
       Returned (Success (length (chunker text))))
    /\ batch_post documentId 0 (chunker text) evs.
Proof.
  intros Hdl Hext Hblank.
  destruct (batch_loop_spec documentId (chunker text) (length (chunker text)) 0%nat
              (after w [UpdateStatus documentId processing; Download path]))
    as (evs & Hloop & Hpost); [lia |].
  exists evs. split; [| exact Hpost].
  unfold ingest, update_status, download.
  rewrite (bind_returned _ _ _ _ _ (emit_after _ w)).
  rewrite (bind_returned (Eff.bind (emit (Download path)) _) _ (after w [_])
             (after w [UpdateStatus documentId processing; Download path])
             (storage_download e path)).
  2: { unfold Eff.bind, emit, ret, after; cbn. now rewrite <- app_assoc. }
  rewrite Hdl. rewrite (bind_returned _ _ _ _ _ Hext).
  fold (blank text). rewrite Hblank.
  rewrite (bind_returned _ _ _ _ _ Hloop).
  unfold Eff.bind, emit, ret, after; cbn. now rewrite <- !app_assoc.
Qed.

(** What a run of [ingest] has done, by its outcome: a run that throws
    has only set the status to processing and asked for the file; a run
    that returns has handled every chunk of the extracted text and set
    the status to completed. *)
Definition ingest_post (documentId path : option string) (evs : list effect)
    (r : outcome response) : Prop :=
  match r with
  | Thrown _ => evs = [UpdateStatus documentId processing; Download path]
  | Returned resp =>
      exists text batch,
        resp = Success (length (chunker text))
        /\ evs = [UpdateStatus documentId processing; Download path]
                 ++ batch ++ [UpdateStatus documentId completed]
        /\ batch_post documentId 0 (chunker text) batch
  end.

Lemma ingest_outcome documentId path w :
  pure_extractor ->
  exists evs r,
    ingest e extract chunker model with_text empty_message documentId path w
    = (after w evs, r)
    /\ ingest_post documentId path evs r.
Proof.
  intros Hpure.
  set (w2 := after w [UpdateStatus documentId processing; Download path]).
  assert (Hprefix : forall (k : Blob + string -> M response),
             Eff.bind (update_status documentId processing)
               (fun _ => Eff.bind (download e path) k) w
             = k (storage_download e path) w2).
  { intros k. unfold update_status, download, Eff.bind, emit, ret, w2, after; cbn.
    now rewrite <- app_assoc. }
  destruct (storage_download e path) as [fileData | message] eqn:Hdl.
  - pose proof (Hpure fileData path w2) as Hsame.
    destruct (extract fileData path w2) as [w3 [text | message]] eqn:Hext;
      cbn [fst] in Hsame; subst w3.
    + destruct (blank text) eqn:Hblank.
      * exists [UpdateStatus documentId processing; Download path], (Thrown empty_message).
        split; [| reflexivity].
        unfold ingest. rewrite Hprefix. rewrite (bind_returned _ _ _ _ _ Hext).
        fold (blank text). now rewrite Hblank.
      * destruct (ingest_success documentId path fileData text w Hdl Hext Hblank)
          as (evs & Hrun & Hpost).
        eexists _, _. split; [exact Hrun |].
        exists text, evs. auto.
    + exists [UpdateStatus documentId processing; Download path], (Thrown message).
      split; [| reflexivity].
      unfold ingest. rewrite Hprefix. now rewrite (bind_thrown _ _ _ _ _ Hext).
  - exists [UpdateStatus documentId processing; Download path],
      (Thrown ("Failed to download file: " ++ message)%string).
    split; [| reflexivity].
    unfold ingest. now rewrite Hprefix.
Qed.

(** What any run of [ingest] writes to the status column. *)
Lemma ingest_status documentId path evs r :
  ingest_post documentId path evs r ->
  forall id,
    status_updates id evs
    = status_updates id
        (UpdateStatus documentId processing
         :: match r with
            | Returned _ => [UpdateStatus documentId completed]
            | Thrown _ => []
            end).
Proof.
  intros Hpost id. destruct r as [resp | message]; unfold ingest_post in Hpost.
  - destruct Hpost as (text & batch & _ & -> & Hs & _).
    rewrite !status_updates_app, Hs. cbn.
    destruct documentId as [d |]; cbn; [destruct (decide (d = id)) |]; reflexivity.
  - now subst evs.
Qed.

End Ingest.

End Batches.

Lemma length_zero_iff (s : string) : JS.length s = 0%Z <-> s = EmptyString.
Proof.
  unfold JS.length. destruct s; simpl; split; intros H; try reflexivity; discriminate.
Qed.

Lemma blank_false text : JS.trim text <> EmptyString -> blank text = false.
Proof.
  intros Htrim. unfold blank. apply orb_false_iff. split; apply Z.eqb_neq.
  - intros H. apply length_zero_iff in H. subst text. now apply Htrim.
  - intros H. now apply length_zero_iff in H.
Qed.

(** The extractor of part_000 reads the blob and nothing else. *)
Lemma extractTextFromFile_reads fileData path w :
  exists r,
    extractTextFromFile fileData path w = (w, r)
    /\ forall t, blob_text fileData = Returned t -> path <> None -> r = Returned t.
Proof.
  unfold extractTextFromFile, text, try_catch, throw.
  destruct path as [p |].
  - destruct (JS.endsWith (JS.toLowerCase p) ".txt" || JS.endsWith (JS.toLowerCase p) ".md");
      [| destruct (JS.endsWith (JS.toLowerCase p) ".pdf")].
    1, 2: eexists; split; [reflexivity | now intros t Ht _].
    destruct (blob_text fileData) as [t | msg]; eexists; split; try reflexivity.
    + now intros t' Ht _.
    + intros t Ht. discriminate.
  - eexists; split; [reflexivity |]. intros t _ Hpath. now destruct Hpath.
Qed.

Lemma extractTextFromFile_pure : pure_extractor extractTextFromFile.
Proof.
  intros fileData path w.
  destruct (extractTextFromFile_reads fileData path w) as (r & Hrun & _).
  now rewrite Hrun.
Qed.

Lemma req_json_first {B} (json_body : option B) :
  exists r, req_json json_body initial = (mkWorld true [], r)
            /\ r = match json_body with
                   | Some b => Returned b
                   | None => Thrown "Unexpected end of JSON input"
                   end.
Proof. destruct json_body; eexists; split; reflexivity. Qed.

(** Once the body has been read, the handler of part_000 cannot read
    the document id again and writes no status. *)
Lemma on_error_reread_silent e message w :
  bodyUsed w = true ->
  on_error_reread e message w
  = (after w [ConsoleError "Error processing document:"], Returned (Failure message)).
Proof.
  intros Hused. unfold on_error_reread, console_error.
  rewrite (bind_returned _ _ _ _ _ (emit_after _ w)).
  unfold Eff.bind, try_catch, req_json. cbn [after bodyUsed]. rewrite Hused. reflexivity.
Qed.

Lemma on_error_outer_marks documentId message w :
  on_error_outer documentId message w
  = (after w (ConsoleError "Error processing document:"
              :: if truthy documentId then [UpdateStatus documentId failed] else []),
     Returned (Failure message)).
Proof.
  unfold on_error_outer, console_error, update_status, Eff.bind, try_catch, emit, ret, after.
  destruct (truthy documentId); cbn; rewrite <- ?app_assoc; reflexivity.
Qed.

(** part_000 never writes the status failed, whatever the request and
    whatever goes wrong. *)
Lemma serve_part000_never_marks_failed (e : env) (id : string) :
  ~ In failed (status_updates id (trace (fst (serve_part000 e initial)))).
Proof.
  unfold serve_part000, serve_reread.
  destruct (String.eqb (req_method e) "OPTIONS"); [cbn; tauto |].
  unfold try_catch.
  destruct (req_json_first (req_body e)) as (r & Hread & Hr).
  destruct (req_body e) as [[documentId path] |]; subst r.
  - rewrite (bind_returned _ _ _ _ _ Hread). cbn [Pipeline.documentId Pipeline.filePath].
    destruct (ingest_outcome e "text-embedding-ada-002" true extractTextFromFile
                (fun text => chunkText text 1000 200)
                "No text content could be extracted from the file"
                documentId path (mkWorld true []) extractTextFromFile_pure)
      as (evs & r & Hrun & Hpost).
    pose proof (ingest_status _ _ _ _ _ _ Hpost) as Hstatus.
    rewrite Hrun. destruct r as [resp | message].
    + cbn [fst trace after]. rewrite status_updates_app, Hstatus. cbn.
      destruct documentId as [d |]; cbn; [destruct (decide (d = id)) |]; cbn;
        intuition discriminate.
    + rewrite on_error_reread_silent by reflexivity.
      cbn [fst trace after]. rewrite !status_updates_app, Hstatus. cbn.
      destruct documentId as [d |]; cbn; [destruct (decide (d = id)) |]; cbn;
        intuition discriminate.
  - rewrite (bind_thrown _ _ _ _ _ Hread).
    rewrite on_error_reread_silent by reflexivity. cbn. tauto.
Qed.

(** The handler of part_001 does write it: when the body carried a
    document id and the run failed after the body was read, the statuses
    written are processing, then failed. *)
Lemma serve_outer_marks_failed (e : env) extract chunker model with_text empty_message
    (id : string) path details :
  pure_extractor extract ->
  req_method e <> "OPTIONS"%string ->
  req_body e = Some (mkBody (Some id) path) ->
  id <> EmptyString ->
  snd (serve_outer e extract chunker model with_text empty_message initial)
  = Returned (Failure details) ->
  status_updates id
    (trace (fst (serve_outer e extract chunker model with_text empty_message initial)))
  = [processing; failed].
Proof.
  intros Hpure Hmethod Hbody Hid.
  unfold serve_outer. apply String.eqb_neq in Hmethod. rewrite Hmethod, Hbody.
  cbn [req_json initial bodyUsed trace Pipeline.documentId Pipeline.filePath].
  unfold try_catch.
  destruct (ingest_outcome e model with_text extract chunker empty_message
              (Some id) path (mkWorld true []) Hpure) as (evs & r & Hrun & Hpost).
  pose proof (ingest_status _ _ _ _ _ _ Hpost) as Hstatus.
  rewrite Hrun. destruct r as [resp | message].
  - destruct Hpost as (text & batch & -> & _). discriminate.
  - rewrite on_error_outer_marks. intros _.
    cbn [fst trace after]. rewrite app_nil_l, status_updates_app, Hstatus.
    destruct id as [| c id']; [now destruct Hid |].
    cbn. destruct (decide (String c id' = String c id')); [reflexivity | congruence].
Qed.

Lemma apply_calls_lookup (id : string) calls :
  forall documents : gmap string upload_status,
    apply_calls documents calls !! id
    = match last (status_updates id calls) with
      | Some status => (fun _ => status) <$> documents !! id
      | None => documents !! id
      end.
Proof.
  induction calls as [| c calls IH]; intros documents; [reflexivity |].
  unfold apply_calls in *. cbn [foldl]. rewrite IH.
  change (c :: calls) with ([c] ++ calls). rewrite status_updates_app.
  destruct c as [[id' |] status | | | | | | |]; cbn [status_updates omap apply_call];
    try reflexivity.
  cbn. destruct (decide (id' = id)) as [-> | Hne]; cbn.
  - rewrite lookup_alter_eq, last_cons.
    destruct (last (status_updates id calls)); now destruct (documents !! id).
  - now rewrite lookup_alter_ne.
Qed.


(** ** Sample requests *)

(** A two-character text file; the embedding service refuses the first
    chunk and accepts the others. *)
Definition env_first_chunk_refused : env :=
  mkEnv "POST" (Some (mkBody (Some "doc-1") (Some "user/notes.txt")))
    (fun _ => inl (mkBlob (Returned "ab") 2))
    (fun _ _ input => if String.eqb input "ab"
                      then ReplyNotOk 429 "rate limited" else ReplyOk [])
    (fun _ _ => None).

(** The same file with an embedding service that refuses everything. *)
Definition env_embedding_refused : env :=
  mkEnv "POST" (Some (mkBody (Some "doc-1") (Some "user/notes.txt")))
    (fun _ => inl (mkBlob (Returned "ab") 2))
    (fun _ _ _ => ReplyNotOk 429 "rate limited")
    (fun _ _ => None).

(** An empty text file. *)
Definition env_empty_file : env :=
  mkEnv "POST" (Some (mkBody (Some "doc-1") (Some "user/empty.txt")))
    (fun _ => inl (mkBlob (Returned "") 0))
    (fun _ _ _ => ReplyOk [])
    (fun _ _ => None).

(** ** Reading the attempts of a run *)

(** The reply of the embedding service to each request among [calls],
    in the order of the requests. The service answers a request from
    the calls made before it; [before] are the calls made before
    [calls]. *)
Fixpoint embedding_replies (e : env) (before calls : list effect)
    : list embedding_reply :=
  match calls with
  | [] => []
  | c :: rest =>
      match c with
      | EmbeddingRequest model input => [embedding_service e before model input]
      | _ => []
      end ++ embedding_replies e (before ++ [c]) rest
  end.

(** The rows sent to the database, each with what became of it. *)
Definition inserts (calls : list effect) : list (chunk_row * bool) :=
  omap (fun c => match c with
                 | InsertChunk row stored => Some (row, stored)
                 | _ => None
                 end) calls.

(** Every insert among [calls] is marked as stored exactly when the
    database, asked after the calls made before it, reports no error. *)
Fixpoint answers_recorded (e : env) (before calls : list effect) : Prop :=
  match calls with
  | [] => True
  | c :: rest =>
      match c with
      | InsertChunk row stored =>
          stored = bool_decide (insert_error e before row = None)
      | _ => True
      end
      /\ answers_recorded e (before ++ [c]) rest
  end.

(** The two messages a task logs, for the chunk at position [k]. *)
Definition process_message (k : nat) : string :=
  ("Failed to process chunk " ++ JS.of_nat k ++ ":")%string.

Definition insert_message (k : nat) : string :=
  ("Failed to insert chunk " ++ JS.of_nat k ++ ":")%string.

Definition accepted (reply : embedding_reply) : Prop := exists v, reply = ReplyOk v.

Lemma embedding_replies_app e before l1 l2 :
  embedding_replies e before (l1 ++ l2)
  = embedding_replies e before l1 ++ embedding_replies e (before ++ l1) l2.
Proof.
  revert before. induction l1 as [| c l1 IH]; intros before.
  - cbn. now rewrite app_nil_r.
  - cbn [app embedding_replies]. rewrite IH, <- !app_assoc. reflexivity.
Qed.

Lemma answers_recorded_app e before l1 l2 :
  answers_recorded e before (l1 ++ l2)
  <-> answers_recorded e before l1 /\ answers_recorded e (before ++ l1) l2.
Proof.
  revert before. induction l1 as [| c l1 IH]; intros before.
  - cbn. rewrite app_nil_r. tauto.
  - cbn [app answers_recorded]. rewrite IH, <- !app_assoc. cbn. tauto.
Qed.

Lemma inserts_app l1 l2 : inserts (l1 ++ l2) = inserts l1 ++ inserts l2.
Proof. apply omap_app. Qed.

Lemma stored_rows_inserts calls :
  stored_rows calls = map fst (List.filter snd (inserts calls)).
Proof.
  unfold stored_rows, inserts.
  induction calls as [| c calls IH]; [reflexivity |].
  destruct c as [| | | row [] | | | |]; cbn in *; rewrite ?IH; reflexivity.
Qed.

Section Attempts.
Variable e : env.
Variable model : string.
Variable with_text : bool.
Variable documentId : option string.

(** What becomes of one task. *)
Inductive fate := Stored (v : vector) | Refused (v : vector) | NotEmbedded.

(** The calls of the task of chunk [k], by its fate. *)
Definition task_events (k : nat) (chunk : TextChunk) (f : fate) : list effect :=
  EmbeddingRequest model (content chunk)
  :: match f with
     | Stored v => [InsertChunk (row_for documentId k chunk v) true]
     | Refused v => [InsertChunk (row_for documentId k chunk v) false;
                     ConsoleError (insert_message k)]
     | NotEmbedded => [ConsoleError (process_message k)]
     end.

(** The fate the two services give the task of chunk [k] when it starts
    after the calls [before]. *)
Definition fate_after (k : nat) (chunk : TextChunk) (before : list effect) : fate :=
  match embedding_service e before model (content chunk) with
  | ReplyOk v =>
      match insert_error e (before ++ [EmbeddingRequest model (content chunk)])
                         (row_for documentId k chunk v) with
      | None => Stored v
      | Some _ => Refused v
      end
  | _ => NotEmbedded
  end.

Lemma process_chunk_events i index chunk w :
  process_chunk e model with_text documentId i index chunk w
  = (after w (task_events (i + index) chunk
                (fate_after (i + index) chunk (trace w))),
     Returned tt).
Proof.
  unfold process_chunk, try_catch, Eff.bind, embed, Embedder.fetch_embedding,
    insert_chunk, history, console_error, throw, ret, Eff.bind, fate_after, task_events.
  cbn [emit bodyUsed trace]. fold (row_for documentId (i + index) chunk).
  destruct (embedding_service e (trace w) model (content chunk)) as [v | st txt | msg].
  - cbn [emit bodyUsed trace]. fold (row_for documentId (i + index) chunk v).
    destruct (insert_error e (trace w ++ [EmbeddingRequest model (content chunk)])
                (row_for documentId (i + index) chunk v)) as [err |];
      unfold after, emit; cbn; rewrite <- !app_assoc; reflexivity.
  - unfold after, emit; cbn. rewrite <- !app_assoc. reflexivity.
  - unfold after, emit; cbn. rewrite <- !app_assoc. reflexivity.
Qed.

(** [accounted k chunks fates before calls]: [calls] are the calls of
    the tasks of [chunks], numbered from [k] and started after
    [before], with the pauses between them; [fates] tells what became
    of each task. *)
Inductive accounted
    : nat -> list TextChunk -> list fate -> list effect -> list effect -> Prop :=
| accounted_nil k before : accounted k [] [] before []
| accounted_task k chunk chunks fates before calls :
    accounted (S k) chunks fates
      (before ++ task_events k chunk (fate_after k chunk before)) calls ->
    accounted k (chunk :: chunks) (fate_after k chunk before :: fates) before
      (task_events k chunk (fate_after k chunk before) ++ calls)
| accounted_pause k chunks fates before calls :
    accounted k chunks fates (before ++ [Sleep 1000]) calls ->
    accounted k chunks fates before (Sleep 1000 :: calls).

Lemma accounted_app k cs1 fates1 before calls1 :
  accounted k cs1 fates1 before calls1 ->
  forall cs2 fates2 calls2,
    accounted (k + length cs1) cs2 fates2 (before ++ calls1) calls2 ->
    accounted k (cs1 ++ cs2) (fates1 ++ fates2) before (calls1 ++ calls2).
Proof.
  induction 1 as [k before | k chunk chunks fates before calls _ IH
                  | k chunks fates before calls _ IH]; intros cs2 fates2 calls2 Hrest.
  - cbn in *. now rewrite Nat.add_0_r, app_nil_r in Hrest.
  - cbn [app length] in *. rewrite <- app_assoc. constructor. apply IH.
    now rewrite Nat.add_succ_r, app_assoc in Hrest.
  - cbn [app]. apply accounted_pause. apply IH.
    change (Sleep 1000 :: calls) with ([Sleep 1000] ++ calls) in Hrest.
    now rewrite app_assoc in Hrest.
Qed.

Lemma run_batch_account i batch :
  forall index w,
  exists fates calls,
    run_batch e model with_text documentId i index batch w = (after w calls, Returned tt)
    /\ accounted (i + index) batch fates (trace w) calls.
Proof.
  induction batch as [| chunk rest IH]; intros index w.
  - exists [], []. rewrite after_nil. split; [reflexivity | constructor].
  - cbn [run_batch].
    rewrite (bind_returned _ _ _ _ _ (process_chunk_events i index chunk w)).
    destruct (IH (S index) (after w (task_events (i + index) chunk
                                       (fate_after (i + index) chunk (trace w)))))
      as (fates & calls & Hrun & Hcalls).
    rewrite Hrun, after_after.
    exists (fate_after (i + index) chunk (trace w) :: fates). eexists.
    split; [reflexivity |].
    apply accounted_task. cbn [after trace] in Hcalls.
    now replace (S (i + index)) with (i + S index)%nat by lia.
Qed.

Lemma batch_loop_account chunks n :
  forall i w,
    (length chunks - i <= n)%nat ->
    exists fates calls,
      batch_loop e model with_text documentId chunks i w = (after w calls, Returned tt)
      /\ accounted i (drop i chunks) fates (trace w) calls.
Proof.
  induction n as [| n IH]; intros i w Hfuel;
    rewrite (batch_loop_unfold e model with_text documentId chunks i);
    destruct (Nat.ltb_spec i (length chunks)) as [Hlt | Hge]; try lia.
  1, 3: exists [], []; rewrite after_nil; split; [reflexivity |];
        rewrite drop_ge by lia; constructor.
  destruct (run_batch_account i (take batchSize (drop i chunks)) 0%nat w)
    as (fates1 & calls1 & Hrun1 & Hcalls1).
  rewrite (bind_returned _ _ _ _ _ Hrun1).
  rewrite Nat.add_0_r in Hcalls1.
  rewrite <- (take_drop batchSize (drop i chunks)).
  rewrite drop_drop.
  assert (i + length (take batchSize (drop i chunks)) = i + batchSize
          \/ drop (i + batchSize) chunks = [])%nat as Hnext.
  { destruct (Nat.le_gt_cases batchSize (length (drop i chunks))) as [Hfull | Hshort].
    - left. now rewrite length_take, Nat.min_l.
    - right. rewrite length_drop in Hshort. apply drop_ge. lia. }
  destruct (Nat.ltb_spec (i + batchSize) (length chunks)) as [Hmore | Hlast].
  - rewrite (bind_returned _ _ _ _ _ (emit_after _ _)).
    destruct (IH (i + batchSize)%nat (after (after w calls1) [Sleep 1000]))
      as (fates2 & calls2 & Hrun2 & Hcalls2); [unfold batchSize; lia |].
    rewrite Hrun2, !after_after. exists (fates1 ++ fates2), (calls1 ++ [Sleep 1000] ++ calls2).
    split; [reflexivity |].
    apply (accounted_app _ _ _ _ _ Hcalls1).
    cbn [app]. apply accounted_pause. cbn [after trace] in Hcalls2.
    destruct Hnext as [-> | Hnone]; [exact Hcalls2 |].
    rewrite Hnone in Hcalls2 |- *.
    clear - Hcalls2. remember [] as none eqn:Hnil in Hcalls2 at 1.
    induction Hcalls2; subst; try discriminate; constructor; auto.
  - unfold Eff.bind at 1, ret.
    destruct (IH (i + batchSize)%nat (after w calls1))
      as (fates2 & calls2 & Hrun2 & Hcalls2); [unfold batchSize; lia |].
    rewrite Hrun2, !after_after. exists (fates1 ++ fates2), (calls1 ++ calls2).
    split; [reflexivity |].
    apply (accounted_app _ _ _ _ _ Hcalls1). cbn [after trace] in Hcalls2.
    destruct Hnext as [-> | Hnone]; [exact Hcalls2 |].
    rewrite Hnone in Hcalls2 |- *.
    clear - Hcalls2. remember [] as none eqn:Hnil in Hcalls2 at 1.
    induction Hcalls2; subst; try discriminate; constructor; auto.
Qed.

(** A fate agrees with the reply of the embedding service. *)
Definition reply_fate (reply : embedding_reply) (f : fate) : Prop :=
  match f with
  | Stored v | Refused v => reply = ReplyOk v
  | NotEmbedded => ~ accepted reply
  end.

Lemma fate_after_reply k chunk before :
  reply_fate (embedding_service e before model (content chunk))
             (fate_after k chunk before).
Proof.
  unfold fate_after.
  destruct (embedding_service e before model (content chunk)) as [v | st txt | msg].
  - now destruct (insert_error e _ _).
  - intros [v Hv]. discriminate.
  - intros [v Hv]. discriminate.
Qed.

Lemma task_replies k chunk f before :
  embedding_replies e before (task_events k chunk f)
  = [embedding_service e before model (content chunk)].
Proof. destruct f; reflexivity. Qed.

Lemma accounted_replies k chunks fates before calls :
  accounted k chunks fates before calls ->
  Forall2 reply_fate (embedding_replies e before calls) fates.
Proof.
  induction 1 as [k before | k chunk chunks fates before calls _ IH
                  | k chunks fates before calls _ IH].
  - constructor.
  - rewrite embedding_replies_app, task_replies. cbn [app].
    constructor; [apply fate_after_reply | exact IH].
  - exact IH.
Qed.

Lemma accounted_length k chunks fates before calls :
  accounted k chunks fates before calls -> length fates = length chunks.
Proof. induction 1; cbn; congruence. Qed.

Lemma accounted_inputs k chunks fates before calls :
  accounted k chunks fates before calls ->
  embedding_inputs calls = map content chunks.
Proof.
  induction 1 as [k before | k chunk chunks fates before calls _ IH
                  | k chunks fates before calls _ IH].
  - reflexivity.
  - rewrite embedding_inputs_app, IH. now destruct (fate_after k chunk before).
  - exact IH.
Qed.

Lemma accounted_status k chunks fates before calls :
  accounted k chunks fates before calls ->
  forall id, status_updates id calls = [].
Proof.
  induction 1 as [k before | k chunk chunks fates before calls _ IH
                  | k chunks fates before calls _ IH]; intros id.
  - reflexivity.
  - rewrite status_updates_app, IH. now destruct (fate_after k chunk before).
  - apply IH.
Qed.

Lemma accounted_answers k chunks fates before calls :
  accounted k chunks fates before calls -> answers_recorded e before calls.
Proof.
  induction 1 as [k before | k chunk chunks fates before calls _ IH
                  | k chunks fates before calls _ IH].
  - exact I.
  - apply answers_recorded_app. split; [| exact IH].
    unfold fate_after.
    destruct (embedding_service e before model (content chunk)) as [v | st txt | msg];
      [| now cbn | now cbn].
    destruct (insert_error e (before ++ [EmbeddingRequest model (content chunk)])
                (row_for documentId k chunk v)) as [err |] eqn:Hins;
      cbn; rewrite Hins; repeat split.
  - split; [exact I | exact IH].
Qed.

(** The inserts of one task, and of all. *)
Definition sent_by (k : nat) (chunk : TextChunk) (f : fate) : list (chunk_row * bool) :=
  match f with
  | Stored v => [(row_for documentId k chunk v, true)]
  | Refused v => [(row_for documentId k chunk v, false)]
  | NotEmbedded => []
  end.

Fixpoint sent (k : nat) (chunks : list TextChunk) (fates : list fate)
    : list (chunk_row * bool) :=
  match chunks, fates with
  | chunk :: chunks', f :: fates' => sent_by k chunk f ++ sent (S k) chunks' fates'
  | _, _ => []
  end.

Lemma accounted_inserts k chunks fates before calls :
  accounted k chunks fates before calls -> inserts calls = sent k chunks fates.
Proof.
  induction 1 as [k before | k chunk chunks fates before calls _ IH
                  | k chunks fates before calls _ IH].
  - reflexivity.
  - rewrite inserts_app, IH. cbn [sent]. now destruct (fate_after k chunk before).
  - exact IH.
Qed.

(** What a task that stores nothing logs. *)
Definition logged (k : nat) (f : fate) (calls : list effect) : Prop :=
  match f with
  | Stored _ => True
  | Refused _ => In (ConsoleError (insert_message k)) calls
  | NotEmbedded => In (ConsoleError (process_message k)) calls
  end.

Lemma accounted_logs k chunks fates before calls :
  accounted k chunks fates before calls ->
  forall j f, fates !! j = Some f -> logged (k + j) f calls.
Proof.
  induction 1 as [k before | k chunk chunks fates before calls _ IH
                  | k chunks fates before calls _ IH]; intros j f Hf.
  - discriminate.
  - destruct j as [| j]; cbn in Hf.
    + injection Hf as <-. rewrite Nat.add_0_r.
      destruct (fate_after k chunk before); cbn; auto.
    + specialize (IH j f Hf). rewrite Nat.add_succ_r.
      destruct f; cbn [logged] in *; auto; apply in_app_iff; now right.
  - specialize (IH j f Hf). destruct f; cbn in *; auto.
Qed.

Definition sent_index (x : chunk_row * bool) : nat := chunk_index (fst x).

Lemma sent_lookup chunks :
  forall k fates row stored,
    In (row, stored) (sent k chunks fates) ->
    exists j chunk v,
      chunks !! j = Some chunk
      /\ row = row_for documentId (k + j) chunk v
      /\ fates !! j = Some (if stored then Stored v else Refused v).
Proof.
  induction chunks as [| chunk chunks IH]; intros k [| f fates] row stored Hin;
    try now destruct Hin.
  cbn [sent] in Hin. apply in_app_iff in Hin as [Hin | Hin].
  - exists 0%nat, chunk. rewrite Nat.add_0_r.
    destruct f as [v | v |]; cbn in Hin; try now destruct Hin.
    + destruct Hin as [[= <- <-] | []]. now exists v.
    + destruct Hin as [[= <- <-] | []]. now exists v.
  - destruct (IH _ _ _ _ Hin) as (j & c & v & Hc & Hrow & Hf).
    exists (S j), c, v. now rewrite Nat.add_succ_r.
Qed.

Lemma sent_sublist chunks :
  forall k fates, sublist (map sent_index (sent k chunks fates)) (seq k (length chunks)).
Proof.
  induction chunks as [| chunk chunks IH]; intros k [| f fates]; cbn [sent length seq].
  - constructor.
  - constructor.
  - apply sublist_nil_l.
  - rewrite map_app. specialize (IH (S k) fates).
    destruct f; cbn; [now apply sublist_skip | now apply sublist_skip | now apply sublist_cons].
Qed.

Lemma sent_embedded chunks :
  forall k fates j chunk f,
    chunks !! j = Some chunk -> fates !! j = Some f -> f <> NotEmbedded ->
    In (k + j)%nat (map sent_index (sent k chunks fates)).
Proof.
  induction chunks as [| c chunks IH]; intros k [| f0 fates] j chunk f Hc Hf Hsome;
    try discriminate.
  cbn [sent]. rewrite map_app. apply in_app_iff.
  destruct j as [| j]; cbn in Hc, Hf.
  - injection Hf as ->. left. rewrite Nat.add_0_r.
    destruct f; cbn; auto.
  - right. rewrite Nat.add_succ_r. now apply (IH (S k) fates j chunk f).
Qed.

Definition is_stored (f : fate) : Prop := exists v, f = Stored v.

Lemma sent_stored_length chunks :
  forall k fates,
    (length (List.filter snd (sent k chunks fates)) <= length chunks)%nat.
Proof.
  induction chunks as [| chunk chunks IH]; intros k [| f fates]; cbn [sent length];
    try (cbn; lia).
  rewrite List.filter_app, length_app. specialize (IH (S k) fates).
  destruct f; cbn; lia.
Qed.

Lemma sent_all_stored chunks :
  forall k fates,
    length fates = length chunks ->
    length (List.filter snd (sent k chunks fates)) = length chunks ->
    Forall is_stored fates.
Proof.
  induction chunks as [| chunk chunks IH]; intros k [| f fates] Hlen Hall;
    try discriminate; [constructor |].
  cbn [sent length] in *. rewrite List.filter_app, length_app in Hall.
  pose proof (sent_stored_length chunks (S k) fates) as Hmost.
  destruct f as [v | v |]; cbn in Hall; try lia.
  constructor; [now exists v |]. apply (IH (S k)); lia.
Qed.

Lemma sent_dense chunks :
  forall k fates,
    length fates = length chunks ->
    Forall is_stored fates ->
    map sent_index (List.filter snd (sent k chunks fates)) = seq k (length chunks)
    /\ Forall (fun x => snd x = true) (sent k chunks fates).
Proof.
  induction chunks as [| chunk chunks IH]; intros k [| f fates] Hlen Hall;
    try discriminate; [split; constructor |].
  inversion Hall as [| ? ? [v ->] Hrest]; subst.
  cbn [sent length seq] in *.
  destruct (IH (S k) fates) as [Hseq Hflags]; [lia | exact Hrest |].
  split.
  - cbn. now rewrite Hseq.
  - cbn. constructor; [reflexivity | exact Hflags].
Qed.

End Attempts.

Lemma sent_refused documentId chunks :
  forall k fates j chunk v,
    chunks !! j = Some chunk -> fates !! j = Some (Refused v) ->
    In (row_for documentId (k + j) chunk v, false) (sent documentId k chunks fates).
Proof.
  induction chunks as [| c chunks IH]; intros k [| f0 fates] j chunk v Hc Hf;
    try discriminate.
  cbn [sent]. apply in_app_iff.
  destruct j as [| j]; cbn in Hc, Hf.
  - injection Hf as ->. injection Hc as ->. left. rewrite Nat.add_0_r. now left.
  - right. rewrite Nat.add_succ_r. now apply (IH (S k) fates j chunk v).
Qed.

Lemma NoDup_map_In {A B : Type} (f : A -> B) (l : list A) (x y : A) :
  NoDup (map f l) -> In x l -> In y l -> f x = f y -> x = y.
Proof.
  induction l as [| a l IH]; intros Hnodup Hx Hy Hf; [destruct Hx |].
  cbn in Hnodup. apply NoDup_cons in Hnodup as [Hfresh Hnodup].
  rewrite list_elem_of_In in Hfresh.
  destruct Hx as [-> | Hx], Hy as [-> | Hy]; auto.
  - destruct Hfresh. rewrite Hf. now apply in_map.
  - destruct Hfresh. rewrite <- Hf. now apply in_map.
Qed.

Lemma stored_rows_In (calls : list effect) (row : chunk_row) :
  In row (stored_rows calls) <-> In (row, true) (inserts calls).
Proof.
  rewrite stored_rows_inserts, in_map_iff. split.
  - intros ([row' stored] & <- & Hin). apply filter_In in Hin as [Hin Hstored].
    cbn in Hstored |- *. now rewrite Hstored in Hin.
  - intros Hin. exists (row, true). split; [reflexivity |].
    apply filter_In. now split.
Qed.

(** The rows follow the chunk list. [attempts] are the calls of a batch
    loop over [chunks] that starts after the calls [before]. One
    embedding is requested for every chunk, in the order of the chunks,
    so that the reply at position [j] is the reply for chunk [j]; the
    inserts carry the answer of the database. Every row sent to the
    database is the row of a chunk whose embedding succeeded: it
    carries as [chunk_index] the position of that chunk, with its
    content, its offsets and the embedding returned for it; no position
    is sent twice, and every chunk whose embedding succeeded is sent.
    So a position is among the stored indices exactly when the
    embedding of its chunk succeeded and the database accepted its
    row; the position of a row the database refuses is not among
    them; and the stored indices are all of 0 .. n-1 exactly when
    every embedding and every insertion of the run succeeds. *)
Definition rows_follow_chunks (e : env) (documentId : option string)
    (chunks : list TextChunk) (before attempts : list effect) : Prop :=
  let replies := embedding_replies e before attempts in
  embedding_inputs attempts = map content chunks
  /\ answers_recorded e before attempts
  /\ (forall row stored,
         In (row, stored) (inserts attempts) ->
         exists chunk v,
           chunks !! chunk_index row = Some chunk
           /\ replies !! chunk_index row = Some (ReplyOk v)
           /\ row = row_for documentId (chunk_index row) chunk v)
  /\ NoDup (map sent_index (inserts attempts))
  /\ (forall j v,
         replies !! j = Some (ReplyOk v) -> In j (map sent_index (inserts attempts)))
  /\ (forall j,
         In j (map chunk_index (stored_rows attempts)) <->
         exists chunk v,
           chunks !! j = Some chunk
           /\ replies !! j = Some (ReplyOk v)
           /\ In (row_for documentId j chunk v, true) (inserts attempts))
  /\ (forall row,
         In (row, false) (inserts attempts) ->
         ~ In (chunk_index row) (map chunk_index (stored_rows attempts)))
  /\ (Permutation (map chunk_index (stored_rows attempts)) (seq 0 (length chunks))
      <-> Forall accepted replies
          /\ Forall (fun x => snd x = true) (inserts attempts)).

(** What the failures of a run leave behind: a chunk whose embedding
    fails is logged under its position and nothing is sent to the
    database for it; an insert the database refuses is logged under
    the position of its row. *)
Definition failures_logged (e : env) (before attempts : list effect) : Prop :=
  (forall j reply,
      embedding_replies e before attempts !! j = Some reply ->
      ~ accepted reply ->
      In (ConsoleError (process_message j)) attempts
      /\ forall row stored, In (row, stored) (inserts attempts) -> chunk_index row <> j)
  /\ (forall row,
         In (row, false) (inserts attempts) ->
         In (ConsoleError (insert_message (chunk_index row))) attempts).

Lemma accounted_rows_follow e model documentId chunks fates before attempts :
  accounted e model documentId 0 chunks fates before attempts ->
  rows_follow_chunks e documentId chunks before attempts.
Proof.
  intros Hrun.
  pose proof (accounted_replies _ _ _ _ _ _ _ _ Hrun) as Hreplies.
  pose proof (accounted_length _ _ _ _ _ _ _ _ Hrun) as Hlength.
  pose proof (accounted_inserts _ _ _ _ _ _ _ _ Hrun) as Hsent.
  assert (Hrows : forall row stored,
             In (row, stored) (inserts attempts) ->
             exists chunk v,
               chunks !! chunk_index row = Some chunk
               /\ embedding_replies e before attempts !! chunk_index row
                  = Some (ReplyOk v)
               /\ row = row_for documentId (chunk_index row) chunk v).
  { intros row stored Hin. rewrite Hsent in Hin.
    destruct (sent_lookup _ _ _ _ _ _ Hin) as (j & chunk & v & Hchunk & -> & Hfate).
    cbn [Nat.add chunk_index row_for]. exists chunk, v. repeat split; [exact Hchunk |].
    destruct (Forall2_lookup_r _ _ _ _ _ Hreplies Hfate) as (reply & Hreply & Hagree).
    rewrite Hreply. f_equal. now destruct stored. }
  assert (Hnodup : NoDup (map sent_index (inserts attempts))).
  { rewrite Hsent. eapply sublist_NoDup; [apply NoDup_seq | apply sent_sublist]. }
  unfold rows_follow_chunks. cbv zeta.
  split; [| split; [| split; [| split; [| split; [| split; [| split; [| split]]]]]]].
  - apply (accounted_inputs _ _ _ _ _ _ _ _ Hrun).
  - apply (accounted_answers _ _ _ _ _ _ _ _ Hrun).
  - exact Hrows.
  - exact Hnodup.
  - intros j v Hreply.
    destruct (Forall2_lookup_l _ _ _ _ _ Hreplies Hreply) as (f & Hfate & Hagree).
    assert (is_Some (chunks !! j)) as [chunk Hchunk].
    { apply lookup_lt_is_Some. rewrite <- Hlength. now apply lookup_lt_Some in Hfate. }
    rewrite Hsent.
    apply (sent_embedded documentId chunks 0 fates j chunk f Hchunk Hfate).
    intros ->. apply Hagree. now exists v.
  - intros j. rewrite in_map_iff. split.
    + intros (row & <- & Hin). apply stored_rows_In in Hin.
      destruct (Hrows row true Hin) as (chunk & v & Hchunk & Hreply & Hrow).
      exists chunk, v. repeat split; [exact Hchunk | exact Hreply |].
      now rewrite <- Hrow.
    + intros (chunk & v & _ & _ & Hin). exists (row_for documentId j chunk v).
      split; [reflexivity | now apply stored_rows_In].
  - intros row Hin Hstored. apply in_map_iff in Hstored as (row' & Hindex & Hin').
    apply stored_rows_In in Hin'.
    pose proof (NoDup_map_In sent_index _ (row', true) (row, false)
                  Hnodup Hin' Hin Hindex) as Habsurd.
    discriminate.
  - intros Hdense. apply Permutation_length in Hdense.
    rewrite length_map, length_seq, stored_rows_inserts, length_map, Hsent in Hdense.
    pose proof (sent_all_stored documentId chunks 0 fates Hlength Hdense) as Hall.
    split.
    + eapply Forall2_Forall_l; [exact Hreplies |].
      eapply Forall_impl; [exact Hall |].
      intros f [v ->] reply Hagree. now exists v.
    + rewrite Hsent. now apply sent_dense.
  - intros [Hok Hflags].
    assert (Forall is_stored fates) as Hall.
    { apply Forall_lookup. intros j f Hfate.
      destruct (Forall2_lookup_r _ _ _ _ _ Hreplies Hfate) as (reply & Hreply & Hagree).
      assert (is_Some (chunks !! j)) as [chunk Hchunk].
      { apply lookup_lt_is_Some. rewrite <- Hlength. now apply lookup_lt_Some in Hfate. }
      destruct f as [v | v |].
      - now exists v.
      - pose proof (sent_refused documentId chunks 0 fates j chunk v Hchunk Hfate) as Hin.
        rewrite <- Hsent in Hin.
        rewrite Forall_forall in Hflags. apply list_elem_of_In, Hflags in Hin.
        discriminate.
      - destruct Hagree. rewrite Forall_lookup in Hok. now apply (Hok j). }
    destruct (sent_dense documentId chunks 0 fates Hlength Hall) as [Hseq _].
    rewrite stored_rows_inserts, map_map, Hsent.
    change (fun x : chunk_row * bool => chunk_index (fst x)) with sent_index.
    now rewrite Hseq.
Qed.

Lemma accounted_failures_logged e model documentId chunks fates before attempts :
  accounted e model documentId 0 chunks fates before attempts ->
  failures_logged e before attempts.
Proof.
  intros Hrun.
  pose proof (accounted_replies _ _ _ _ _ _ _ _ Hrun) as Hreplies.
  pose proof (accounted_inserts _ _ _ _ _ _ _ _ Hrun) as Hsent.
  destruct (accounted_rows_follow _ _ _ _ _ _ _ Hrun) as (_ & _ & Hrows & _).
  split.
  - intros j reply Hreply Hrefused.
    destruct (Forall2_lookup_l _ _ _ _ _ Hreplies Hreply) as (f & Hfate & Hagree).
    split.
    + pose proof (accounted_logs _ _ _ _ _ _ _ _ Hrun j f Hfate) as Hlog.
      destruct f as [v | v |]; cbn in Hagree;
        try (destruct Hrefused; now exists v).
      exact Hlog.
    + intros row stored Hin <-.
      destruct (Hrows row stored Hin) as (chunk & v & _ & Hok & _).
      rewrite Hok in Hreply. injection Hreply as <-. apply Hrefused. now exists v.
  - intros row Hin. rewrite Hsent in Hin.
    destruct (sent_lookup _ _ _ _ _ _ Hin) as (j & chunk & v & _ & -> & Hfate).
    apply (accounted_logs _ _ _ _ _ _ _ _ Hrun j _ Hfate).
Qed.

(** Calls that store a row for each of the two chunks of "ab" with an
    embedding service that refuses the first. *)
Definition both_rows_stored : list effect :=
  flat_map (fun '(j, chunk) =>
              [EmbeddingRequest "text-embedding-ada-002" (content chunk);
               InsertChunk (row_for (Some "doc-1"%string) j chunk []) true])
           (imap pair (chunkText "ab" 1000 200)).

(** The replies are read off the embedding service: calls that store a
    row for a chunk whose embedding was refused do not follow the
    chunks. *)
Example refused_chunk_has_no_row :
  ~ rows_follow_chunks env_first_chunk_refused (Some "doc-1"%string)
      (chunkText "ab" 1000 200) [] both_rows_stored.
Proof.
  intros (_ & _ & Hrows & _).
  assert (Hin : exists row, In (row, true) (inserts both_rows_stored)
                            /\ chunk_index row = 0%nat).
  { vm_compute. eexists. split; [left; reflexivity | reflexivity]. }
  destruct Hin as (row & Hin & Hindex).
  destruct (Hrows row true Hin) as (chunk & v & _ & Hreply & _).
  rewrite Hindex in Hreply. vm_compute in Hreply. discriminate.
Qed.

Lemma embedding_replies_down e before calls :
  embedding_down e ->
  Forall (fun reply => ~ accepted reply) (embedding_replies e before calls).
Proof.
  intros Hdown. revert before.
  induction calls as [| c calls IH]; intros before; [constructor |].
  cbn [embedding_replies]. apply Forall_app. split; [| apply IH].
  destruct c; constructor; [| constructor].
  intros [v Hv]. now apply Hdown in Hv.
Qed.

(** A run of [ingest] whose download and extraction succeed with a text
    that is not blank, call by call. *)
Lemma ingest_account e model with_text extract chunker empty_message
    documentId path fileData text w :
  storage_download e path = inl fileData ->
  extract fileData path (after w [UpdateStatus documentId processing; Download path])
  = (after w [UpdateStatus documentId processing; Download path], Returned text) ->
  blank text = false ->
  exists fates attempts,
    ingest e extract chunker model with_text empty_message documentId path w
    = (after w ([UpdateStatus documentId processing; Download path]
                ++ attempts ++ [UpdateStatus documentId completed]),
       Returned (Success (length (chunker text))))
    /\ accounted e model documentId 0 (chunker text) fates
         (trace w ++ [UpdateStatus documentId processing; Download path]) attempts.
Proof.
  intros Hdl Hext Hblank.
  destruct (batch_loop_account e model with_text documentId (chunker text)
              (length (chunker text)) 0%nat
              (after w [UpdateStatus documentId processing; Download path]))
    as (fates & attempts & Hloop & Hcalls); [lia |].
  rewrite drop_0 in Hcalls. exists fates, attempts. split; [| exact Hcalls].
  unfold ingest, update_status, download.
  rewrite (bind_returned _ _ _ _ _ (emit_after _ w)).
  rewrite (bind_returned (Eff.bind (emit (Download path)) _) _ (after w [_])
             (after w [UpdateStatus documentId processing; Download path])
             (storage_download e path)).
  2: { unfold Eff.bind, emit, ret, after; cbn. now rewrite <- app_assoc. }
  rewrite Hdl. rewrite (bind_returned _ _ _ _ _ Hext).
  fold (blank text). rewrite Hblank.
  rewrite (bind_returned _ _ _ _ _ Hloop).
  unfold Eff.bind, emit, ret, after; cbn. now rewrite <- !app_assoc.
Qed.

(** What a run of [ingest] has done, by its outcome, call by call. *)
Definition ingest_calls (e : env) (model : string) (chunker : string -> list TextChunk)
    (documentId path : option string) (before calls : list effect)
    (r : outcome response) : Prop :=
  match r with
  | Thrown _ => calls = [UpdateStatus documentId processing; Download path]
  | Returned resp =>
      exists text fates attempts,
        resp = Success (length (chunker text))
        /\ calls = [UpdateStatus documentId processing; Download path]
                   ++ attempts ++ [UpdateStatus documentId completed]
        /\ accounted e model documentId 0 (chunker text) fates
             (before ++ [UpdateStatus documentId processing; Download path]) attempts
  end.

Lemma ingest_outcome_account e model with_text extract chunker empty_message
    documentId path w :
  pure_extractor extract ->
  exists calls r,
    ingest e extract chunker model with_text empty_message documentId path w
    = (after w calls, r)
    /\ ingest_calls e model chunker documentId path (trace w) calls r.
Proof.
  intros Hpure.
  set (w2 := after w [UpdateStatus documentId processing; Download path]).
  assert (Hprefix : forall (k : Blob + string -> M response),
             Eff.bind (update_status documentId processing)
               (fun _ => Eff.bind (download e path) k) w
             = k (storage_download e path) w2).
  { intros k. unfold update_status, download, Eff.bind, emit, ret, w2, after; cbn.
    now rewrite <- app_assoc. }
  destruct (storage_download e path) as [fileData | message] eqn:Hdl.
  - pose proof (Hpure fileData path w2) as Hsame.
    destruct (extract fileData path w2) as [w3 [text | message]] eqn:Hext;
      cbn [fst] in Hsame; subst w3.
    + destruct (blank text) eqn:Hblank.
      * exists [UpdateStatus documentId processing; Download path], (Thrown empty_message).
        split; [| reflexivity].
        unfold ingest. rewrite Hprefix. rewrite (bind_returned _ _ _ _ _ Hext).
        fold (blank text). now rewrite Hblank.
      * destruct (ingest_account e model with_text extract chunker empty_message
                    documentId path fileData text w Hdl Hext Hblank)
          as (fates & attempts & Hrun & Hcalls).
        eexists _, _. split; [exact Hrun |].
        exists text, fates, attempts. auto.
    + exists [UpdateStatus documentId processing; Download path], (Thrown message).
      split; [| reflexivity].
      unfold ingest. rewrite Hprefix. now rewrite (bind_thrown _ _ _ _ _ Hext).
  - exists [UpdateStatus documentId processing; Download path],
      (Thrown ("Failed to download file: " ++ message)%string).
    split; [| reflexivity].
    unfold ingest. now rewrite Hprefix.
Qed.

(** The document id a request names. *)
Definition requested_document (e : env) : option string :=
  match req_body e with
  | Some body => documentId body
  | None => None
  end.

(** C2, as amended. The batch loop runs to its end whatever the replies
    of the embedding service and of the database, and its rows follow
    the chunk list: one embedding is requested per chunk; a row is sent
    to the database exactly for the chunks whose embedding succeeded,
    once each, and it carries as [chunk_index] the position of its
    chunk in the chunk list, with that chunk's content and offsets and
    the embedding returned for it; a row is stored exactly when the
    database accepts it. So the stored indices are distinct positions
    below the number of chunks, the position of a chunk whose embedding
    or insertion fails is absent from them, and they are all of
    0, 1, ..., n-1 exactly when every embedding and every insertion of
    the run succeeds. The same holds for the rows of a whole request to
    part_000 that answers with a success, for the chunks of the text
    it has read, whose number the response reports; a request with any
    other answer has sent no row to the database. *)
Theorem chunk_index_is_chunk_position (e : env) :
  (forall model with_text documentId chunks w,
      exists attempts,
        batch_loop e model with_text documentId chunks 0 w
        = (after w attempts, Returned tt)
        /\ rows_follow_chunks e documentId chunks (trace w) attempts)
  /\ (forall n,
         snd (serve_part000 e initial) = Returned (Success n) ->
         exists path text attempts,
           n = length (chunkText text 1000 200)
           /\ trace (fst (serve_part000 e initial))
              = [UpdateStatus (requested_document e) processing; Download path]
                ++ attempts ++ [UpdateStatus (requested_document e) completed]
           /\ rows_follow_chunks e (requested_document e) (chunkText text 1000 200)
                [UpdateStatus (requested_document e) processing; Download path]
                attempts)
  /\ ((forall n, snd (serve_part000 e initial) <> Returned (Success n)) ->
      inserts (trace (fst (serve_part000 e initial))) = []).
Proof.
  split.
  { intros model with_text documentId chunks w.
    destruct (batch_loop_account e model with_text documentId chunks (length chunks)
                0%nat w) as (fates & attempts & Hrun & Hcalls); [lia |].
    rewrite drop_0 in Hcalls. exists attempts. split; [exact Hrun |].
    now apply (accounted_rows_follow e model documentId chunks fates). }
  unfold serve_part000, serve_reread, requested_document.
  destruct (String.eqb (req_method e) "OPTIONS").
  { split; [discriminate | reflexivity]. }
  unfold try_catch.
  destruct (req_json_first (req_body e)) as (r & Hread & Hr).
  destruct (req_body e) as [[documentId path] |]; subst r.
  - rewrite (bind_returned _ _ _ _ _ Hread). cbn [Pipeline.documentId Pipeline.filePath].
    destruct (ingest_outcome_account e "text-embedding-ada-002" true extractTextFromFile
                (fun text => chunkText text 1000 200)
                "No text content could be extracted from the file"
                documentId path (mkWorld true []) extractTextFromFile_pure)
      as (calls & r & Hrun & Hcalls).
    rewrite Hrun. destruct r as [resp | message]; unfold ingest_calls in Hcalls.
    + destruct Hcalls as (text & fates & attempts & -> & -> & Hcalls).
      cbn [fst snd trace after app] in *. split.
      * intros n [= <-]. exists path, text, attempts.
        split; [reflexivity |]. split; [reflexivity |].
        now apply (accounted_rows_follow e "text-embedding-ada-002" documentId _ fates).
      * intros Hno. now destruct (Hno (length (chunkText text 1000 200))).
    + subst calls. rewrite on_error_reread_silent by reflexivity.
      split; [discriminate | reflexivity].
  - rewrite (bind_thrown _ _ _ _ _ Hread).
    rewrite on_error_reread_silent by reflexivity.
    split; [discriminate | reflexivity].
Qed.

(** C2, as stated, fails: when the embedding of the first of two chunks
    is refused, the only index stored is 1. *)
Lemma chunk_index_gap :
  length (chunkText "ab" 1000 200) = 2%nat
  /\ map chunk_index
       (stored_rows (trace (fst (serve_part000 env_first_chunk_refused initial))))
     = [1%nat].
Proof. split; reflexivity. Qed.

(** C3. In part_000 a request whose file holds no text fails after the
    status was set to processing, and the status stays there: the
    handler reads the request body a second time, gets nothing, and
    never writes failed. *)
Theorem failed_status_not_written :
  snd (serve_part000 env_empty_file initial)
  = Returned (Failure "No text content could be extracted from the file")
  /\ status_updates "doc-1" (trace (fst (serve_part000 env_empty_file initial)))
     = [processing]
  /\ apply_calls {[ "doc-1"%string := pending ]}
       (trace (fst (serve_part000 env_empty_file initial))) !! "doc-1"%string
     = Some processing.
Proof. repeat split; vm_compute; reflexivity. Qed.

(** C8. When the body names a document and a file, the download succeeds
    and the file holds text that is not blank, part_000 answers with
    success whatever the embedding service and the database reply. The
    calls are, in this order: the update to processing, the download,
    the attempts, and last the update to completed, which so comes
    after every attempt has finished; the statuses written are
    processing then completed and an existing document ends up
    completed. Among the attempts an embedding is requested for every
    chunk, also for the chunks that follow a failure; every chunk whose
    embedding fails is logged under its position, and nothing is sent
    to the database for it; an insert the database refuses is logged
    too. When no embedding request succeeds, every chunk is logged and
    no chunk is stored. *)
Theorem completed_despite_embedding_failures (e : env) (id path text : string)
    (fileData : Blob) :
  req_method e <> "OPTIONS"%string ->
  req_body e = Some (mkBody (Some id) (Some path)) ->
  storage_download e (Some path) = inl fileData ->
  blob_text fileData = Returned text ->
  JS.trim text <> EmptyString ->
  exists calls,
    serve_part000 e initial
    = (mkWorld true calls, Returned (Success (length (chunkText text 1000 200))))
    /\ embedding_inputs calls = map content (chunkText text 1000 200)
    /\ status_updates id calls = [processing; completed]
    /\ (forall documents : gmap string upload_status,
           is_Some (documents !! id) ->
           apply_calls documents calls !! id = Some completed)
    /\ (embedding_down e -> stored_rows calls = [])
    /\ exists attempts,
         let before := [UpdateStatus (Some id) processing; Download (Some path)] in
         calls = before ++ attempts ++ [UpdateStatus (Some id) completed]
         /\ embedding_inputs attempts = map content (chunkText text 1000 200)
         /\ length (embedding_replies e before attempts)
            = length (chunkText text 1000 200)
         /\ failures_logged e before attempts
         /\ (embedding_down e ->
             forall j, (j < length (chunkText text 1000 200))%nat ->
                       In (ConsoleError (process_message j)) attempts).
Proof.
  intros Hmethod Hbody Hdl Htext Htrim.
  set (w1 := mkWorld true []).
  set (before := [UpdateStatus (Some id) processing; Download (Some path)]).
  destruct (extractTextFromFile_reads fileData (Some path) (after w1 before))
    as (r & Hext & Hr).
  rewrite (Hr text Htext) in Hext by discriminate.
  destruct (ingest_account e "text-embedding-ada-002" true extractTextFromFile
              (fun t => chunkText t 1000 200)
              "No text content could be extracted from the file"
              (Some id) (Some path) fileData text w1 Hdl Hext (blank_false _ Htrim))
    as (fates & attempts & Hrun & Hcalls).
  cbn [trace w1 app] in Hcalls. fold before in Hcalls, Hrun.
  pose proof (accounted_inputs _ _ _ _ _ _ _ _ Hcalls) as Hinputs.
  pose proof (accounted_status _ _ _ _ _ _ _ _ Hcalls) as Hstatus.
  pose proof (accounted_replies _ _ _ _ _ _ _ _ Hcalls) as Hreplies.
  pose proof (accounted_length _ _ _ _ _ _ _ _ Hcalls) as Hlength.
  pose proof (accounted_failures_logged _ _ _ _ _ _ _ Hcalls) as Hlogged.
  destruct (accounted_rows_follow _ _ _ _ _ _ _ Hcalls) as (_ & _ & Hrows & _).
  assert (Hupdates :
            status_updates id (before ++ attempts ++ [UpdateStatus (Some id) completed])
            = [processing; completed]).
  { rewrite !status_updates_app, Hstatus. cbn.
    destruct (decide (id = id)); [reflexivity | congruence]. }
  assert (Hcount : length (embedding_replies e before attempts)
                   = length (chunkText text 1000 200)).
  { rewrite <- Hlength. now apply Forall2_length in Hreplies. }
  exists (before ++ attempts ++ [UpdateStatus (Some id) completed]).
  split; [| split; [| split; [| split; [| split]]]].
  - unfold serve_part000, serve_reread, try_catch.
    apply String.eqb_neq in Hmethod. rewrite Hmethod, Hbody.
    unfold Eff.bind at 1. cbn [req_json initial bodyUsed trace].
    cbn [Pipeline.documentId Pipeline.filePath]. fold w1. rewrite Hrun. reflexivity.
  - rewrite !embedding_inputs_app, Hinputs. cbn. now rewrite app_nil_r.
  - exact Hupdates.
  - intros documents [s Hs]. rewrite apply_calls_lookup, Hupdates. cbn. now rewrite Hs.
  - intros Hdown.
    assert (Hsent : inserts attempts = []).
    { destruct (inserts attempts) as [| [row stored] rest]; [reflexivity |].
      destruct (Hrows row stored (or_introl eq_refl)) as (chunk & v & _ & Hreply & _).
      pose proof (embedding_replies_down e before attempts Hdown) as Hnone.
      rewrite Forall_lookup in Hnone. destruct (Hnone _ _ Hreply). now exists v. }
    rewrite !stored_rows_app, (stored_rows_inserts attempts), Hsent. reflexivity.
  - exists attempts. cbv zeta. split; [reflexivity |]. split; [exact Hinputs |].
    split; [exact Hcount |]. split; [exact Hlogged |].
    intros Hdown j Hj.
    assert (is_Some (embedding_replies e before attempts !! j)) as [reply Hreply].
    { apply lookup_lt_is_Some. now rewrite Hcount. }
    pose proof (embedding_replies_down e before attempts Hdown) as Hnone.
    rewrite Forall_lookup in Hnone.
    apply (proj1 Hlogged j reply Hreply). now apply (Hnone j).
Qed.

Lemma completed_despite_embedding_failures_witness :
  exists calls,
    serve_part000 env_embedding_refused initial
    = (mkWorld true calls, Returned (Success (length (chunkText "ab" 1000 200))))
    /\ embedding_inputs calls = map content (chunkText "ab" 1000 200)
    /\ status_updates "doc-1" calls = [processing; completed]
    /\ (forall documents : gmap string upload_status,
           is_Some (documents !! "doc-1"%string) ->
           apply_calls documents calls !! "doc-1"%string = Some completed)
    /\ (embedding_down env_embedding_refused -> stored_rows calls = [])
    /\ exists attempts,
         let before := [UpdateStatus (Some "doc-1"%string) processing;
                        Download (Some "user/notes.txt"%string)] in
         calls = before ++ attempts ++ [UpdateStatus (Some "doc-1"%string) completed]
         /\ embedding_inputs attempts = map content (chunkText "ab" 1000 200)
         /\ length (embedding_replies env_embedding_refused before attempts)
            = length (chunkText "ab" 1000 200)
         /\ failures_logged env_embedding_refused before attempts
         /\ (embedding_down env_embedding_refused ->
             forall j, (j < length (chunkText "ab" 1000 200))%nat ->
                       In (ConsoleError (process_message j)) attempts).
Proof.
  apply (completed_despite_embedding_failures env_embedding_refused
           "doc-1" "user/notes.txt" "ab" (mkBlob (Returned "ab") 2)).
  - discriminate.
  - reflexivity.
  - reflexivity.
  - reflexivity.
  - discriminate.
Defined.

End PipelineFacts.

(* ===================================================================== *)
(** * Properties of the embedder                                          *)
(* ===================================================================== *)

Section EmbedderFacts.
Import Eff Embedder.

Lemma substring_prefix_length n :
  forall s, String.length (String.substring 0 n s) = Nat.min n (String.length s).
Proof.
  induction n as [| n IH]; intros [| c s]; simpl; try reflexivity.
  now rewrite IH.
Qed.

Lemma append_cons c (a b : string) : (String c a ++ b = String c (a ++ b))%string.
Proof. reflexivity. Qed.

Lemma substring_prefix n :
  forall s, exists rest, s = (String.substring 0 n s ++ rest)%string.
Proof.
  induction n as [| n IH]; intros [| c s]; simpl.
  - now exists EmptyString.
  - now exists (String c s).
  - now exists EmptyString.
  - destruct (IH s) as [rest Hrest]. exists rest. rewrite append_cons. now f_equal.
Qed.

(** What [generateEmbedding] returns is decided by the reply alone. *)
Definition embedding_outcome (with_text : bool) (reply : embedding_reply)
    : outcome vector :=
  match reply with
  | ReplyOk v => Returned v
  | ReplyNotOk status errorText =>
      Thrown (if with_text
              then "OpenAI API error: " ++ JS.of_nat status ++ " " ++ errorText
              else "OpenAI API error: " ++ JS.of_nat status)%string
  | ReplyBroken message => Thrown message
  end.

Lemma fetch_embedding_spec service model input with_text w :
  fetch_embedding service model input with_text w
  = (after w [EmbeddingRequest model input],
     embedding_outcome with_text (service (trace w) model input)).
Proof.
  unfold fetch_embedding, history, Eff.bind, emit, throw, ret. cbn.
  now destruct (service (trace w) model input).
Qed.

(** C6, as amended. [generateEmbedding] of add-manual-knowledge and of
    the URL function sends one request whose input is the text cut to
    its first 8000 characters: a prefix of the text, at most 8000 long,
    the text itself when that is at most 8000 long; the cut raises
    nothing, the outcome being decided by the reply of the service.
    [generateEmbedding] of document processing and of the chat function
    sends the text as it is, whatever its length. *)
Theorem embedding_input_truncation
    (service : list effect -> string -> string -> embedding_reply)
    (text : string) (w : world) :
  (exists sent,
      generateEmbedding_truncating service text w
      = (after w [EmbeddingRequest "text-embedding-ada-002" sent],
         embedding_outcome true (service (trace w) "text-embedding-ada-002" sent))
      /\ (JS.length sent <= 8000)%Z
      /\ (exists rest, text = (sent ++ rest)%string)
      /\ ((JS.length text <= 8000)%Z -> sent = text)
      /\ ((8000 < JS.length text)%Z -> JS.length sent = 8000%Z))
  /\ generateEmbedding service text w
     = (after w [EmbeddingRequest "text-embedding-ada-002" text],
        embedding_outcome true (service (trace w) "text-embedding-ada-002" text))
  /\ generateEmbedding_small service text w
     = (after w [EmbeddingRequest "text-embedding-3-small" text],
        embedding_outcome false (service (trace w) "text-embedding-3-small" text)).
Proof.
  split; [| split; apply fetch_embedding_spec].
  unfold generateEmbedding_truncating. cbv zeta.
  destruct (Z.ltb_spec 8000 (JS.length text)) as [Hlong | Hshort].
  - exists (JS.substring text 0 8000). split; [apply fetch_embedding_spec |].
    assert (Hsub : JS.substring text 0 8000
                   = String.substring 0 (Z.to_nat 8000) text).
    { unfold JS.substring. cbv zeta.
      replace (Z.min (Z.max 0 0) (JS.length text)) with 0%Z by lia.
      replace (Z.min (Z.max 8000 0) (JS.length text)) with 8000%Z by lia.
      reflexivity. }
    rewrite Hsub.
    assert (Hlen : JS.length (String.substring 0 (Z.to_nat 8000) text) = 8000%Z).
    { unfold JS.length in *. rewrite substring_prefix_length. lia. }
    repeat split.
    + lia.
    + apply substring_prefix.
    + lia.
    + intros _. exact Hlen.
  - exists text. split; [apply fetch_embedding_spec |].
    repeat split.
    + exact Hshort.
    + exists EmptyString. clear.
      induction text as [| c s IH]; [reflexivity | rewrite append_cons; congruence].
    + lia.
Qed.

(** C6, as stated, fails: the chat function sends a message of 8001
    characters whole. *)
Lemma chat_embedding_not_truncated :
  JS.length (JS.repeat "a" (Z.to_nat 8001)) = 8001%Z
  /\ Pipeline.embedding_inputs
       (trace (fst (generateEmbedding (fun _ _ _ => ReplyOk [])
                      (JS.repeat "a" (Z.to_nat 8001)) initial)))
     = [JS.repeat "a" (Z.to_nat 8001)].
Proof. split; vm_compute; reflexivity. Qed.

End EmbedderFacts.

(* ===================================================================== *)
(** * Properties of CSV extraction                                        *)
(* ===================================================================== *)

Section CsvFacts.
Import Csv.
Local Open Scope string_scope.

(** The columns of a trimmed line. *)
Definition columns_of (line : string) : list string :=
  map (fun col => JS.strip_quotes (JS.trim col)) (JS.split "," line).

(** What the structured extractor emits for line [l] at position [i]
    (counted from 0): nothing for a blank line. *)
Definition table_entry (i : nat) (l : string) : option string :=
  match JS.trim l with
  | EmptyString => None
  | line =>
      Some (match i with
            | O => "Table Headers: " ++ JS.join ", " (columns_of line)
            | S _ => "Row " ++ JS.of_nat i ++ ": " ++ JS.join " | " (columns_of line)
            end)
  end.

(** What the fallback extractor appends for line [l] at position [i]. *)
Definition fallback_entry (i : nat) (l : string) : string :=
  match JS.trim l with
  | EmptyString => ""
  | line =>
      match i with
      | O => "CSV Headers: " ++ line ++ newline ++ newline
      | S _ => "Row " ++ JS.of_nat i ++ ": " ++ line ++ newline
      end
  end.

Lemma append_assoc (a b c : string) : (a ++ b) ++ c = a ++ (b ++ c).
Proof.
  induction a as [| x a IH]; [reflexivity | rewrite !append_cons; congruence].
Qed.

Lemma append_empty_r (a : string) : a ++ "" = a.
Proof.
  induction a as [| x a IH]; [reflexivity | rewrite append_cons; congruence].
Qed.

Lemma parseCSV_loop_entries lines :
  forall i result,
    parseCSV_loop lines i result
    = app result (omap id (imap (fun j => table_entry (i + j)) lines)).
Proof.
  induction lines as [| l rest IH]; intros i result.
  - simpl. now rewrite app_nil_r.
  - cbn [parseCSV_loop]. rewrite imap_cons. cbn [omap]. rewrite IH.
    rewrite Nat.add_0_r. unfold table_entry at 2, columns_of, id.
    assert (Hshift : imap (fun j => table_entry (S i + j)) rest
                     = imap ((fun j => table_entry (i + j)) ∘ S) rest).
    { apply imap_ext. intros j x _. cbn. now rewrite Nat.add_succ_r. }
    rewrite Hshift.
    destruct (JS.trim l) as [| c line]; [reflexivity |].
    destruct i as [| i]; cbn [Nat.eqb]; now rewrite <- app_assoc.
Qed.

Lemma parseCSVFallback_loop_entries lines :
  forall i result,
    parseCSVFallback_loop lines i result
    = result ++ String.concat "" (imap (fun j => fallback_entry (i + j)) lines).
Proof.
  induction lines as [| l rest IH]; intros i result.
  - simpl. now rewrite append_empty_r.
  - cbn [parseCSVFallback_loop]. rewrite imap_cons. rewrite IH.
    rewrite Nat.add_0_r. unfold fallback_entry at 2.
    assert (Hshift : imap (fun j => fallback_entry (S i + j)) rest
                     = imap ((fun j => fallback_entry (i + j)) ∘ S) rest).
    { apply imap_ext. intros j x _. cbn. now rewrite Nat.add_succ_r. }
    rewrite Hshift.
    set (tail := imap ((fun j => fallback_entry (i + j)) ∘ S) rest).
    assert (Hconcat : forall x, String.concat "" (x :: tail) = x ++ String.concat "" tail).
    { intros x. destruct tail; simpl; [now rewrite append_empty_r | reflexivity]. }
    rewrite Hconcat.
    destruct (JS.trim l) as [| c line]; [reflexivity |].
    destruct i as [| i]; cbn [Nat.eqb]; now rewrite !append_assoc.
Qed.

Definition sample_csv : string := "a,b" ++ newline ++ "1,2" ++ newline ++ "3,4".

(** C7, as amended. The structured extractor (second file of part_001)
    emits, for every line that is not blank, one entry: [Table Headers:]
    with the columns joined by a comma and a space for the line at
    position 0, [Row N:] with the columns joined by [ | ] for the line at
    position N >= 1, N counting all lines after the first; entries are
    joined by line feeds, and the sample input yields the headers and
    [Row 1: 1 | 2]. The fallback extractor (first file of part_001) emits
    [CSV Headers:] and [Row N:] followed by the trimmed line as it is. *)
Theorem csv_rendering (csvContent : string) :
  parseCSVToText csvContent
  = JS.join newline (omap id (imap table_entry (JS.split JS.LF csvContent)))
  /\ parseCSVToText_fallback csvContent
     = String.concat "" (imap fallback_entry (JS.split JS.LF csvContent))
  /\ parseCSVToText sample_csv
     = "Table Headers: a, b" ++ newline ++ "Row 1: 1 | 2" ++ newline ++ "Row 2: 3 | 4"
  /\ JS.includes (parseCSVToText sample_csv) "Table Headers: a, b" = true
  /\ JS.includes (parseCSVToText sample_csv) "Row 1: 1 | 2" = true
  /\ parseCSVToText_fallback sample_csv
     = "CSV Headers: a,b" ++ newline ++ newline
       ++ "Row 1: 1,2" ++ newline ++ "Row 2: 3,4" ++ newline.
Proof.
  split; [| split; [| repeat split; reflexivity]].
  - unfold parseCSVToText. cbv zeta. now rewrite parseCSV_loop_entries.
  - unfold parseCSVToText_fallback. cbv zeta. now rewrite parseCSVFallback_loop_entries.
Qed.

(** C7, as stated, fails for the fallback extractor: its text for the
    sample input contains neither the headers line nor the row line of
    the claim. *)
Lemma csv_fallback_other_format :
  JS.includes (parseCSVToText_fallback sample_csv) "Table Headers: a, b" = false
  /\ JS.includes (parseCSVToText_fallback sample_csv) "Row 1: 1 | 2" = false.
Proof. split; reflexivity. Qed.

End CsvFacts.

(* ===================================================================== *)
(** * Properties of title derivation                                      *)
(* ===================================================================== *)

Section UrlFacts.
Import Eff Url.

Lemma split_not_nil sep s : JS.split sep s <> [].
Proof.
  destruct s as [| c s]; simpl; [discriminate |].
  destruct (Ascii.eqb c sep); [discriminate |].
  destruct (JS.split sep s); discriminate.
Qed.

(** C10. [extractTitleFromContent] returns for every content and every
    url, never throwing: the trimmed first line of the content when its
    length is above 10 and below 100, otherwise [Content from] and the
    host name when the url parses, otherwise [Web Content]; the title is
    never empty. *)
Theorem extractTitleFromContent_total (url_hostname : string -> outcome string)
    (content url : string) :
  exists title,
    extractTitleFromContent url_hostname content url = Returned title
    /\ title <> EmptyString
    /\ let firstLine := JS.trim (hd EmptyString (JS.split JS.LF content)) in
       title =
       if ((10 <? JS.length firstLine) && (JS.length firstLine <? 100))%Z
       then firstLine
       else match url_hostname url with
            | Returned hostname => ("Content from " ++ hostname)%string
            | Thrown _ => "Web Content"%string
            end.
Proof.
  unfold extractTitleFromContent.
  pose proof (split_not_nil JS.LF content) as Hsplit.
  destruct (JS.split JS.LF content) as [| first rest]; [now destruct Hsplit |].
  cbn [hd].
  destruct ((10 <? JS.length (JS.trim first)) && (JS.length (JS.trim first) <? 100))%Z
    eqn:Hlen.
  - eexists. split; [reflexivity |]. split; [| reflexivity].
    apply andb_true_iff in Hlen as [Hlow _]. apply Z.ltb_lt in Hlow.
    intros Hempty. rewrite Hempty in Hlow. change (JS.length "") with 0%Z in Hlow. lia.
  - destruct (url_hostname url) as [hostname | message];
      eexists; (split; [reflexivity |]); (split; [discriminate | reflexivity]).
Qed.

End UrlFacts.

(* ===================================================================== *)
(** * Properties of similarity search                                     *)
(* ===================================================================== *)

Section SearchFacts.
Import Eff Search.
Local Open Scope Q_scope.

Definition by_distance {A} (a b : Q * A) : Prop := fst a <= fst b.

Lemma Qltb_lt x y : Qltb x y = true <-> x < y.
Proof.
  unfold Qltb. rewrite negb_true_iff. split.
  - intros Hb. apply Qnot_le_lt. intros Hle. apply Qle_bool_iff in Hle. congruence.
  - intros Hlt. destruct (Qle_bool y x) eqn:Hb; [| reflexivity].
    apply Qle_bool_iff in Hb. apply Qlt_not_le in Hlt. contradiction.
Qed.

Section Order.
Context {A : Type}.
Implicit Types (x : Q * A) (rows : list (Q * A)).

Lemma insert_by_distance_Forall (P : Q * A -> Prop) x rows :
  P x -> Forall P rows -> Forall P (insert_by_distance x rows).
Proof.
  intros Hx Hrows. induction Hrows as [| y rest Hy Hrest IH]; simpl.
  - now constructor.
  - destruct (Qle_bool (fst x) (fst y)); repeat constructor; assumption.
Qed.

Lemma insert_by_distance_sorted x rows :
  StronglySorted by_distance rows ->
  StronglySorted by_distance (insert_by_distance x rows).
Proof.
  induction 1 as [| y rest Hsorted IH Hall]; simpl.
  - repeat constructor.
  - destruct (Qle_bool (fst x) (fst y)) eqn:Hle.
    + apply Qle_bool_iff in Hle. constructor.
      * now constructor.
      * constructor; [exact Hle |].
        eapply Forall_impl; [exact Hall |].
        intros z Hz. unfold by_distance in *. now apply Qle_trans with (fst y).
    + constructor; [exact IH |].
      apply insert_by_distance_Forall; [| exact Hall].
      unfold by_distance. apply Qlt_le_weak, Qnot_le_lt.
      intros Hxy. apply Qle_bool_iff in Hxy. congruence.
Qed.

Lemma order_by_distance_sorted rows :
  StronglySorted by_distance (order_by_distance rows).
Proof.
  induction rows as [| x rows IH]; simpl.
  - constructor.
  - now apply insert_by_distance_sorted.
Qed.

Lemma order_by_distance_Forall (P : Q * A -> Prop) rows :
  Forall P rows -> Forall P (order_by_distance rows).
Proof.
  induction 1; simpl; [constructor | now apply insert_by_distance_Forall].
Qed.

Lemma take_sorted (R : Q * A -> Q * A -> Prop) n rows :
  StronglySorted R rows -> StronglySorted R (take n rows).
Proof.
  intros Hsorted. revert n.
  induction Hsorted as [| y rest Hsorted IH Hall]; intros [| n]; simpl;
    try constructor.
  - apply IH.
  - now apply Forall_take.
Qed.

(** WHERE, ORDER BY and LIMIT together. *)
Lemma ranked_rows (keep : Q * A -> bool) (t : Q) (k : Z) rows out :
  limit k (order_by_distance
             (List.filter (fun r => keep r && Qltb t (1 - fst r)) rows)) = Some out ->
  Forall (fun r => keep r = true /\ t < 1 - fst r /\ In r rows) out
  /\ StronglySorted by_distance out
  /\ (Z.of_nat (length out) <= k)%Z.
Proof.
  unfold limit. destruct (Z.ltb_spec k 0) as [Hneg | Hpos]; [discriminate |].
  intros [= <-]. repeat split.
  - apply Forall_take, order_by_distance_Forall, Forall_forall.
    intros r Hr. apply list_elem_of_In, filter_In in Hr as [Hin Hkeep].
    apply andb_true_iff in Hkeep as [Hkeep Hsim]. apply Qltb_lt in Hsim. auto.
  - apply take_sorted, order_by_distance_sorted.
  - rewrite length_take. lia.
Qed.

End Order.

Lemma sorted_weaken {A} (R R' : A -> A -> Prop) l :
  (forall a b, R a b -> R' a b) -> StronglySorted R l -> StronglySorted R' l.
Proof.
  intros Himpl. induction 1 as [| x l Hsorted IH Hall]; constructor; [exact IH |].
  eapply Forall_impl; [exact Hall | auto].
Qed.

Lemma map_sorted {A B} (f : A -> B) (R : B -> B -> Prop) l :
  StronglySorted (fun a b => R (f a) (f b)) l -> StronglySorted R (map f l).
Proof.
  induction 1 as [| x l Hsorted IH Hall]; simpl; constructor; [exact IH |].
  apply Forall_map. exact Hall.
Qed.

Lemma scan_In {A} (cosine_distance : vector -> vector -> Q)
    (embedding_of : A -> option vector) (q : vector) (rows : list A) (r : Q * A) :
  In r (scan cosine_distance embedding_of q rows) ->
  In (snd r) rows
  /\ exists v, embedding_of (snd r) = Some v /\ fst r = cosine_distance v q.
Proof.
  unfold scan. rewrite <- list_elem_of_In, list_elem_of_omap.
  intros (row & Hin & Hrow). apply list_elem_of_In in Hin.
  destruct (embedding_of row) as [v |] eqn:Hv; [| discriminate].
  injection Hrow as <-. cbn. eauto.
Qed.

(** C1. Whenever [search_chunks] or [search_knowledge] returns rows
    (it does for every non-negative [match_count]): every row has a
    similarity strictly above the threshold; the rows come in order of
    increasing cosine distance of the stored embedding to the query,
    which is the order of non-increasing similarity, the similarity of a
    row being 1 minus that distance; there are at most [match_count]
    rows; and every row of [search_chunks] comes from a chunk whose
    parent document has status completed. *)
Theorem similarity_search_sound (cosine_distance : vector -> vector -> Q)
    (query_embedding : vector) (match_threshold : Q) (match_count : Z)
    (document_chunks : list document_chunk) (documents : list document)
    (knowledge_base : list knowledge) :
  (forall results,
      search_chunks cosine_distance query_embedding match_threshold match_count
                    document_chunks documents = Some results ->
      Forall (fun r => match_threshold < cm_similarity r) results
      /\ StronglySorted (fun a b => cm_similarity b <= cm_similarity a) results
      /\ (Z.of_nat (length results) <= match_count)%Z
      /\ exists rows,
          Forall2 (fun row r => cm_id r = dc_id (fst (snd row))
                                /\ cm_similarity r = 1 - fst row) rows results
          /\ StronglySorted by_distance rows
          /\ Forall (fun row =>
                 In (fst (snd row)) document_chunks
                 /\ In (snd (snd row)) documents
                 /\ dc_document_id (fst (snd row)) = d_id (snd (snd row))
                 /\ d_upload_status (snd (snd row)) = completed
                 /\ exists v, dc_embedding (fst (snd row)) = Some v
                              /\ fst row = cosine_distance v query_embedding) rows)
  /\ (forall results,
         search_knowledge cosine_distance query_embedding match_threshold match_count
                          knowledge_base = Some results ->
         Forall (fun r => match_threshold < km_similarity r) results
         /\ StronglySorted (fun a b => km_similarity b <= km_similarity a) results
         /\ (Z.of_nat (length results) <= match_count)%Z
         /\ exists rows,
             Forall2 (fun row r => km_id r = kb_id (snd row)
                                   /\ km_similarity r = 1 - fst row) rows results
             /\ StronglySorted by_distance rows
             /\ Forall (fun row =>
                    In (snd row) knowledge_base
                    /\ exists v, kb_embedding (snd row) = Some v
                                 /\ fst row = cosine_distance v query_embedding) rows)
  /\ ((0 <= match_count)%Z ->
      is_Some (search_chunks cosine_distance query_embedding match_threshold
                             match_count document_chunks documents)
      /\ is_Some (search_knowledge cosine_distance query_embedding match_threshold
                                   match_count knowledge_base)).
Proof.
  split; [| split].
  - intros results. unfold search_chunks.
    destruct (search_chunks_rows _ _ _ _ _ _) as [rows |] eqn:Hrows; [| discriminate].
    intros [= <-]. unfold search_chunks_rows in Hrows. cbv zeta in Hrows.
    apply ranked_rows in Hrows as (Hall & Hsorted & Hcount).
    repeat split.
    + apply Forall_map. eapply Forall_impl; [exact Hall |].
      intros row (_ & Hsim & _). exact Hsim.
    + apply map_sorted. eapply sorted_weaken; [| exact Hsorted].
      intros a b Hab. unfold by_distance in Hab. cbn. lra.
    + now rewrite length_map.
    + exists rows. repeat split.
      * clear. induction rows; cbn; constructor; auto.
      * exact Hsorted.
      * eapply Forall_impl; [exact Hall |].
        intros [dist [dc d]] (Hkeep & _ & Hin). cbn in *.
        apply bool_decide_eq_true in Hkeep.
        apply scan_In in Hin as (Hjoined & v & Hv & Hdist). cbn in *.
        apply in_flat_map in Hjoined as (dc' & Hdc & Hpair).
        apply in_map_iff in Hpair as (d' & [= -> ->] & Hd).
        apply filter_In in Hd as [Hd Hid]. apply String.eqb_eq in Hid.
        repeat split; eauto.
  - intros results. unfold search_knowledge.
    destruct (search_knowledge_rows _ _ _ _ _) as [rows |] eqn:Hrows; [| discriminate].
    intros [= <-]. unfold search_knowledge_rows in Hrows. cbv zeta in Hrows.
    apply ranked_rows in Hrows as (Hall & Hsorted & Hcount).
    repeat split.
    + apply Forall_map. eapply Forall_impl; [exact Hall |].
      intros row (_ & Hsim & _). exact Hsim.
    + apply map_sorted. eapply sorted_weaken; [| exact Hsorted].
      intros a b Hab. unfold by_distance in Hab. cbn. lra.
    + now rewrite length_map.
    + exists rows. repeat split.
      * clear. induction rows; cbn; constructor; auto.
      * exact Hsorted.
      * eapply Forall_impl; [exact Hall |].
        intros [dist kb] (_ & _ & Hin). cbn in *.
        apply scan_In in Hin as (Hkb & v & Hv & Hdist). cbn in *. eauto.
  - intros Hcount.
    unfold search_chunks, search_chunks_rows, search_knowledge, search_knowledge_rows,
      limit.
    destruct (Z.ltb_spec match_count 0) as [Hneg | _]; [lia |].
    split; eexists; reflexivity.
Qed.

(** The scenario of the specification: two chunks of a completed
    document at similarities 0.82 and 0.65, threshold 0.7. The distance
    of a stored vector is read off its first coordinate. *)
Definition sample_distance (stored query : vector) : Q :=
  match stored with
  | d :: _ => d
  | [] => 1
  end.

Definition sample_chunks : list document_chunk :=
  [mkDocumentChunk "c1" "d1" "alpha" 0 "{}" (Some [18 # 100]);
   mkDocumentChunk "c2" "d1" "beta" 1 "{}" (Some [35 # 100])].

Definition sample_documents : list document := [mkDocument "d1" completed].

Lemma similarity_search_sound_witness :
  search_chunks sample_distance [] (7 # 10) 5 sample_chunks sample_documents
  = Some [mkChunkMatch "c1" "d1" "alpha" 0 "{}" (82 # 100)]
  /\ Forall (fun r => 7 # 10 < cm_similarity r)
            [mkChunkMatch "c1" "d1" "alpha" 0 "{}" (82 # 100)].
Proof.
  split; [reflexivity |].
  destruct (similarity_search_sound sample_distance [] (7 # 10) 5
              sample_chunks sample_documents []) as (Hchunks & _ & _).
  apply (Hchunks _ eq_refl).
Defined.

End SearchFacts.

(* ===================================================================== *)
(** * Properties of the chat function                                     *)
(* ===================================================================== *)

Section ChatFacts.
Import Eff Search Chat.
Local Open Scope string_scope.

(** The calls of a chat turn whose embedding and completion succeed. *)
Definition chat_calls (e : env) (body : Chat.body) (v : vector) (context : string)
    : list effect :=
  [EmbeddingRequest "text-embedding-ada-002" (message body); Rpc "search_chunks"]
  ++ match error (rpc_search_chunks e v (7 # 10) 5) with
     | Some _ => [ConsoleError "Error searching chunks:"]
     | None => []
     end
  ++ [Rpc "search_knowledge"]
  ++ match error (rpc_search_knowledge e v (7 # 10) 3) with
     | Some _ => [ConsoleError "Error searching knowledge base:"]
     | None => []
     end
  ++ [ChatCompletion (systemPrompt context)].

Lemma present_length items :
  forall turns, present items = Some turns -> length items = length turns.
Proof.
  induction items as [| [t |] items IH]; intros turns Hall; cbn in Hall.
  - now injection Hall as <-.
  - destruct (present items) as [rest |]; [| discriminate].
    injection Hall as <-. cbn. now rewrite (IH rest).
  - discriminate.
Qed.

Lemma present_drop k :
  forall items turns,
    present items = Some turns -> present (drop k items) = Some (drop k turns).
Proof.
  induction k as [| k IH]; intros items turns Hall; [now rewrite !drop_0 |].
  destruct items as [| [t |] items]; cbn in Hall.
  - now injection Hall as <-.
  - destruct (present items) as [rest |] eqn:Hrest; [| discriminate].
    injection Hall as <-. cbn [drop]. now apply IH.
  - discriminate.
Qed.

(** A history that is missing or an array of messages is read without
    an error, as its last six messages. *)
Lemma read_typed_history h conversationHistory :
  typed_history h = Some conversationHistory ->
  read_history h = Returned (recentHistory conversationHistory).
Proof.
  destruct h as [| items | text |]; cbn; try discriminate.
  - now intros [= <-].
  - destruct (present items) as [turns |] eqn:Hall; [| discriminate].
    intros [= <-]. cbn.
    rewrite (present_drop _ _ _ Hall), (present_length _ _ Hall). reflexivity.
Qed.

Lemma typed_request (e : env) (body : Chat.body) :
  req_body e = Some body ->
  exists p,
    req_payload e = Some p
    /\ payload_message p = message body
    /\ read_history (payload_history p)
       = Returned (recentHistory (conversationHistory body)).
Proof.
  unfold req_body, typed. destruct (req_payload e) as [p |]; [| discriminate].
  destruct (typed_history (payload_history p)) as [h |] eqn:Hh; [| discriminate].
  intros [= <-]. exists p. cbn. split; [reflexivity |]. split; [reflexivity |].
  now apply read_typed_history.
Qed.

Lemma chat_turn_run (e : env) (body : Chat.body) (v : vector) (answer : string) :
  req_body e = Some body ->
  (forall calls,
      embedding_service e calls "text-embedding-ada-002" (message body) = ReplyOk v) ->
  let chunks := rpc_search_chunks e v (7 # 10) 5 in
  let knowledge := rpc_search_knowledge e v (7 # 10) 3 in
  let context := assemble_context (data chunks) (data knowledge) in
  completion_service e (systemPrompt context)
    (recentHistory (conversationHistory body)) (message body) = CompletionOk answer ->
  chat_turn e initial
  = (mkWorld true (chat_calls e body v context),
     Returned (Answer answer (count (data chunks)) (count (data knowledge)))).
Proof.
  intros Hbody Hembed. cbv zeta. intros Hanswer.
  destruct (typed_request e body Hbody) as (p & Hpayload & Hmessage & Hhistory).
  unfold chat_turn, chat_calls. rewrite Hpayload. cbv zeta.
  unfold Eff.bind at 1. cbn [req_json initial bodyUsed trace].
  rewrite Hmessage, Hhistory.
  unfold Eff.bind at 1. unfold Embedder.generateEmbedding.
  rewrite fetch_embedding_spec, Hembed. cbn [embedding_outcome].
  unfold rpc, complete, console_error.
  destruct (rpc_search_chunks e v (7 # 10) 5) as [cs | m1];
    destruct (rpc_search_knowledge e v (7 # 10) 3) as [ks | m2];
    cbn [error data] in *;
    unfold Eff.bind, emit, ret, after; cbn [bodyUsed trace error data];
    rewrite Hanswer; reflexivity.
Qed.

(** C9. In a chat turn whose question embedding and completion succeed,
    the answer of the model is returned whatever the two searches
    reply. A search that fails is logged, counts as zero results and
    leaves the context what an empty result would have made it; a source
    with zero results contributes nothing to the context, which then
    holds the other section alone; with zero results from both the
    context is the empty string and the system prompt is the persona
    followed directly by the closing instruction. *)
Theorem chat_survives_search_failure (e : env) (body : Chat.body) (v : vector)
    (answer : string) :
  req_method e <> "OPTIONS" ->
  req_body e = Some body ->
  (forall calls,
      embedding_service e calls "text-embedding-ada-002" (message body) = ReplyOk v) ->
  let chunks := rpc_search_chunks e v (7 # 10) 5 in
  let knowledge := rpc_search_knowledge e v (7 # 10) 3 in
  let context := assemble_context (data chunks) (data knowledge) in
  completion_service e (systemPrompt context)
    (recentHistory (conversationHistory body)) (message body) = CompletionOk answer ->
  exists calls,
    serve e initial
    = (mkWorld true calls,
       Returned (Answer answer (count (data chunks)) (count (data knowledge))))
    /\ In (ChatCompletion (systemPrompt context)) calls
    /\ (is_Some (error chunks) ->
        In (ConsoleError "Error searching chunks:") calls
        /\ count (data chunks) = 0%nat
        /\ context = assemble_context (Some []) (data knowledge))
    /\ (is_Some (error knowledge) ->
        In (ConsoleError "Error searching knowledge base:") calls
        /\ count (data knowledge) = 0%nat
        /\ context = assemble_context (data chunks) (Some []))
    /\ (count (data chunks) = 0%nat ->
        context = match data knowledge with
                  | Some (k :: ks) =>
                      append_knowledge ("Relevant knowledge base entries:" ++ blank_line)
                                       0 (k :: ks)
                  | _ => ""
                  end)
    /\ (count (data knowledge) = 0%nat ->
        context = match data chunks with
                  | Some (c :: cs) =>
                      append_chunks ("Relevant document excerpts:" ++ blank_line)
                                    0 (c :: cs)
                  | _ => ""
                  end)
    /\ (count (data chunks) = 0%nat -> count (data knowledge) = 0%nat ->
        context = "" /\ systemPrompt context = persona ++ closing).
Proof.
  intros Hmethod Hbody Hembed chunks knowledge context Hanswer.
  exists (chat_calls e body v context).
  split; [| split; [| split; [| split; [| split; [| split]]]]].
  - unfold serve, try_catch. apply String.eqb_neq in Hmethod. rewrite Hmethod.
    now rewrite (chat_turn_run e body v answer Hbody Hembed Hanswer).
  - unfold chat_calls. rewrite !in_app_iff. cbn. tauto.
  - intros Herror. subst context. unfold chat_calls. fold chunks.
    destruct chunks as [cs | m]; [now destruct Herror |].
    repeat split. rewrite !in_app_iff. cbn. tauto.
  - intros Herror. subst context. unfold chat_calls. fold knowledge.
    destruct knowledge as [ks | m]; [now destruct Herror |].
    repeat split. rewrite !in_app_iff. cbn. tauto.
  - intros Hnone. subst context.
    destruct chunks as [[| c cs] | m]; cbn in Hnone; try discriminate;
      now destruct (data knowledge) as [[| k ks] |].
  - intros Hnone. subst context.
    destruct knowledge as [[| k ks] | m]; cbn in Hnone; try discriminate;
      now destruct (data chunks) as [[| c cs] |].
  - intros Hnone Hnone'.
    assert (Hctx : context = "").
    { subst context.
      destruct chunks as [[| c cs] | m]; cbn in Hnone; try discriminate;
        destruct knowledge as [[| k ks] | m']; cbn in Hnone'; try discriminate;
        reflexivity. }
    rewrite Hctx. split; reflexivity.
Qed.

(** A chat request whose chunk search fails while the knowledge search
    finds one entry. *)
Definition env_chunk_search_down : env :=
  mkEnv "POST" (Some (mkPayload "How heavy is the trailer?" NoHistory))
    (fun _ _ _ => ReplyOk [])
    (fun _ _ _ => RpcError "canceling statement due to statement timeout")
    (fun _ _ _ => RpcData [mkKnowledgeMatch "kb-1" "Trailer" "The trailer weighs 2 t."
                             None [] (9 # 10)])
    (fun _ _ _ => CompletionOk "About two tonnes.").

Lemma chat_survives_search_failure_witness :
  exists calls,
    serve env_chunk_search_down initial
    = (mkWorld true calls, Returned (Answer "About two tonnes." 0 1))
    /\ In (ConsoleError "Error searching chunks:") calls.
Proof.
  destruct (chat_survives_search_failure env_chunk_search_down
              (mkBody "How heavy is the trailer?" None) [] "About two tonnes.")
    as (calls & Hrun & _ & Hchunks & _).
  - discriminate.
  - reflexivity.
  - reflexivity.
  - reflexivity.
  - exists calls. split; [exact Hrun |].
    apply Hchunks. now exists "canceling statement due to statement timeout".
Defined.

End ChatFacts.

(* ===================================================================== *)
(** * Further properties of the chunker                                   *)
(* ===================================================================== *)

Section ChunkerWindows.
Import Chunker.
Local Open Scope Z_scope.

Lemma scan_last_range c s :
  forall i bound found,
    JS.scan_last c s i bound found = found
    \/ (i <= JS.scan_last c s i bound found <= bound
        /\ JS.scan_last c s i bound found < i + Z.of_nat (String.length s)).
Proof.
  induction s as [| x s IH]; intros i bound found; cbn [JS.scan_last].
  - now left.
  - destruct (Z.ltb_spec bound i); [now left |].
    destruct (IH (i + 1) bound (if Ascii.eqb x c then i else found)) as [Heq | Hr].
    + rewrite Heq. destruct (Ascii.eqb x c); [right | now left].
      cbn [String.length]. lia.
    + right. cbn [String.length]. lia.
Qed.

(** [lastIndexOf] answers -1 or an index of the string at or before
    [fromIndex]. *)
Lemma lastIndexOf_range s c fromIndex :
  JS.lastIndexOf s c fromIndex = -1
  \/ (0 <= JS.lastIndexOf s c fromIndex <= Z.max fromIndex 0
      /\ JS.lastIndexOf s c fromIndex < JS.length s).
Proof.
  unfold JS.lastIndexOf, JS.length.
  destruct (scan_last_range c s 0 (Z.max fromIndex 0) (-1)) as [-> | H]; [now left |].
  right. lia.
Qed.

Lemma window_end_bounds text maxChunkSize start :
  0 <= maxChunkSize -> 0 <= start < JS.length text ->
  start <= window_end text maxChunkSize start <= JS.length text
  /\ window_end text maxChunkSize start <= start + maxChunkSize + 1
  /\ (1 <= maxChunkSize -> start < window_end text maxChunkSize start).
Proof.
  intros Hmax Hstart. unfold window_end. cbv zeta.
  set (hard := Z.min (start + maxChunkSize) (JS.length text)).
  assert (Hhard : start <= hard <= JS.length text /\ hard <= start + maxChunkSize
                  /\ (1 <= maxChunkSize -> start < hard)) by (unfold hard; lia).
  destruct (Z.ltb_spec hard (JS.length text)) as [Hcut | Hwhole]; [| lia].
  destruct (lastIndexOf_range text "."%char hard) as [Hp | Hp];
    destruct (lastIndexOf_range text JS.LF hard) as [Hn | Hn];
    destruct (Z.ltb_spec (2 * start + maxChunkSize)
                (2 * Z.max (JS.lastIndexOf text "."%char hard)
                           (JS.lastIndexOf text JS.LF hard))); lia.
Qed.

Lemma chunkText_body_window text maxChunkSize overlap start chunks :
  chunkText_body text maxChunkSize overlap start chunks
  = (Z.max (start + 1) (window_end text maxChunkSize start - overlap),
     if 0 <? JS.length (JS.trim (JS.slice text start (window_end text maxChunkSize start)))
     then chunks ++ [mkChunk (JS.trim (JS.slice text start
                                         (window_end text maxChunkSize start)))
                             start (window_end text maxChunkSize start)]
     else chunks).
Proof. reflexivity. Qed.

(** A property that holds at the start of the loop and is kept by every
    pass holds when [chunkText] returns, with the start at or beyond the
    end of the text. *)
Lemma chunkText_invariant (P : Z -> list TextChunk -> Prop) text maxChunkSize overlap :
  P 0 [] ->
  (forall start chunks,
      P start chunks -> start < JS.length text ->
      P (fst (chunkText_body text maxChunkSize overlap start chunks))
        (snd (chunkText_body text maxChunkSize overlap start chunks))) ->
  exists final, JS.length text <= final /\ P final (chunkText text maxChunkSize overlap).
Proof.
  intros Hinit Hstep.
  assert (Hrun : forall n st, P (fst st) (snd st) ->
            P (fst (chunkText_run text maxChunkSize overlap n st))
              (snd (chunkText_run text maxChunkSize overlap n st))).
  { induction n as [| n IH]; intros st Hst; cbn [chunkText_run]; [exact Hst |].
    destruct (Z.ltb_spec (fst st) (JS.length text)); [| exact Hst].
    apply IH. now apply Hstep. }
  destruct (chunkText_run_complete text maxChunkSize overlap (String.length text) 0 [])
    as [Hexit Hresult]; [unfold JS.length; lia |].
  exists (fst (chunkText_run text maxChunkSize overlap (String.length text) (0, []))).
  split; [exact Hexit |].
  unfold chunkText. rewrite Hresult. now apply Hrun.
Qed.

Lemma substring_none n : forall s, String.substring n 0 s = EmptyString.
Proof. induction n as [| n IH]; intros [| c s]; cbn; auto. Qed.

Lemma slice_inside text a b :
  0 <= a <= JS.length text -> 0 <= b <= JS.length text ->
  JS.slice text a b
  = String.substring (Z.to_nat a) (Z.to_nat (b - a)) text.
Proof.
  intros Ha Hb. unfold JS.slice, JS.rel_index. cbv zeta.
  destruct (Z.ltb_spec a 0); [lia |].
  destruct (Z.ltb_spec b 0); [lia |].
  rewrite !Z.min_l by lia. f_equal. lia.
Qed.

Lemma get_Some_lt s : forall i c, String.get i s = Some c -> (i < String.length s)%nat.
Proof.
  induction s as [| x s IH]; intros [| i] c H; cbn in *; try discriminate; try lia.
  apply IH in H. lia.
Qed.

Lemma trimEnd_empty s :
  JS.trimEnd s = EmptyString ->
  forall i c, String.get i s = Some c -> JS.is_whitespace c = true.
Proof.
  induction s as [| x s IH]; cbn [JS.trimEnd]; intros Hempty i c Hget.
  - destruct i; discriminate.
  - destruct (JS.trimEnd s) eqn:Hrest; [| discriminate].
    destruct (JS.is_whitespace x) eqn:Hx; [| discriminate].
    destruct i as [| i]; cbn in Hget.
    + now injection Hget as <-.
    + eapply IH; eauto.
Qed.

Lemma trimStart_rest s :
  (forall i c, String.get i (JS.trimStart s) = Some c -> JS.is_whitespace c = true) ->
  forall i c, String.get i s = Some c -> JS.is_whitespace c = true.
Proof.
  induction s as [| x s IH]; cbn [JS.trimStart]; intros Hrest i c Hget.
  - destruct i; discriminate.
  - destruct (JS.is_whitespace x) eqn:Hx.
    + destruct i as [| i]; cbn in Hget.
      * now injection Hget as <-.
      * eapply IH; eauto.
    + eapply Hrest; eauto.
Qed.

(** A text that trims to nothing holds white space only. *)
Lemma trim_empty_blank s :
  JS.trim s = EmptyString ->
  forall i c, String.get i s = Some c -> JS.is_whitespace c = true.
Proof.
  intros Hempty. apply trimStart_rest. now apply trimEnd_empty.
Qed.

Lemma sorted_snoc {A} (R : A -> A -> Prop) l x :
  StronglySorted R l -> Forall (fun a => R a x) l -> StronglySorted R (l ++ [x]).
Proof.
  induction 1 as [| y l Hsorted IH Hall]; intros Hx; cbn.
  - repeat constructor.
  - apply Forall_cons in Hx as [Hyx Hlx]. constructor; [now apply IH |].
    apply Forall_app. split; [exact Hall | now constructor].
Qed.

(** A chunk of [text]: a window inside the text, at most one character
    longer than the chunk size, whose content is the trimmed text of the
    window and is not empty. *)
Definition chunk_of (text : string) (maxChunkSize : Z) (c : TextChunk) : Prop :=
  0 <= startIndex c < endIndex c
  /\ endIndex c <= JS.length text
  /\ endIndex c - startIndex c <= maxChunkSize + 1
  /\ content c = JS.trim (JS.slice text (startIndex c) (endIndex c))
  /\ content c <> EmptyString.

(** X1. For every chunk size that is not negative, every chunk returned
    by [chunkText] is a window [startIndex, endIndex) inside the text
    with [startIndex < endIndex], at most [maxChunkSize + 1] characters
    wide; its content is the trimmed text of that window and is never
    empty. *)
Theorem chunkText_chunks_are_windows (text : string) (maxChunkSize overlap : Z) :
  0 <= maxChunkSize ->
  Forall (chunk_of text maxChunkSize) (chunkText text maxChunkSize overlap).
Proof.
  intros Hmax.
  destruct (chunkText_invariant
              (fun start chunks => 0 <= start /\ Forall (chunk_of text maxChunkSize) chunks)
              text maxChunkSize overlap) as (final & _ & _ & Hall); [| | exact Hall].
  - split; [lia | constructor].
  - intros start chunks [Hstart Hchunks] Hlt.
    rewrite chunkText_body_window. cbn [fst snd]. split; [lia |].
    destruct (window_end_bounds text maxChunkSize start Hmax) as (Hend & Hwide & _);
      [lia |].
    set (e := window_end text maxChunkSize start) in *.
    destruct (Z.ltb_spec 0 (JS.length (JS.trim (JS.slice text start e)))) as [Hfull | Hblank];
      [| exact Hchunks].
    apply Forall_app. split; [exact Hchunks |]. constructor; [| constructor].
    unfold chunk_of. cbn [startIndex endIndex content].
    assert (Hne : JS.trim (JS.slice text start e) <> EmptyString).
    { intros Hempty. rewrite Hempty in Hfull. change (JS.length "") with 0 in Hfull. lia. }
    repeat split; try lia; try exact Hne.
    destruct (Z.eq_dec start e) as [Heq | Hneq]; [| lia].
    exfalso. apply Hne. rewrite slice_inside by lia.
    replace (Z.to_nat (e - start)) with 0%nat by lia.
    now rewrite substring_none.
Qed.

Lemma chunkText_chunks_are_windows_witness :
  Forall (chunk_of "A. B. C." 4) (chunkText "A. B. C." 4 1).
Proof. apply chunkText_chunks_are_windows. lia. Defined.

(** X2. The chunks of [chunkText] come in strictly increasing order of
    [startIndex], and there are at most as many chunks as the text has
    characters, whatever the chunk size and the overlap. *)
Theorem chunkText_chunks_ordered (text : string) (maxChunkSize overlap : Z) :
  StronglySorted (fun a b => startIndex a < startIndex b)
                 (chunkText text maxChunkSize overlap)
  /\ (length (chunkText text maxChunkSize overlap) <= String.length text)%nat.
Proof.
  split.
  - destruct (chunkText_invariant
                (fun start chunks =>
                   Forall (fun c => startIndex c < start) chunks
                   /\ StronglySorted (fun a b => startIndex a < startIndex b) chunks)
                text maxChunkSize overlap) as (final & _ & _ & Hsorted);
      [| | exact Hsorted].
    + split; constructor.
    + intros start chunks [Hbelow Hsorted] Hlt.
      rewrite chunkText_body_window. cbn [fst snd].
      set (e := window_end text maxChunkSize start).
      assert (Hbelow' : Forall (fun c => startIndex c < Z.max (start + 1) (e - overlap))
                               chunks).
      { eapply Forall_impl; [exact Hbelow |]. intros c Hc. cbn in Hc. lia. }
      destruct (0 <? JS.length (JS.trim (JS.slice text start e))); [| now split].
      split.
      * apply Forall_app. split; [exact Hbelow' |].
        constructor; [cbn; lia | constructor].
      * apply sorted_snoc; [exact Hsorted |].
        eapply Forall_impl; [exact Hbelow |]. intros c Hc. exact Hc.
  - assert (Hcount : forall n st,
               (length (snd (chunkText_run text maxChunkSize overlap n st))
                <= length (snd st) + n)%nat).
    { induction n as [| n IH]; intros st; cbn [chunkText_run]; [lia |].
      destruct (fst st <? JS.length text); [| lia].
      etransitivity; [apply IH |]. rewrite chunkText_body_window. cbn [snd].
      match goal with |- context [if ?b then _ else _] => destruct b end;
        rewrite ?length_app; cbn [length]; lia. }
    destruct (chunkText_run_complete text maxChunkSize overlap (String.length text) 0 [])
      as [_ Hresult]; [unfold JS.length; lia |].
    unfold chunkText. rewrite Hresult. apply (Hcount _ (0, [])).
Qed.

(** X3. With a chunk size of at least 1 and an overlap that is not
    negative, the windows leave no gap: every character of the text that
    is not white space lies in the window of some returned chunk. *)
Theorem chunkText_covers_text (text : string) (maxChunkSize overlap : Z)
    (p : nat) (c : ascii) :
  1 <= maxChunkSize -> 0 <= overlap ->
  String.get p text = Some c -> JS.is_whitespace c = false ->
  exists chunk,
    In chunk (chunkText text maxChunkSize overlap)
    /\ startIndex chunk <= Z.of_nat p < endIndex chunk.
Proof.
  intros Hmax Hoverlap Hget Hc.
  destruct (chunkText_invariant
              (fun start chunks =>
                 0 <= start
                 /\ (Z.of_nat p < start ->
                     exists chunk, In chunk chunks
                                   /\ startIndex chunk <= Z.of_nat p < endIndex chunk))
              text maxChunkSize overlap) as (final & Hexit & _ & Hcovered).
  - split; [lia | intros; lia].
  - intros start chunks [Hstart Hseen] Hlt.
    rewrite chunkText_body_window. cbn [fst snd]. split; [lia |].
    destruct (window_end_bounds text maxChunkSize start) as (Hend & _ & Hgrow); try lia.
    specialize (Hgrow Hmax).
    set (e := window_end text maxChunkSize start) in *.
    intros Hbelow.
    destruct (Z.lt_ge_cases (Z.of_nat p) start) as [Hold | Hnew].
    + destruct (Hseen Hold) as (chunk & Hin & Hrange). exists chunk.
      split; [| exact Hrange].
      destruct (0 <? JS.length (JS.trim (JS.slice text start e)));
        [apply in_or_app; now left | exact Hin].
    + assert (Hinside : Z.of_nat p < e) by lia.
      destruct (Z.ltb_spec 0 (JS.length (JS.trim (JS.slice text start e))))
        as [Hfull | Hblank].
      * eexists. split; [apply in_or_app; right; now left |].
        cbn [startIndex endIndex]. lia.
      * exfalso.
        assert (Hempty : JS.trim (JS.slice text start e) = EmptyString).
        { apply length_zero_iff. unfold JS.length in *. lia. }
        rewrite slice_inside in Hempty by lia.
        assert (Hws : JS.is_whitespace c = true).
        { apply (trim_empty_blank _ Hempty (p - Z.to_nat start)%nat).
          rewrite substring_correct1 by lia.
          now replace (p - Z.to_nat start + Z.to_nat start)%nat with p by lia. }
        congruence.
  - apply Hcovered. apply get_Some_lt in Hget. unfold JS.length in Hexit. lia.
Qed.

Lemma chunkText_covers_text_witness :
  exists chunk,
    In chunk (chunkText "A. B. C." 4 1)
    /\ startIndex chunk <= Z.of_nat 6 < endIndex chunk.
Proof.
  apply (chunkText_covers_text "A. B. C." 4 1 6 "C"%char); try lia; reflexivity.
Defined.

End ChunkerWindows.

(* ===================================================================== *)
(** * Further properties of the ingestion pipeline                        *)
(* ===================================================================== *)

Section PipelineRuns.
Import Eff Chunker Pipeline.

(** Calls that only write to the console. *)
Definition quiet (logs : list effect) : Prop :=
  Forall (fun c => exists message, c = ConsoleError message) logs.

Lemma quiet_silent logs :
  quiet logs ->
  (forall id, status_updates id logs = [])
  /\ stored_rows logs = [] /\ embedding_inputs logs = [].
Proof.
  induction 1 as [| c logs [message ->] _ (Hs & Hr & Hi)]; [now repeat split |].
  repeat split; [intros id; cbn; apply Hs | cbn; apply Hr | cbn; apply Hi].
Qed.

Lemma quiet_app l1 l2 : quiet l1 -> quiet l2 -> quiet (l1 ++ l2).
Proof. intros H1 H2. apply Forall_app. now split. Qed.

(** An extractor that, besides answering, only writes to the console. *)
Definition quiet_extractor (extract : Blob -> option string -> M string) : Prop :=
  forall fileData path w,
  exists logs, fst (extract fileData path w) = after w logs /\ quiet logs.

Lemma pure_extractor_quiet extract : pure_extractor extract -> quiet_extractor extract.
Proof.
  intros Hpure fileData path w. exists []. rewrite after_nil.
  split; [apply Hpure | constructor].
Qed.

Section Runs.
Variable e : env.
Variable extract : Blob -> option string -> M string.
Variable chunker : string -> list TextChunk.
Variable model : string.
Variable with_text : bool.
Variable empty_message : string.

(** What a run of [ingest] has done, by its outcome, when the extractor
    is quiet: [logs] is what the extractor wrote to the console. *)
Definition ingest_done (documentId path : option string) (evs : list effect)
    (r : outcome response) : Prop :=
  exists logs,
    quiet logs
    /\ match r with
       | Thrown _ => evs = [UpdateStatus documentId processing; Download path] ++ logs
       | Returned resp =>
           exists text batch,
             resp = Success (length (chunker text))
             /\ evs = [UpdateStatus documentId processing; Download path]
                      ++ logs ++ batch ++ [UpdateStatus documentId completed]
             /\ batch_post e documentId 0 (chunker text) batch
       end.

(** A run of [ingest] whose download succeeds and whose extractor
    returns a text that is not blank. *)
Lemma ingest_returns documentId path fileData text logs w :
  storage_download e path = inl fileData ->
  extract fileData path (after w [UpdateStatus documentId processing; Download path])
  = (after (after w [UpdateStatus documentId processing; Download path]) logs,
     Returned text) ->
  blank text = false ->
  exists batch,
    ingest e extract chunker model with_text empty_message documentId path w
    = (after w ([UpdateStatus documentId processing; Download path]
                ++ logs ++ batch ++ [UpdateStatus documentId completed]),
       Returned (Success (length (chunker text))))
    /\ batch_post e documentId 0 (chunker text) batch.
Proof.
  intros Hdl Hext Hblank.
  set (w2 := after w [UpdateStatus documentId processing; Download path]) in *.
  destruct (batch_loop_spec e model with_text documentId (chunker text)
              (length (chunker text)) 0%nat (after w2 logs))
    as (batch & Hloop & Hpost); [lia |].
  rewrite drop_0 in Hpost. exists batch. split; [| exact Hpost].
  unfold ingest, update_status, download.
  rewrite (bind_returned _ _ _ _ _ (emit_after _ w)).
  rewrite (bind_returned (Eff.bind (emit (Download path)) _) _ (after w [_]) w2
             (storage_download e path)).
  2: { unfold Eff.bind, emit, ret, w2, after; cbn. now rewrite <- app_assoc. }
  rewrite Hdl. rewrite (bind_returned _ _ _ _ _ Hext).
  fold (blank text). rewrite Hblank. cbv zeta.
  rewrite (bind_returned _ _ _ _ _ Hloop).
  rewrite (bind_returned _ _ _ _ _ (emit_after _ _)).
  unfold ret, w2. now rewrite !after_after.
Qed.

Lemma ingest_quiet documentId path w :
  quiet_extractor extract ->
  exists evs r,
    ingest e extract chunker model with_text empty_message documentId path w
    = (after w evs, r)
    /\ ingest_done documentId path evs r.
Proof.
  intros Hquiet.
  set (w2 := after w [UpdateStatus documentId processing; Download path]).
  assert (Hprefix : forall (k : Blob + string -> M response),
             Eff.bind (update_status documentId processing)
               (fun _ => Eff.bind (download e path) k) w
             = k (storage_download e path) w2).
  { intros k. unfold update_status, download, Eff.bind, emit, ret, w2, after; cbn.
    now rewrite <- app_assoc. }
  destruct (storage_download e path) as [fileData | message] eqn:Hdl.
  - destruct (Hquiet fileData path w2) as (logs & Hworld & Hlogs).
    destruct (extract fileData path w2) as [w3 [text | message]] eqn:Hext;
      cbn [fst] in Hworld; subst w3.
    + destruct (blank text) eqn:Hblank.
      * exists ([UpdateStatus documentId processing; Download path] ++ logs),
          (Thrown empty_message).
        split; [| exists logs; now split].
        unfold ingest. rewrite Hprefix. rewrite (bind_returned _ _ _ _ _ Hext).
        fold (blank text). rewrite Hblank. unfold w2. now rewrite after_after.
      * destruct (batch_loop_spec e model with_text documentId (chunker text)
                    (length (chunker text)) 0%nat (after w2 logs))
          as (batch & Hloop & Hpost); [lia |].
        rewrite drop_0 in Hpost.
        exists ([UpdateStatus documentId processing; Download path]
                ++ logs ++ batch ++ [UpdateStatus documentId completed]),
          (Returned (Success (length (chunker text)))).
        split; [| exists logs; split; [exact Hlogs | now exists text, batch]].
        unfold ingest. rewrite Hprefix. rewrite (bind_returned _ _ _ _ _ Hext).
        fold (blank text). rewrite Hblank. cbv zeta.
        rewrite (bind_returned _ _ _ _ _ Hloop).
        unfold update_status. rewrite (bind_returned _ _ _ _ _ (emit_after _ _)).
        unfold ret, w2. now rewrite !after_after.
    + exists ([UpdateStatus documentId processing; Download path] ++ logs),
        (Thrown message).
      split; [| exists logs; now split].
      unfold ingest. rewrite Hprefix. rewrite (bind_thrown _ _ _ _ _ Hext).
      unfold w2. now rewrite after_after.
  - exists [UpdateStatus documentId processing; Download path],
      (Thrown ("Failed to download file: " ++ message)%string).
    split; [| exists []; split; [constructor | now rewrite app_nil_r]].
    unfold ingest. now rewrite Hprefix.
Qed.

Lemma ingest_done_status documentId path evs r :
  ingest_done documentId path evs r ->
  forall id,
    status_updates id evs
    = status_updates id
        (UpdateStatus documentId processing
         :: match r with
            | Returned _ => [UpdateStatus documentId completed]
            | Thrown _ => []
            end).
Proof.
  intros (logs & Hlogs & Hdone) id.
  destruct (quiet_silent logs Hlogs) as (Hs & _ & _).
  destruct r as [resp | message].
  - destruct Hdone as (text & batch & _ & -> & Hb & _).
    rewrite !status_updates_app, Hs, Hb. cbn.
    destruct documentId as [d |]; cbn; [destruct (decide (d = id)) |]; reflexivity.
  - subst evs. rewrite status_updates_app, Hs. now rewrite app_nil_r.
Qed.

Lemma ingest_done_thrown documentId path evs message :
  ingest_done documentId path evs (Thrown message) ->
  stored_rows evs = [] /\ embedding_inputs evs = [].
Proof.
  intros (logs & Hlogs & ->).
  destruct (quiet_silent logs Hlogs) as (_ & Hr & Hi).
  now rewrite stored_rows_app, embedding_inputs_app, Hr, Hi.
Qed.

(** The run of [serve] of part_001 on a request that is not a
    preflight. *)
Lemma serve_outer_run :
  quiet_extractor extract ->
  String.eqb (req_method e) "OPTIONS" = false ->
  match req_body e with
  | None =>
      serve_outer e extract chunker model with_text empty_message initial
      = (mkWorld true [ConsoleError "Error processing document:"],
         Returned (Failure "Unexpected end of JSON input"))
  | Some body =>
      exists evs r,
        ingest_done (documentId body) (filePath body) evs r
        /\ serve_outer e extract chunker model with_text empty_message initial
           = match r with
             | Returned resp => (mkWorld true evs, Returned resp)
             | Thrown message =>
                 (mkWorld true
                    (evs ++ ConsoleError "Error processing document:"
                         :: if truthy (documentId body)
                            then [UpdateStatus (documentId body) failed] else []),
                  Returned (Failure message))
             end
  end.
Proof.
  intros Hquiet Hmethod. unfold serve_outer. rewrite Hmethod.
  destruct (req_body e) as [body |]; cbn [req_json initial bodyUsed trace].
  - destruct (ingest_quiet (documentId body) (filePath body) (mkWorld true []) Hquiet)
      as (evs & r & Hrun & Hdone).
    exists evs, r. split; [exact Hdone |].
    unfold try_catch. rewrite Hrun. destruct r as [resp | message]; [reflexivity |].
    now rewrite on_error_outer_marks.
  - now rewrite on_error_outer_marks.
Qed.

End Runs.

(** The run of [serve] of part_000 on a request that is not a
    preflight. *)
Lemma serve_part000_run (e : env) :
  String.eqb (req_method e) "OPTIONS" = false ->
  match req_body e with
  | None =>
      serve_part000 e initial
      = (mkWorld true [ConsoleError "Error processing document:"],
         Returned (Failure "Unexpected end of JSON input"))
  | Some body =>
      exists evs r,
        ingest_done e (fun text => chunkText text 1000 200)
                    (documentId body) (filePath body) evs r
        /\ serve_part000 e initial
           = match r with
             | Returned resp => (mkWorld true evs, Returned resp)
             | Thrown message =>
                 (mkWorld true (evs ++ [ConsoleError "Error processing document:"]),
                  Returned (Failure message))
             end
  end.
Proof.
  intros Hmethod. unfold serve_part000, serve_reread. rewrite Hmethod.
  unfold try_catch.
  destruct (req_json_first (req_body e)) as (r0 & Hread & Hr0).
  destruct (req_body e) as [body |]; subst r0.
  - rewrite (bind_returned _ _ _ _ _ Hread).
    destruct (ingest_quiet e extractTextFromFile (fun text => chunkText text 1000 200)
                "text-embedding-ada-002" true
                "No text content could be extracted from the file"
                (documentId body) (filePath body) (mkWorld true [])
                (pure_extractor_quiet _ extractTextFromFile_pure))
      as (evs & r & Hrun & Hdone).
    exists evs, r. split; [exact Hdone |].
    rewrite Hrun. destruct r as [resp | message]; [reflexivity |].
    now rewrite on_error_reread_silent.
  - rewrite (bind_thrown _ _ _ _ _ Hread).
    now rewrite on_error_reread_silent.
Qed.

End PipelineRuns.

(* ===================================================================== *)
(** * Properties of Markdown conversion                                   *)
(* ===================================================================== *)

Section ConversionFacts.
Import Eff Chunker Pipeline Markdown.

(** The outcome of the fallback extractor and what it writes to the
    console do not depend on the world it runs in. *)
Lemma fallback_run fileData path :
  exists logs r,
    quiet logs
    /\ forall w, extractTextFromFileFallback fileData path w = (after w logs, r).
Proof.
  unfold extractTextFromFileFallback.
  destruct path as [p |].
  2: { exists [], (Thrown "Cannot read properties of undefined (reading 'toLowerCase')").
       split; [constructor |]. intros w. now rewrite after_nil. }
  cbv zeta.
  destruct (JS.endsWith (JS.toLowerCase p) ".txt" || JS.endsWith (JS.toLowerCase p) ".md"
            || JS.endsWith (JS.toLowerCase p) ".json").
  { exists [], (blob_text fileData). split; [constructor |].
    intros w. now rewrite after_nil. }
  destruct (JS.endsWith (JS.toLowerCase p) ".csv").
  { exists [], (match blob_text fileData with
                | Returned csvText => Returned (Csv.parseCSVToText_fallback csvText)
                | Thrown message => Thrown message
                end).
    split; [constructor |]. intros w. rewrite after_nil.
    unfold Eff.bind, text, ret. now destruct (blob_text fileData). }
  destruct (is_binary_document (JS.toLowerCase p)).
  { eexists [], _. split; [constructor |]. intros w. now rewrite after_nil. }
  destruct (blob_text fileData) as [t | message] eqn:Htext.
  - exists [], (Returned t). split; [constructor |]. intros w. rewrite after_nil.
    unfold try_catch, text. now rewrite Htext.
  - eexists [ConsoleError "Failed to read file as text:"], _.
    split; [repeat constructor; eauto |]. intros w.
    unfold try_catch, text. rewrite Htext. reflexivity.
Qed.

(** [filePath.split('/').pop() || '']. *)
Definition file_name (path : string) : string :=
  match pop (JS.split "/" path) with
  | Some (String c s) => String c s
  | _ => EmptyString
  end.

(** What the conversion service delivers for a file: the trimmed
    Markdown of the reply when there is a key, the reply is a list of
    elements and their Markdown is not blank. *)
Definition delivered (unstructuredApiKey : option string)
    (unstructured_service : Blob -> string -> unstructured_reply)
    (fileData : Blob) (path : string) : option string :=
  if truthy unstructuredApiKey then
    match unstructured_service fileData (file_name path) with
    | ElementsOk result =>
        match JS.trim (render_elements result "") with
        | EmptyString => None
        | trimmed => Some trimmed
        end
    | _ => None
    end
  else None.

Lemma convert_run unstructuredApiKey unstructured_service fileData path :
  exists logs,
    quiet logs
    /\ forall w,
        convertToMarkdownWithUnstructured unstructuredApiKey unstructured_service
          fileData (Some path) w
        = (after w logs,
           match delivered unstructuredApiKey unstructured_service fileData path with
           | Some markdown => Returned markdown
           | None => snd (extractTextFromFileFallback fileData (Some path) initial)
           end).
Proof.
  destruct (fallback_run fileData (Some path)) as (flogs & fr & Hflogs & Hfallback).
  unfold delivered, convertToMarkdownWithUnstructured. fold (file_name path).
  rewrite (Hfallback initial). cbn [snd].
  destruct (truthy unstructuredApiKey); cbn [negb].
  2: { exists flogs. split; [exact Hflogs | exact Hfallback]. }
  assert (Hretry : forall label w,
             Eff.bind (console_error label)
               (fun _ => extractTextFromFileFallback fileData (Some path)) w
             = (after w (ConsoleError label :: flogs), fr)).
  { intros label w. unfold console_error.
    rewrite (bind_returned _ _ _ _ _ (emit_after _ w)).
    rewrite Hfallback, after_after. reflexivity. }
  destruct (unstructured_service fileData (file_name path))
    as [result | status errorText | message].
  - destruct (JS.trim (render_elements result "")) as [| c trimmed] eqn:Htrim.
    + destruct fr as [t | message].
      * exists flogs. split; [exact Hflogs |]. intros w.
        unfold try_catch. now rewrite Hfallback.
      * exists (flogs ++ ConsoleError "Error converting to Markdown with Unstructured.io:"
                      :: flogs).
        split; [apply quiet_app; [exact Hflogs | constructor; eauto] |].
        intros w. unfold try_catch. rewrite Hfallback, Hretry, after_after. reflexivity.
    + exists []. split; [constructor |]. intros w. now rewrite after_nil.
  - destruct fr as [t | message].
    + exists (ConsoleError "Unstructured.io API error:" :: flogs).
      split; [constructor; eauto |]. intros w.
      unfold try_catch. now rewrite Hretry.
    + exists ((ConsoleError "Unstructured.io API error:" :: flogs)
              ++ ConsoleError "Error converting to Markdown with Unstructured.io:"
                 :: flogs).
      split; [apply quiet_app; constructor; eauto |].
      intros w. unfold try_catch. rewrite Hretry, Hretry, after_after. reflexivity.
  - exists (ConsoleError "Error converting to Markdown with Unstructured.io:" :: flogs).
    split; [constructor; eauto |]. intros w.
    unfold try_catch, throw. now rewrite Hretry.
Qed.

Lemma convert_quiet unstructuredApiKey unstructured_service :
  quiet_extractor
    (convertToMarkdownWithUnstructured unstructuredApiKey unstructured_service).
Proof.
  intros fileData [path |] w.
  - destruct (convert_run unstructuredApiKey unstructured_service fileData path)
      as (logs & Hlogs & Hrun).
    exists logs. now rewrite Hrun.
  - exists []. rewrite after_nil. split; [reflexivity | constructor].
Qed.

(** X4. The converter answers with the trimmed Markdown of the service
    when the service delivers one that is not blank, and in every other
    case (no key, a reply that is not ok, a failed call, blank Markdown)
    with exactly what the fallback extractor answers for the file,
    whether that is a text or an error; on the way it writes to the
    console at most. *)
Theorem convert_or_fall_back (unstructuredApiKey : option string)
    (unstructured_service : Blob -> string -> unstructured_reply)
    (fileData : Blob) (path : string) (w : world) :
  snd (convertToMarkdownWithUnstructured unstructuredApiKey unstructured_service
         fileData (Some path) w)
  = (if truthy unstructuredApiKey then
       match unstructured_service fileData (file_name path) with
       | ElementsOk result =>
           match JS.trim (render_elements result "") with
           | EmptyString => snd (extractTextFromFileFallback fileData (Some path) w)
           | trimmed => Returned trimmed
           end
       | _ => snd (extractTextFromFileFallback fileData (Some path) w)
       end
     else snd (extractTextFromFileFallback fileData (Some path) w))
  /\ exists logs,
      fst (convertToMarkdownWithUnstructured unstructuredApiKey unstructured_service
             fileData (Some path) w) = after w logs
      /\ quiet logs.
Proof.
  destruct (convert_run unstructuredApiKey unstructured_service fileData path)
    as (logs & Hlogs & Hrun).
  destruct (fallback_run fileData (Some path)) as (flogs & fr & _ & Hfallback).
  rewrite Hrun. cbn [fst snd]. split; [| now exists logs].
  rewrite (Hfallback initial), (Hfallback w). cbn [snd]. unfold delivered.
  destruct (truthy unstructuredApiKey); [| reflexivity].
  destruct (unstructured_service fileData (file_name path)); try reflexivity.
  now destruct (JS.trim (render_elements result "")).
Qed.

End ConversionFacts.

(* ===================================================================== *)
(** * Outcomes of a document-processing request                           *)
(* ===================================================================== *)

Section RequestOutcomes.
Import Eff Chunker Pipeline Markdown.

(** X5. In part_001 a request that names a document reaches a final
    status: with a quiet extractor, every request that is not a
    preflight and whose body carries a non-empty document id either
    answers success, having written processing then completed, or
    answers failure, having written processing then failed; an existing
    document is left completed or failed accordingly, never
    processing. *)
Theorem serve_outer_settles (e : env) (extract : Blob -> option string -> M string)
    (chunker : string -> list TextChunk) (model : string) (with_text : bool)
    (empty_message : string) (id : string) (path : option string) :
  quiet_extractor extract ->
  req_method e <> "OPTIONS"%string ->
  req_body e = Some (mkBody (Some id) path) ->
  id <> EmptyString ->
  exists calls resp final,
    serve_outer e extract chunker model with_text empty_message initial
    = (mkWorld true calls, Returned resp)
    /\ status_updates id calls = [processing; final]
    /\ ((exists n, resp = Success n) /\ final = completed
        \/ (exists details, resp = Failure details) /\ final = failed)
    /\ forall documents : gmap string upload_status,
        is_Some (documents !! id) -> apply_calls documents calls !! id = Some final.
Proof.
  intros Hquiet Hmethod Hbody Hid. apply String.eqb_neq in Hmethod.
  pose proof (serve_outer_run e extract chunker model with_text empty_message
                Hquiet Hmethod) as Hrun.
  rewrite Hbody in Hrun. cbn [documentId filePath] in Hrun.
  destruct Hrun as (evs & r & Hdone & Hrun).
  pose proof (ingest_done_status _ _ _ _ _ _ Hdone id) as Hstatus.
  assert (Hself : forall status,
             status_updates id [UpdateStatus (Some id) status] = [status]).
  { intros status. cbn. destruct (decide (id = id)); [reflexivity | congruence]. }
  assert (Hdb : forall calls final,
             status_updates id calls = [processing; final] ->
             forall documents : gmap string upload_status,
               is_Some (documents !! id) ->
               apply_calls documents calls !! id = Some final).
  { intros calls final Hcalls documents [s Hs].
    rewrite apply_calls_lookup, Hcalls. cbn. now rewrite Hs. }
  destruct r as [resp | message].
  - destruct Hdone as (logs & _ & text & batch & -> & _ & _).
    assert (Hcalls : status_updates id evs = [processing; completed]).
    { rewrite Hstatus.
      change (status_updates id ([UpdateStatus (Some id) processing]
                                 ++ [UpdateStatus (Some id) completed])
              = [processing; completed]).
      now rewrite status_updates_app, !Hself. }
    exists evs, (Success (length (chunker text))), completed.
    repeat split; eauto.
  - assert (Htruthy : truthy (Some id) = true) by (destruct id; [now destruct Hid | reflexivity]).
    rewrite Htruthy in Hrun.
    assert (Hcalls : status_updates id
                       (evs ++ [ConsoleError "Error processing document:";
                                UpdateStatus (Some id) failed])
                     = [processing; failed]).
    { rewrite status_updates_app, Hstatus.
      change (status_updates id [UpdateStatus (Some id) processing]
              ++ status_updates id [UpdateStatus (Some id) failed]
              = [processing; failed]).
      now rewrite !Hself. }
    eexists _, (Failure message), failed.
    split; [exact Hrun |]. repeat split; eauto.
Qed.

Lemma serve_outer_settles_witness :
  exists calls resp final,
    serve_part001 env_empty_file extractTextFromFile initial
    = (mkWorld true calls, Returned resp)
    /\ status_updates "doc-1" calls = [processing; final]
    /\ ((exists n, resp = Success n) /\ final = completed
        \/ (exists details, resp = Failure details) /\ final = failed)
    /\ forall documents : gmap string upload_status,
        is_Some (documents !! "doc-1"%string) ->
        apply_calls documents calls !! "doc-1"%string = Some final.
Proof.
  apply (serve_outer_settles env_empty_file extractTextFromFile
           (fun text => chunkText text 1000 200) "text-embedding-ada-002" true
           "No text content could be extracted from the file"
           "doc-1" (Some "user/empty.txt"%string)).
  - apply pure_extractor_quiet, extractTextFromFile_pure.
  - discriminate.
  - reflexivity.
  - discriminate.
Defined.

(** X6. A request that answers failure has sent nothing to the embedding
    service and stored no chunk: whatever can fail does so before the
    first chunk is handled, in part_000 and, with a quiet extractor, in
    part_001. *)
Theorem failure_precedes_embedding (e : env) :
  (forall details,
      snd (serve_part000 e initial) = Returned (Failure details) ->
      embedding_inputs (trace (fst (serve_part000 e initial))) = []
      /\ stored_rows (trace (fst (serve_part000 e initial))) = [])
  /\ (forall extract chunker model with_text empty_message details,
         quiet_extractor extract ->
         snd (serve_outer e extract chunker model with_text empty_message initial)
         = Returned (Failure details) ->
         embedding_inputs
           (trace (fst (serve_outer e extract chunker model with_text
                          empty_message initial))) = []
         /\ stored_rows
              (trace (fst (serve_outer e extract chunker model with_text
                             empty_message initial))) = []).
Proof.
  split.
  - intros details.
    destruct (String.eqb (req_method e) "OPTIONS") eqn:Hmethod.
    { unfold serve_part000, serve_reread. rewrite Hmethod. discriminate. }
    pose proof (serve_part000_run e Hmethod) as Hrun.
    destruct (req_body e) as [body |].
    + destruct Hrun as (evs & r & Hdone & ->).
      destruct r as [resp | message]; cbn [fst snd trace].
      * destruct Hdone as (logs & _ & text & batch & -> & _). discriminate.
      * intros _. destruct (ingest_done_thrown _ _ _ _ _ _ Hdone) as [Hr Hi].
        now rewrite embedding_inputs_app, stored_rows_app, Hr, Hi.
    + rewrite Hrun. now split.
  - intros extract chunker model with_text empty_message details Hquiet.
    destruct (String.eqb (req_method e) "OPTIONS") eqn:Hmethod.
    { unfold serve_outer. rewrite Hmethod. discriminate. }
    pose proof (serve_outer_run e extract chunker model with_text empty_message
                  Hquiet Hmethod) as Hrun.
    destruct (req_body e) as [body |].
    + destruct Hrun as (evs & r & Hdone & ->).
      destruct r as [resp | message]; cbn [fst snd trace].
      * destruct Hdone as (logs & _ & text & batch & -> & _). discriminate.
      * intros _. destruct (ingest_done_thrown _ _ _ _ _ _ Hdone) as [Hr Hi].
        rewrite embedding_inputs_app, stored_rows_app, Hr, Hi.
        now destruct (truthy (documentId body)).
    + rewrite Hrun. now split.
Qed.

End RequestOutcomes.

(* ===================================================================== *)
(** * Binary documents, pacing and token counts                           *)
(* ===================================================================== *)

Section BinaryDocuments.
Import Eff Chunker Pipeline Markdown.

Lemma trimEnd_cons c s :
  JS.trimEnd (String c s)
  = match JS.trimEnd s with
    | EmptyString => if JS.is_whitespace c then EmptyString else String c EmptyString
    | t => String c t
    end.
Proof. reflexivity. Qed.

Lemma trimEnd_idempotent s : JS.trimEnd (JS.trimEnd s) = JS.trimEnd s.
Proof.
  induction s as [| c s IH]; [reflexivity |]. rewrite trimEnd_cons.
  destruct (JS.trimEnd s) as [| c' t] eqn:Hrest.
  - destruct (JS.is_whitespace c) eqn:Hc; [reflexivity |].
    rewrite trimEnd_cons. cbn [JS.trimEnd]. now rewrite Hc.
  - rewrite trimEnd_cons, IH. reflexivity.
Qed.

Lemma trimEnd_keeps_head c s :
  JS.is_whitespace c = false -> exists t, JS.trimEnd (String c s) = String c t.
Proof.
  intros Hc. cbn [JS.trimEnd]. destruct (JS.trimEnd s); [rewrite Hc |]; eauto.
Qed.

Lemma trimStart_head s :
  JS.trimStart s = EmptyString
  \/ exists c t, JS.trimStart s = String c t /\ JS.is_whitespace c = false.
Proof.
  induction s as [| c s IH]; [now left |]. cbn [JS.trimStart].
  destruct (JS.is_whitespace c) eqn:Hc; [exact IH | right; eauto].
Qed.

(** Trimming a trimmed text changes nothing. *)
Lemma trim_idempotent s : JS.trim (JS.trim s) = JS.trim s.
Proof.
  unfold JS.trim at 2 3.
  destruct (trimStart_head s) as [-> | (c & t & -> & Hc)]; [reflexivity |].
  destruct (trimEnd_keeps_head c t Hc) as [t' Ht'].
  unfold JS.trim. rewrite Ht'. cbn [JS.trimStart]. rewrite Hc, <- Ht'.
  apply trimEnd_idempotent.
Qed.

Lemma trim_keeps_head c s :
  JS.is_whitespace c = false -> JS.trim (String c s) <> EmptyString.
Proof.
  intros Hc. unfold JS.trim. cbn [JS.trimStart]. rewrite Hc.
  destruct (trimEnd_keeps_head c s Hc) as [t ->]. discriminate.
Qed.

Lemma endsWith_get s x :
  JS.endsWith s x = true ->
  forall i, (i < String.length x)%nat ->
            String.get (String.length s - String.length x + i) s = String.get i x.
Proof.
  unfold JS.endsWith. cbv zeta. intros Hends i Hi.
  apply andb_true_iff in Hends as [Hle Heq].
  apply Nat.leb_le in Hle. apply String.eqb_eq in Heq.
  rewrite <- Heq at 2. rewrite substring_correct1 by exact Hi.
  f_equal. lia.
Qed.

(** Two suffixes of one text end with the same character. *)
Lemma endsWith_same_end s x y :
  JS.endsWith s x = true -> JS.endsWith s y = true ->
  (0 < String.length x)%nat -> (0 < String.length y)%nat ->
  String.get (String.length x - 1) x = String.get (String.length y - 1) y.
Proof.
  intros Hx Hy Hlx Hly.
  pose proof (endsWith_get s x Hx (String.length x - 1)%nat ltac:(lia)) as Ex.
  pose proof (endsWith_get s y Hy (String.length y - 1)%nat ltac:(lia)) as Ey.
  assert (Hsx : (String.length x <= String.length s)%nat).
  { unfold JS.endsWith in Hx. apply andb_true_iff in Hx as [Hle _].
    now apply Nat.leb_le in Hle. }
  assert (Hsy : (String.length y <= String.length s)%nat).
  { unfold JS.endsWith in Hy. apply andb_true_iff in Hy as [Hle _].
    now apply Nat.leb_le in Hle. }
  rewrite <- Ex, <- Ey. f_equal. lia.
Qed.

Ltac other_suffix Hbin :=
  match goal with
  | |- JS.endsWith ?s ?x = false =>
      destruct (JS.endsWith s x) eqn:Hother; [exfalso | reflexivity];
      unfold is_binary_document in Hbin;
      repeat (apply orb_true_iff in Hbin as [Hbin | Hbin]);
      match type of Hbin with
      | JS.endsWith _ ?y = true =>
          pose proof (endsWith_same_end s x y Hother Hbin
                        ltac:(cbn; lia) ltac:(cbn; lia)) as Hend;
          vm_compute in Hend; discriminate
      end
  end.

(** The fallback extractor does not read a binary document: it answers
    with the placeholder. *)
Lemma fallback_binary fileData path w :
  is_binary_document (JS.toLowerCase path) = true ->
  extractTextFromFileFallback fileData (Some path) w
  = (w, Returned (placeholder (JS.toLowerCase path) (blob_size fileData))).
Proof.
  intros Hbin. unfold extractTextFromFileFallback. cbv zeta.
  assert (Htxt : JS.endsWith (JS.toLowerCase path) ".txt" = false) by other_suffix Hbin.
  assert (Hmd : JS.endsWith (JS.toLowerCase path) ".md" = false) by other_suffix Hbin.
  assert (Hjson : JS.endsWith (JS.toLowerCase path) ".json" = false) by other_suffix Hbin.
  assert (Hcsv : JS.endsWith (JS.toLowerCase path) ".csv" = false) by other_suffix Hbin.
  rewrite Htxt, Hmd, Hjson, Hcsv, Hbin. reflexivity.
Qed.

Lemma placeholder_not_blank fileName fileSize :
  JS.trim (placeholder fileName fileSize) <> EmptyString.
Proof.
  unfold placeholder.
  change ("Document: " ++ ?x)%string with (String "D" ("ocument: " ++ x)%string).
  now apply trim_keeps_head.
Qed.

(** The text a binary document is chunked from: the Markdown the
    service delivers, or else the placeholder. *)
Definition binary_text (unstructuredApiKey : option string)
    (unstructured_service : Blob -> string -> unstructured_reply)
    (fileData : Blob) (path : string) : string :=
  match delivered unstructuredApiKey unstructured_service fileData path with
  | Some markdown => markdown
  | None => placeholder (JS.toLowerCase path) (blob_size fileData)
  end.

(** X7. In the Markdown version of document processing, a request for a
    file with a binary office extension (pdf, docx, doc, xlsx, xls,
    pptx) cannot fail once the download has succeeded, whatever the file
    holds and whatever the conversion service does: the text is the
    Markdown the service delivers or else a placeholder naming the file,
    an embedding is requested for each of its chunks, and the statuses
    written are processing then completed. *)
Theorem binary_document_always_completes (e : env) (unstructuredApiKey : option string)
    (unstructured_service : Blob -> string -> unstructured_reply)
    (id path : string) (fileData : Blob) :
  req_method e <> "OPTIONS"%string ->
  req_body e = Some (mkBody (Some id) (Some path)) ->
  storage_download e (Some path) = inl fileData ->
  is_binary_document (JS.toLowerCase path) = true ->
  exists calls,
    Markdown.serve e unstructuredApiKey unstructured_service initial
    = (mkWorld true calls,
       Returned (Success (length (chunkMarkdown
                                    (binary_text unstructuredApiKey unstructured_service
                                                 fileData path) 1000 200))))
    /\ embedding_inputs calls
       = map content (chunkMarkdown
                        (binary_text unstructuredApiKey unstructured_service
                                     fileData path) 1000 200)
    /\ status_updates id calls = [processing; completed].
Proof.
  intros Hmethod Hbody Hdl Hbin. apply String.eqb_neq in Hmethod.
  set (doc_text := binary_text unstructuredApiKey unstructured_service fileData path).
  destruct (convert_run unstructuredApiKey unstructured_service fileData path)
    as (logs & Hlogs & Hrun).
  assert (Hext : forall w,
             convertToMarkdownWithUnstructured unstructuredApiKey unstructured_service
               fileData (Some path) w = (after w logs, Returned doc_text)).
  { intros w. rewrite Hrun. unfold doc_text, binary_text.
    destruct (delivered unstructuredApiKey unstructured_service fileData path);
      [reflexivity |].
    now rewrite fallback_binary. }
  assert (Hblank : blank doc_text = false).
  { apply blank_false. unfold doc_text, binary_text, delivered.
    destruct (truthy unstructuredApiKey); [| apply placeholder_not_blank].
    destruct (unstructured_service fileData (file_name path));
      try apply placeholder_not_blank.
    destruct (JS.trim (render_elements result "")) as [| c t] eqn:Htrim;
      [apply placeholder_not_blank |].
    rewrite <- Htrim, trim_idempotent, Htrim. discriminate. }
  set (w1 := mkWorld true []).
  destruct (ingest_returns e
              (convertToMarkdownWithUnstructured unstructuredApiKey unstructured_service)
              (fun markdownContent => chunkMarkdown markdownContent 1000 200)
              "text-embedding-3-small" false
              "No content could be extracted from the file"
              (Some id) (Some path) fileData doc_text logs w1 Hdl (Hext _) Hblank)
    as (batch & Hingest & Hs & Hi & _).
  destruct (quiet_silent logs Hlogs) as (Hls & _ & Hli).
  exists ([UpdateStatus (Some id) processing; Download (Some path)]
          ++ logs ++ batch ++ [UpdateStatus (Some id) completed]).
  split; [| split].
  - unfold Markdown.serve, serve_part001_markdown, serve_outer.
    rewrite Hmethod, Hbody. cbn [req_json initial bodyUsed trace documentId filePath].
    unfold try_catch. fold w1. rewrite Hingest. reflexivity.
  - rewrite !embedding_inputs_app, Hli, Hi. cbn. now rewrite app_nil_r.
  - rewrite !status_updates_app, Hls, Hs. cbn.
    destruct (decide (id = id)); [reflexivity | congruence].
Qed.

Lemma binary_document_always_completes_witness :
  exists calls,
    Markdown.serve
      (mkEnv "POST" (Some (mkBody (Some "doc-1") (Some "user/Plan.PDF")))
         (fun _ => inl (mkBlob (Thrown "unreadable") 12))
         (fun _ _ _ => ReplyOk []) (fun _ _ => None))
      None (fun _ _ => ElementsBroken "no service") initial
    = (mkWorld true calls,
       Returned (Success (length (chunkMarkdown
                                    (placeholder "user/plan.pdf" 12) 1000 200))))
    /\ embedding_inputs calls
       = map content (chunkMarkdown (placeholder "user/plan.pdf" 12) 1000 200)
    /\ status_updates "doc-1" calls = [processing; completed].
Proof.
  apply (binary_document_always_completes
           (mkEnv "POST" (Some (mkBody (Some "doc-1") (Some "user/Plan.PDF")))
              (fun _ => inl (mkBlob (Thrown "unreadable") 12))
              (fun _ _ _ => ReplyOk []) (fun _ _ => None))
           None (fun _ _ => ElementsBroken "no service")
           "doc-1" "user/Plan.PDF" (mkBlob (Thrown "unreadable") 12)).
  - discriminate.
  - reflexivity.
  - reflexivity.
  - reflexivity.
Defined.

End BinaryDocuments.


Section Pacing.
Import Eff Chunker Pipeline.



Variable e : env.
Variable model : string.
Variable with_text : bool.






(** X9. Every row the batch loop stores carries as [token_count] the
    estimate [ceil (length / 4)] of its own content: four times the
    count is at least the length of the content and exceeds it by less
    than four. *)
Theorem stored_token_counts (documentId : option string) (chunks : list TextChunk)
    (w : world) :
  Forall (fun row =>
            token_count row = estimateTokens (row_content row)
            /\ (JS.length (row_content row) <= 4 * token_count row
                < JS.length (row_content row) + 4)%Z)
         (stored_rows
            (drop (length (trace w))
                  (trace (fst (batch_loop e model with_text documentId chunks 0 w))))).
Proof.
  destruct (batch_loop_spec e model with_text documentId chunks (length chunks) 0%nat w)
    as (evs & Hrun & _ & _ & Hrows & _); [lia |].
  rewrite Hrun. cbn [fst after trace]. rewrite drop_app_length.
  eapply Forall_impl; [apply (rows_of_lookup _ _ _ _ Hrows) |].
  intros row (j & chunk & v & _ & _ & ->). cbn. split; [reflexivity |].
  unfold estimateTokens, JS.length.
  pose proof (Z.div_mod (Z.of_nat (String.length (content chunk)) + 3) 4 ltac:(lia)).
  pose proof (Z.mod_pos_bound (Z.of_nat (String.length (content chunk)) + 3) 4
                ltac:(lia)).
  lia.
Qed.

End Pacing.

(* ===================================================================== *)
(** * The maintenance pass and the conversation window                    *)
(* ===================================================================== *)

Section MaintenanceFacts.
Import Eff Maintenance.

(** X10. The statement that releases stuck documents keeps the set of
    documents, leaves none of them in [processing], stamps the ones it
    moves to [failed] with the current time, leaves every other
    document as it was, and changes nothing when it is run again. *)
Theorem fail_stuck_documents_settles (now later : Z)
    (documents : gmap string document) :
  let released := fail_stuck_documents now documents in
  dom released = dom documents
  /\ (forall id d, released !! id = Some d -> upload_status d <> processing)
  /\ (forall id d, documents !! id = Some d ->
        released !! id
        = Some (if decide (upload_status d = processing)
                then mkDocument failed now else d))
  /\ fail_stuck_documents later released = released.
Proof.
  cbv zeta. unfold fail_stuck_documents. repeat split.
  - apply dom_fmap_L.
  - intros id d Hd. rewrite lookup_fmap in Hd.
    destruct (documents !! id) as [d0 |]; [| discriminate].
    cbn in Hd. injection Hd as <-.
    destruct (decide (upload_status d0 = processing)); [discriminate | assumption].
  - intros id d Hd. now rewrite lookup_fmap, Hd.
  - rewrite <- map_fmap_compose. apply map_fmap_ext. intros id d _. cbn.
    destruct (decide (upload_status d = processing)) as [Hp | Hp]; cbn.
    + reflexivity.
    + destruct (decide (upload_status d = processing)); [contradiction | reflexivity].
Qed.

End MaintenanceFacts.

Section HistoryFacts.
Import Chat.

(** X11. Of the messages that precede a question the model is shown the
    last six: the client sends the last ten, the chat function keeps the
    last six of those, and the two cuts together are the last six of the
    whole conversation. *)
Theorem history_reaches_model (messages : list turn) :
  recentHistory (Some (Client.history_window messages))
  = drop (length messages - 6) messages
  /\ (length (recentHistory (Some (Client.history_window messages))) <= 6)%nat
  /\ ((length messages <= 6)%nat ->
      recentHistory (Some (Client.history_window messages)) = messages).
Proof.
  unfold recentHistory, Client.history_window.
  assert (drop (length (drop (length messages - 10) messages) - 6)
               (drop (length messages - 10) messages)
          = drop (length messages - 6) messages) as ->.
  { rewrite drop_drop, length_drop. f_equal. lia. }
  repeat split.
  - rewrite length_drop. lia.
  - intros Hshort. replace (length messages - 6)%nat with 0%nat by lia. reflexivity.
Qed.

End HistoryFacts.

(* ===================================================================== *)
(** * Properties of the knowledge functions                               *)
(* ===================================================================== *)

Section HtmlFacts.
Import Knowledge.
Local Open Scope string_scope.

(** White space in [s] is made of single blanks; with [after_space],
    [s] does not begin with one either. *)
Fixpoint spaced (after_space : bool) (s : string) : bool :=
  match s with
  | EmptyString => true
  | String c s' =>
      if JS.is_whitespace c
      then Ascii.eqb c " " && negb after_space && spaced true s'
      else spaced false s'
  end.

Lemma collapse_spaced s : forall b, spaced b (collapse_spaces_from b s) = true.
Proof.
  induction s as [| c s IH]; intros b; [reflexivity |].
  cbn [collapse_spaces_from].
  destruct (JS.is_whitespace c) eqn:Hc.
  - destruct b; [apply IH |].
    cbn [spaced]. change (JS.is_whitespace " ") with true. cbn. apply IH.
  - cbn [spaced]. rewrite Hc. apply IH.
Qed.

Lemma trimStart_spaced s : forall b, spaced b s = true -> spaced true (JS.trimStart s) = true.
Proof.
  induction s as [| c s IH]; intros b Hs; [reflexivity |].
  cbn [JS.trimStart]. cbn [spaced] in Hs.
  destruct (JS.is_whitespace c) eqn:Hc.
  - apply andb_true_iff in Hs as [_ Hs]. now apply (IH true).
  - cbn [spaced]. now rewrite Hc.
Qed.

Lemma trimEnd_spaced s : forall b, spaced b s = true -> spaced b (JS.trimEnd s) = true.
Proof.
  induction s as [| c s IH]; intros b Hs; [reflexivity |].
  rewrite trimEnd_cons. cbn [spaced] in Hs.
  destruct (JS.is_whitespace c) eqn:Hc.
  - apply andb_true_iff in Hs as [Hhead Hs]. apply IH in Hs.
    destruct (JS.trimEnd s) as [| d t]; [reflexivity |].
    cbn [spaced]. rewrite Hc. cbn [spaced] in Hs. now rewrite Hhead.
  - apply IH in Hs.
    destruct (JS.trimEnd s) as [| d t]; cbn [spaced]; now rewrite Hc.
Qed.

Lemma trimEnd_last s :
  forall i c,
    String.get i (JS.trimEnd s) = Some c ->
    String.get (S i) (JS.trimEnd s) = None ->
    JS.is_whitespace c = false.
Proof.
  induction s as [| x s IH]; intros i c Hget Hend; [discriminate |].
  rewrite trimEnd_cons in Hget, Hend.
  destruct (JS.trimEnd s) as [| d t] eqn:Ht.
  - destruct (JS.is_whitespace x) eqn:Hx; [discriminate |].
    destruct i as [| i]; [| discriminate].
    cbn in Hget. now injection Hget as <-.
  - destruct i as [| i]; [discriminate |].
    cbn [String.get] in Hget, Hend. now apply (IH i).
Qed.

Lemma spaced_get s :
  forall b i c,
    spaced b s = true ->
    String.get i s = Some c ->
    JS.is_whitespace c = true ->
    c = " "%char
    /\ (b = true -> i <> 0%nat)
    /\ forall d, String.get (S i) s = Some d -> JS.is_whitespace d = false.
Proof.
  induction s as [| x s IH]; intros b i c Hs Hget Hc; [discriminate |].
  cbn [spaced] in Hs. destruct i as [| i].
  - cbn in Hget. injection Hget as ->. rewrite Hc in Hs.
    apply andb_true_iff in Hs as [Hhead Hs]. apply andb_true_iff in Hhead as [Hx Hb].
    apply Ascii.eqb_eq in Hx. split; [exact Hx |]. split.
    + intros ->. discriminate.
    + intros d Hd. cbn [String.get] in Hd.
      destruct s as [| y s]; [discriminate |]. cbn in Hd. injection Hd as ->.
      cbn [spaced] in Hs. destruct (JS.is_whitespace d); [| reflexivity].
      apply andb_true_iff in Hs as [Hs _]. apply andb_true_iff in Hs as [_ Hs].
      discriminate.
  - cbn [String.get] in Hget.
    assert (exists b', spaced b' s = true) as [b' Hs'].
    { destruct (JS.is_whitespace x).
      - apply andb_true_iff in Hs as [_ Hs]. now exists true.
      - now exists false. }
    destruct (IH b' i c Hs' Hget Hc) as (-> & _ & Hnext).
    split; [reflexivity |]. split; [discriminate |]. exact Hnext.
Qed.

Lemma extractTextFromHTML_spaced html : spaced true (extractTextFromHTML html) = true.
Proof.
  unfold extractTextFromHTML, JS.trim.
  apply trimEnd_spaced, (trimStart_spaced _ false), collapse_spaced.
Qed.

Lemma split_no_sep sep s :
  (forall i, String.get i s <> Some sep) -> JS.split sep s = [s].
Proof.
  induction s as [| c s IH]; intros Hfree; [reflexivity |].
  cbn [JS.split]. destruct (Ascii.eqb_spec c sep) as [-> | _].
  - now destruct (Hfree 0%nat).
  - rewrite IH; [reflexivity |]. intros i. apply (Hfree (S i)).
Qed.

Lemma extractTextFromHTML_one_line html :
  JS.split JS.LF (extractTextFromHTML html) = [extractTextFromHTML html].
Proof.
  apply split_no_sep. intros i Hget.
  destruct (spaced_get _ _ _ _ (extractTextFromHTML_spaced html) Hget eq_refl)
    as (Hblank & _).
  discriminate.
Qed.

(** X12. The text [extractTextFromHTML] returns is normalised, whatever
    the page: it is its own [trim], every white-space character in it
    is a blank (so it holds no line break), and a blank is never the
    first or the last character nor followed by another blank. *)
Theorem extractTextFromHTML_normal (html : string) :
  let text := extractTextFromHTML html in
  JS.trim text = text
  /\ forall i c,
       String.get i text = Some c ->
       JS.is_whitespace c = true ->
       c = " "%char
       /\ i <> 0%nat
       /\ exists d, String.get (S i) text = Some d /\ JS.is_whitespace d = false.
Proof.
  cbv zeta. pose proof (extractTextFromHTML_spaced html) as Hspaced.
  unfold extractTextFromHTML in *.
  set (collapsed := collapse_spaces _) in *.
  split; [apply trim_idempotent |].
  intros i c Hget Hc.
  destruct (spaced_get _ _ _ _ Hspaced Hget Hc) as (-> & Hfirst & Hnext).
  split; [reflexivity |]. split; [now apply Hfirst |].
  destruct (String.get (S i) (JS.trim collapsed)) as [d |] eqn:Hd.
  - exists d. split; [reflexivity | now apply Hnext].
  - unfold JS.trim in Hget, Hd. pose proof (trimEnd_last _ _ _ Hget Hd) as Hlast.
    cbn in Hlast. discriminate.
Qed.

(** No [<] of [s] is followed, anywhere later, by a [>]: [s] holds
    nothing the pattern [<[^>]*>] matches. *)
Fixpoint tag_free (s : string) : bool :=
  match s with
  | EmptyString => true
  | String c s' =>
      negb (Ascii.eqb c "<" && bool_decide (is_Some (index_of ">" s'))) && tag_free s'
  end.

Lemma index_of_cons c x s :
  index_of c (String x s) = if Ascii.eqb x c then Some 0%nat else option_map S (index_of c s).
Proof. reflexivity. Qed.

Lemma index_of_None_cons c x s :
  index_of c (String x s) = None <-> Ascii.eqb x c = false /\ index_of c s = None.
Proof.
  rewrite index_of_cons. destruct (Ascii.eqb x c); [split; [discriminate | now intros []] |].
  destruct (index_of c s); cbn; split; try discriminate; try tauto.
  now intros [_ ?].
Qed.

Lemma whitespace_not_bracket c :
  JS.is_whitespace c = true -> Ascii.eqb c ">" = false /\ Ascii.eqb c "<" = false.
Proof.
  intros Hc. split.
  - destruct (Ascii.eqb_spec c ">") as [-> | _]; [discriminate | reflexivity].
  - destruct (Ascii.eqb_spec c "<") as [-> | _]; [discriminate | reflexivity].
Qed.

Lemma replace_tags_open s :
  forall k, index_of ">" s = None -> index_of ">" (replace_tags_from k s) = None.
Proof.
  induction s as [| c s IH]; intros k Hopen; [reflexivity |].
  apply index_of_None_cons in Hopen as [Hc Hopen].
  cbn [replace_tags_from]. destruct k as [| k]; [| now apply IH].
  destruct (Ascii.eqb c "<").
  - rewrite Hopen. apply index_of_None_cons. split; [exact Hc | now apply IH].
  - apply index_of_None_cons. split; [exact Hc | now apply IH].
Qed.

Lemma replace_tags_tag_free s : forall k, tag_free (replace_tags_from k s) = true.
Proof.
  induction s as [| c s IH]; intros k; [reflexivity |].
  cbn [replace_tags_from]. destruct k as [| k]; [| apply IH].
  destruct (Ascii.eqb c "<") eqn:Hc.
  - destruct (index_of ">" s) as [j |] eqn:Hclose.
    + cbn [tag_free]. change (Ascii.eqb " " "<") with false. cbn [andb negb]. apply IH.
    + cbn [tag_free]. rewrite (replace_tags_open s 0 Hclose), IH.
      rewrite bool_decide_eq_false_2 by (intros [? ?]; discriminate).
      now rewrite andb_false_r.
  - cbn [tag_free]. rewrite Hc, IH. reflexivity.
Qed.

Lemma collapse_open s :
  forall b, index_of ">" s = None -> index_of ">" (collapse_spaces_from b s) = None.
Proof.
  induction s as [| c s IH]; intros b Hopen; [reflexivity |].
  apply index_of_None_cons in Hopen as [Hc Hopen].
  cbn [collapse_spaces_from].
  destruct (JS.is_whitespace c); [destruct b |];
    try apply index_of_None_cons; auto.
Qed.

Lemma tag_free_cons c s :
  tag_free (String c s) = true
  <-> (Ascii.eqb c "<" = true -> index_of ">" s = None) /\ tag_free s = true.
Proof.
  cbn [tag_free]. rewrite andb_true_iff, negb_true_iff, andb_false_iff.
  split; intros [Hhead Hrest]; (split; [| exact Hrest]).
  - intros Hc. destruct Hhead as [Hhead | Hhead]; [congruence |].
    apply bool_decide_eq_false in Hhead.
    destruct (index_of ">" s); [destruct Hhead; eauto | reflexivity].
  - destruct (Ascii.eqb c "<"); [right | now left].
    rewrite Hhead by reflexivity. apply bool_decide_eq_false. intros [? ?]. discriminate.
Qed.

Lemma collapse_tag_free s :
  forall b, tag_free s = true -> tag_free (collapse_spaces_from b s) = true.
Proof.
  induction s as [| c s IH]; intros b Hfree; [reflexivity |].
  apply tag_free_cons in Hfree as [Hhead Hfree].
  cbn [collapse_spaces_from].
  destruct (JS.is_whitespace c) eqn:Hc; [destruct b |].
  - now apply IH.
  - apply tag_free_cons. split; [discriminate | now apply IH].
  - apply tag_free_cons. split; [| now apply IH].
    intros Hopen. apply collapse_open. now apply Hhead.
Qed.

Lemma trimStart_tag_free s : tag_free s = true -> tag_free (JS.trimStart s) = true.
Proof.
  induction s as [| c s IH]; intros Hfree; [reflexivity |].
  cbn [JS.trimStart]. destruct (JS.is_whitespace c); [| exact Hfree].
  apply tag_free_cons in Hfree as [_ Hfree]. now apply IH.
Qed.

Lemma trimEnd_open s : index_of ">" s = None -> index_of ">" (JS.trimEnd s) = None.
Proof.
  induction s as [| c s IH]; intros Hopen; [reflexivity |].
  apply index_of_None_cons in Hopen as [Hc Hopen]. rewrite trimEnd_cons.
  specialize (IH Hopen).
  destruct (JS.trimEnd s); [destruct (JS.is_whitespace c); [reflexivity |] |];
    apply index_of_None_cons; auto.
Qed.

Lemma trimEnd_tag_free s : tag_free s = true -> tag_free (JS.trimEnd s) = true.
Proof.
  induction s as [| c s IH]; intros Hfree; [reflexivity |].
  apply tag_free_cons in Hfree as [Hhead Hfree]. rewrite trimEnd_cons.
  specialize (IH Hfree). pose proof (trimEnd_open s) as Hopen.
  destruct (JS.trimEnd s) as [| d t].
  - destruct (JS.is_whitespace c); [reflexivity |].
    apply tag_free_cons. split; [reflexivity | reflexivity].
  - apply tag_free_cons. split; [| exact IH]. intros Hc. apply Hopen. now apply Hhead.
Qed.

Lemma extractTextFromHTML_tag_free html : tag_free (extractTextFromHTML html) = true.
Proof.
  unfold extractTextFromHTML, JS.trim, collapse_spaces, replace_tags.
  apply trimEnd_tag_free, trimStart_tag_free, collapse_tag_free, replace_tags_tag_free.
Qed.

(* On a text without tags the replacements that remove markup change
   nothing. *)
Lemma lower_bracket c : JS.lower_char c = "<"%char -> c = "<"%char.
Proof.
  destruct c as [[] [] [] [] [] [] [] []]; vm_compute; intros H; congruence.
Qed.

Lemma index_of_drop c n :
  forall s, index_of c s = None -> index_of c (drop_string n s) = None.
Proof.
  induction n as [| n IH]; intros [| x s] Hopen; try exact Hopen.
  cbn [drop_string]. apply index_of_None_cons in Hopen as [_ Hopen]. now apply IH.
Qed.

Lemma block_match_tag_free name closing c s :
  tag_free (String c s) = true ->
  block_match (String "<" name) closing (String c s) = None.
Proof.
  intros Hfree. apply tag_free_cons in Hfree as [Hhead _].
  unfold block_match. cbn [startsWith_ci].
  destruct (eqb_ci "<" c) eqn:Hc; [| reflexivity].
  unfold eqb_ci in Hc. apply Ascii.eqb_eq, lower_bracket in Hc. subst c.
  destruct (startsWith_ci name s); [| reflexivity]. cbn [andb].
  cbn [String.length drop_string].
  now rewrite (index_of_drop ">" (String.length name) s (Hhead eq_refl)).
Qed.

Lemma remove_blocks_tag_free name closing s :
  tag_free s = true -> remove_blocks (String "<" name) closing s = s.
Proof.
  unfold remove_blocks. induction s as [| c s IH]; intros Hfree; [reflexivity |].
  cbn [remove_blocks_from]. rewrite (block_match_tag_free name closing c s Hfree).
  apply tag_free_cons in Hfree as [_ Hfree]. now rewrite IH.
Qed.

Lemma replace_tags_tag_free_id s : tag_free s = true -> replace_tags s = s.
Proof.
  unfold replace_tags. induction s as [| c s IH]; intros Hfree; [reflexivity |].
  apply tag_free_cons in Hfree as [Hhead Hfree].
  cbn [replace_tags_from]. rewrite (IH Hfree).
  destruct (Ascii.eqb c "<"); [| reflexivity].
  now rewrite (Hhead eq_refl).
Qed.

Lemma collapse_spaced_id s : forall b, spaced b s = true -> collapse_spaces_from b s = s.
Proof.
  induction s as [| c s IH]; intros b Hs; [reflexivity |].
  cbn [spaced] in Hs. cbn [collapse_spaces_from].
  destruct (JS.is_whitespace c).
  - apply andb_true_iff in Hs as [Hhead Hs]. apply andb_true_iff in Hhead as [Hc Hb].
    apply Ascii.eqb_eq in Hc as ->. destruct b; [discriminate |]. now rewrite IH.
  - now rewrite IH.
Qed.

Lemma spaced_weaken s : spaced true s = true -> spaced false s = true.
Proof.
  destruct s as [| c s]; [reflexivity |]. cbn [spaced].
  destruct (JS.is_whitespace c); [| auto].
  intros Hs. apply andb_true_iff in Hs as [Hhead _].
  apply andb_true_iff in Hhead as [_ Hb]. discriminate.
Qed.

(** X13. The text [extractTextFromHTML] returns holds no tag, none of
    its [<] being followed anywhere by a [>], and it is stable:
    extracting from it again returns it unchanged. *)
Theorem extractTextFromHTML_idempotent (html : string) :
  let text := extractTextFromHTML html in
  (forall i j,
      (i < j)%nat -> String.get i text = Some "<"%char -> String.get j text <> Some ">"%char)
  /\ extractTextFromHTML text = text.
Proof.
  cbv zeta. pose proof (extractTextFromHTML_tag_free html) as Hfree.
  pose proof (extractTextFromHTML_spaced html) as Hspaced.
  split.
  - revert Hfree. generalize (extractTextFromHTML html). clear.
    induction s as [| c s IH]; intros Hfree i j Hlt Hi Hj; [discriminate |].
    apply tag_free_cons in Hfree as [Hhead Hfree].
    destruct j as [| j]; [lia |]. cbn [String.get] in Hj.
    destruct i as [| i].
    + cbn in Hi. injection Hi as ->. specialize (Hhead eq_refl).
      clear - Hhead Hj. revert j Hj. induction s as [| d s IH]; intros j Hj; [discriminate |].
      apply index_of_None_cons in Hhead as [Hd Hhead].
      destruct j as [| j].
      * cbn in Hj. injection Hj as ->. discriminate.
      * cbn [String.get] in Hj. now apply (IH Hhead j).
    + cbn [String.get] in Hi. apply (IH Hfree i j); [lia | assumption | assumption].
  - unfold extractTextFromHTML at 1.
    rewrite (remove_blocks_tag_free "script" "</script>" _ Hfree).
    rewrite (remove_blocks_tag_free "style" "</style>" _ Hfree).
    rewrite replace_tags_tag_free_id by exact Hfree.
    unfold collapse_spaces. rewrite collapse_spaced_id by now apply spaced_weaken.
    unfold extractTextFromHTML. apply trim_idempotent.
Qed.

End HtmlFacts.


Section KnowledgeFacts.
Import Eff Knowledge KnowledgeFunctions.
Local Open Scope string_scope.

(** The rows the calls stored in [public.knowledge_base]. *)
Definition stored_knowledge (calls : list call) : list knowledge_row :=
  omap (fun c => match c with InsertKnowledge row true => Some row | _ => None end) calls.

(** The pages the calls fetched. *)
Definition fetched (calls : list call) : list string :=
  omap (fun c => match c with FetchUrl url => Some url | _ => None end) calls.

(** The user the authorization header stands for, if any. *)
Definition caller (e : env) (authHeader : option string) : option string :=
  if Pipeline.truthy authHeader
  then auth_user e (remove_first "Bearer " (default "" authHeader))
  else None.

(** The text [generateEmbedding] sends for [text]. *)
Definition embedded (text : string) : string :=
  if (8000 <? JS.length text)%Z then JS.substring text 0 8000 else text.

Lemma authenticate_run e authHeader w :
  authenticate e authHeader w
  = match caller e authHeader with
    | Some user_id =>
        (mkKWorld (base w)
           (calls w ++ [GetUser (remove_first "Bearer " (default "" authHeader))]),
         Returned user_id)
    | None =>
        if Pipeline.truthy authHeader
        then (mkKWorld (base w)
                (calls w ++ [GetUser (remove_first "Bearer " (default "" authHeader))]),
              Thrown "Unauthorized")
        else (w, Thrown "No authorization header")
    end.
Proof.
  unfold authenticate, caller.
  destruct (Pipeline.truthy authHeader); cbn; [| reflexivity].
  unfold Knowledge.bind, record. cbn.
  now destruct (auth_user e _).
Qed.

Lemma embedding_run e text w :
  lift (Embedder.generateEmbedding_truncating (embedding_service e) text) w
  = (mkKWorld (after (base w) [EmbeddingRequest "text-embedding-ada-002" (embedded text)])
       (calls w),
     embedding_outcome true
       (embedding_service e (trace (base w)) "text-embedding-ada-002" (embedded text))).
Proof.
  unfold lift, Embedder.generateEmbedding_truncating. cbv zeta.
  fold (embedded text). now rewrite fetch_embedding_spec.
Qed.

(** What a request that is not a preflight request leaves behind: the
    new calls and the new entries of the trace. *)
Definition new_calls (w w' : kworld) : list call :=
  drop (length (calls w)) (calls w').

Definition new_trace (w w' : kworld) : list effect :=
  drop (length (trace (base w))) (trace (base w')).

(** The run of add-manual-knowledge that stores an entry. *)
Definition manual_success (e : env) (req : request manual_body) (w w' : kworld)
    (r : response) : Prop :=
  exists body t c user v,
    json_body req = Some body
    /\ title body = Some t /\ content body = Some c
    /\ JS.trim t <> "" /\ JS.trim c <> ""
    /\ caller e (authorization req) = Some user
    /\ embedding_service e (trace (base w)) "text-embedding-ada-002" (embedded c)
       = ReplyOk v
    /\ r = Success t (JS.length c)
    /\ new_trace w w' = [EmbeddingRequest "text-embedding-ada-002" (embedded c)]
    /\ stored_knowledge (new_calls w w')
       = [mkKnowledgeRow (JS.trim t) ("Manual entry: " ++ JS.trim t) "manual" None
            (JS.trim c) v (default [] (tags body)) user].

(** A run that ends in an error response. *)
Definition knowledge_failure (e : env) (authHeader : option string) (w w' : kworld)
    (r : response) : Prop :=
  (exists details, r = Failure details)
  /\ stored_knowledge (new_calls w w') = []
  /\ (caller e authHeader = None ->
      Pipeline.embedding_inputs (new_trace w w') = [] /\ fetched (new_calls w w') = []).

Ltac knowledge_fails :=
  unfold Knowledge.bind, lift, console_error, emit, Knowledge.ret, Knowledge.throw;
  cbn [base calls trace bodyUsed after fst snd];
  do 2 eexists; split; [reflexivity |]; right;
  unfold knowledge_failure, new_calls, new_trace;
  cbn [base calls trace bodyUsed];
  rewrite <- ?app_assoc, ?drop_app_length, ?drop_all;
  (split; [eexists; reflexivity |]); (split; [reflexivity |]);
  intros Hnone; first [split; reflexivity | congruence].

Lemma manual_run e req w :
  String.eqb (method req) "OPTIONS" = false ->
  exists w' r,
    add_manual_knowledge e req w = (w', Returned r)
    /\ (manual_success e req w w' r
        \/ knowledge_failure e (authorization req) w w' r).
Proof.
  intros Hmethod. unfold add_manual_knowledge. rewrite Hmethod.
  unfold Knowledge.try_catch, Knowledge.bind at 1, on_error.
  unfold lift at 1, req_json.
  destruct (bodyUsed (base w)) eqn:Hused; [knowledge_fails |].
  destruct (json_body req) as [body |] eqn:Hbody; [| knowledge_fails].
  unfold Knowledge.bind at 1. rewrite authenticate_run.
  destruct (caller e (authorization req)) as [user |] eqn:Hcaller.
  2: { destruct (Pipeline.truthy (authorization req)); knowledge_fails. }
  destruct (blank (title body) || blank (content body)) eqn:Hblank;
    [knowledge_fails |].
  apply orb_false_iff in Hblank as [Htitle Hcontent].
  destruct (title body) as [t |] eqn:Ht; [| discriminate].
  destruct (content body) as [c |] eqn:Hc; [| discriminate].
  cbn [from_option id]. unfold Knowledge.bind at 1. rewrite embedding_run.
  cbn [base calls after trace bodyUsed].
  destruct (embedding_service e (trace (base w)) "text-embedding-ada-002" (embedded c))
    as [v | status errorText | message] eqn:Hreply; cbn [embedding_outcome].
  2, 3: knowledge_fails.
  unfold Knowledge.bind at 1, insert_knowledge. cbn [base calls].
  match goal with
  | |- context [insert_error e ?cs ?row] => destruct (insert_error e cs row)
  end; [knowledge_fails |].
  unfold Knowledge.ret. do 2 eexists. split; [reflexivity |]. left.
  exists body, t, c, user, v. unfold new_calls, new_trace.
  cbn [base calls trace after bodyUsed].
  rewrite <- app_assoc, !drop_app_length.
  repeat split; try reflexivity; try assumption.
  - intros Hempty. unfold blank in Htitle. rewrite Hempty in Htitle. discriminate.
  - intros Hempty. unfold blank in Hcontent. rewrite Hempty in Hcontent. discriminate.
Qed.

(** The title of a page whose normalised text is [text]. *)
Definition url_title (e : env) (text u : string) : string :=
  if (JS.length text <? 100)%Z then text
  else match url_hostname e u with
       | Returned hostname => "Content from " ++ hostname
       | Thrown _ => "Web Content"
       end.

Lemma title_of_page e html u :
  (50 <= JS.length (extractTextFromHTML html))%Z ->
  Url.extractTitleFromContent (url_hostname e) (extractTextFromHTML html) u
  = Returned (url_title e (extractTextFromHTML html) u).
Proof.
  intros Hlong. unfold Url.extractTitleFromContent, url_title.
  rewrite extractTextFromHTML_one_line.
  assert (JS.trim (extractTextFromHTML html) = extractTextFromHTML html) as ->
    by apply trim_idempotent.
  destruct (Z.ltb_spec 10 (JS.length (extractTextFromHTML html))); [| lia].
  cbn [andb].
  destruct (JS.length (extractTextFromHTML html) <? 100)%Z; [reflexivity |].
  now destruct (url_hostname e u).
Qed.

(** The run of process-url that stores an entry. *)
Definition url_success (e : env) (req : request url_body) (w w' : kworld)
    (r : response) : Prop :=
  exists body u user html v,
    json_body req = Some body /\ url body = Some u
    /\ caller e (authorization req) = Some user
    /\ fetch_url e u = FetchOk html
    /\ (50 <= JS.length (extractTextFromHTML html))%Z
    /\ embedding_service e (trace (base w)) "text-embedding-ada-002"
         (embedded (extractTextFromHTML html)) = ReplyOk v
    /\ r = Success (url_title e (extractTextFromHTML html) u)
                   (JS.length (extractTextFromHTML html))
    /\ new_trace w w'
       = [EmbeddingRequest "text-embedding-ada-002" (embedded (extractTextFromHTML html))]
    /\ fetched (new_calls w w') = [u]
    /\ stored_knowledge (new_calls w w')
       = [mkKnowledgeRow (url_title e (extractTextFromHTML html) u)
            ("Content extracted from: " ++ u) "url" (Some u)
            (extractTextFromHTML html) v ["url"; "web-content"] user].

Lemma url_run e req w :
  String.eqb (method req) "OPTIONS" = false ->
  exists w' r,
    process_url e req w = (w', Returned r)
    /\ (url_success e req w w' r
        \/ knowledge_failure e (authorization req) w w' r).
Proof.
  intros Hmethod. unfold process_url. rewrite Hmethod.
  unfold Knowledge.try_catch, Knowledge.bind at 1, on_error.
  unfold lift at 1, req_json.
  destruct (bodyUsed (base w)) eqn:Hused; [knowledge_fails |].
  destruct (json_body req) as [body |] eqn:Hbody; [| knowledge_fails].
  unfold Knowledge.bind at 1. rewrite authenticate_run.
  destruct (caller e (authorization req)) as [user |] eqn:Hcaller.
  2: { destruct (Pipeline.truthy (authorization req)); knowledge_fails. }
  unfold Knowledge.bind at 1, fetch.
  destruct (url body) as [u |] eqn:Hurl; [| knowledge_fails].
  unfold Knowledge.bind at 1, record. cbn [base calls].
  destruct (fetch_url e u) as [html | status statusText | message] eqn:Hfetch.
  2, 3: knowledge_fails.
  unfold Knowledge.ret at 1.
  destruct ((JS.length (extractTextFromHTML html) =? 0)%Z
            || (JS.length (JS.trim (extractTextFromHTML html)) <? 50)%Z) eqn:Hshort;
    [knowledge_fails |].
  apply orb_false_iff in Hshort as [_ Hlong]. apply Z.ltb_ge in Hlong.
  assert (JS.trim (extractTextFromHTML html) = extractTextFromHTML html) as Htrim
    by apply trim_idempotent.
  rewrite Htrim in Hlong.
  unfold Knowledge.bind at 1. cbn [from_option id]. rewrite (title_of_page e html u Hlong).
  unfold Knowledge.bind at 1. rewrite embedding_run.
  cbn [base calls after trace bodyUsed].
  destruct (embedding_service e (trace (base w)) "text-embedding-ada-002"
              (embedded (extractTextFromHTML html)))
    as [v | status errorText | message] eqn:Hreply; cbn [embedding_outcome].
  2, 3: knowledge_fails.
  unfold Knowledge.bind at 1, insert_knowledge. cbn [base calls].
  match goal with
  | |- context [insert_error e ?cs ?row] => destruct (insert_error e cs row)
  end; [knowledge_fails |].
  unfold Knowledge.ret. do 2 eexists. split; [reflexivity |]. left.
  exists body, u, user, html, v. unfold new_calls, new_trace.
  cbn [base calls trace after bodyUsed].
  rewrite <- !app_assoc, !drop_app_length.
  repeat split; try reflexivity; try assumption.
Qed.

(** X14. When add-manual-knowledge answers with a success, the request
    carried a title and a content that are not blank and came from a
    user the authorization header stands for; exactly one row was
    stored, holding the trimmed title, the trimmed content, the tags of
    the request (none when it has none) and that user; the embedding of
    the row is the one the service returned for the content as sent, cut
    to 8000 characters, and the answer reports the title and the length
    of the content as sent, not trimmed. *)
Theorem manual_entry_stored_on_success (e : env) (req : request manual_body)
    (w w' : kworld) (t : string) (n : Z) :
  add_manual_knowledge e req w = (w', Returned (Success t n)) ->
  exists body c user v,
    json_body req = Some body
    /\ title body = Some t /\ content body = Some c /\ n = JS.length c
    /\ JS.trim t <> "" /\ JS.trim c <> ""
    /\ caller e (authorization req) = Some user
    /\ embedding_service e (trace (base w)) "text-embedding-ada-002"
         (if (8000 <? JS.length c)%Z then JS.substring c 0 8000 else c) = ReplyOk v
    /\ stored_knowledge (new_calls w w')
       = [mkKnowledgeRow (JS.trim t) ("Manual entry: " ++ JS.trim t) "manual" None
            (JS.trim c) v (default [] (tags body)) user].
Proof.
  intros Hrun.
  destruct (String.eqb (method req) "OPTIONS") eqn:Hmethod.
  { unfold add_manual_knowledge in Hrun. rewrite Hmethod in Hrun. discriminate. }
  destruct (manual_run e req w Hmethod) as (w1 & r & Hrun1 & Hcase).
  rewrite Hrun in Hrun1. injection Hrun1 as <- <-.
  destruct Hcase as [Hok | ((details & Hfail) & _)]; [| discriminate].
  destruct Hok as (body & t' & c & user & v & Hbody & Ht & Hc & Hnt & Hnc & Hcaller
                   & Hreply & Hr & _ & Hstored).
  injection Hr as <- ->.
  exists body, c, user, v. repeat split; assumption.
Qed.

Definition sample_knowledge_env : env :=
  mkEnv (fun token => if String.eqb token "token-1" then Some "user-1" else None)
        (fun _ _ _ => ReplyOk [1 # 2]%Q)
        (fun _ _ => None)
        (fun _ =>
           FetchOk "<html><head><style>p { margin: 0 }</style></head><body><p>Load plans list the axle weight of every vehicle carried.</p></body></html>")
        (fun _ => Returned "example.org").

Lemma manual_entry_stored_on_success_witness :
  let req := mkRequest "POST" (Some "Bearer token-1")
               (Some (mkManualBody (Some " Axle loads ") (Some "Two axles. ") None)) in
  exists body c user v,
    json_body req = Some body
    /\ title body = Some " Axle loads " /\ content body = Some c
    /\ 11%Z = JS.length c
    /\ JS.trim " Axle loads " <> "" /\ JS.trim c <> ""
    /\ caller sample_knowledge_env (authorization req) = Some user
    /\ embedding_service sample_knowledge_env (trace (base initial))
         "text-embedding-ada-002"
         (if (8000 <? JS.length c)%Z then JS.substring c 0 8000 else c) = ReplyOk v
    /\ stored_knowledge
         (new_calls initial (fst (add_manual_knowledge sample_knowledge_env req initial)))
       = [mkKnowledgeRow (JS.trim " Axle loads ")
            ("Manual entry: " ++ JS.trim " Axle loads ") "manual" None
            (JS.trim c) v (default [] (tags body)) user].
Proof.
  cbv zeta. apply manual_entry_stored_on_success. reflexivity.
Defined.

(** X15. When process-url answers with a success, the page was fetched
    for a user the authorization header stands for and its normalised
    text is at least 50 characters long; exactly one row was stored,
    with that text as content, the url as source reference and the tags
    [url] and [web-content]; the text holding no line break, the title
    is the whole text when that is shorter than 100 characters and is
    derived from the host name otherwise. *)
Theorem url_entry_stored_on_success (e : env) (req : request url_body)
    (w w' : kworld) (t : string) (n : Z) :
  process_url e req w = (w', Returned (Success t n)) ->
  exists body u user html v,
    json_body req = Some body /\ url body = Some u
    /\ caller e (authorization req) = Some user
    /\ fetch_url e u = FetchOk html
    /\ n = JS.length (extractTextFromHTML html) /\ (50 <= n)%Z
    /\ t = (if (n <? 100)%Z then extractTextFromHTML html
            else match url_hostname e u with
                 | Returned hostname => "Content from " ++ hostname
                 | Thrown _ => "Web Content"
                 end)
    /\ fetched (new_calls w w') = [u]
    /\ stored_knowledge (new_calls w w')
       = [mkKnowledgeRow t ("Content extracted from: " ++ u) "url" (Some u)
            (extractTextFromHTML html) v ["url"; "web-content"] user].
Proof.
  intros Hrun.
  destruct (String.eqb (method req) "OPTIONS") eqn:Hmethod.
  { unfold process_url in Hrun. rewrite Hmethod in Hrun. discriminate. }
  destruct (url_run e req w Hmethod) as (w1 & r & Hrun1 & Hcase).
  rewrite Hrun in Hrun1. injection Hrun1 as <- <-.
  destruct Hcase as [Hok | ((details & Hfail) & _)]; [| discriminate].
  destruct Hok as (body & u & user & html & v & Hbody & Hurl & Hcaller & Hfetch & Hlong
                   & _ & Hr & _ & Hfetched & Hstored).
  injection Hr as -> ->.
  exists body, u, user, html, v. repeat split; assumption.
Qed.

Lemma url_entry_stored_on_success_witness :
  let req := mkRequest "POST" (Some "Bearer token-1")
               (Some (mkUrlBody (Some "https://example.org/plans"))) in
  let w' := fst (process_url sample_knowledge_env req initial) in
  exists body u user html v,
    json_body req = Some body /\ url body = Some u
    /\ caller sample_knowledge_env (authorization req) = Some user
    /\ fetch_url sample_knowledge_env u = FetchOk html
    /\ 57%Z = JS.length (extractTextFromHTML html) /\ (50 <= 57)%Z
    /\ "Load plans list the axle weight of every vehicle carried."
       = (if (57 <? 100)%Z then extractTextFromHTML html
          else match url_hostname sample_knowledge_env u with
               | Returned hostname => "Content from " ++ hostname
               | Thrown _ => "Web Content"
               end)
    /\ fetched (new_calls initial w') = [u]
    /\ stored_knowledge (new_calls initial w')
       = [mkKnowledgeRow "Load plans list the axle weight of every vehicle carried."
            ("Content extracted from: " ++ u) "url" (Some u)
            (extractTextFromHTML html) v ["url"; "web-content"] user].
Proof.
  cbv zeta. apply url_entry_stored_on_success. reflexivity.
Defined.

(** X16. An entry sent by the form of the client is stored as sent: when
    add-manual-knowledge answers with a success to a body built by
    [handleManualEntry], the title and the content of the stored row are
    the trimmed fields of the form, the answer reports that very title
    and the length of that very content, and every stored tag is
    trimmed and not empty. *)
Theorem form_entry_stored_as_sent (e : env) (req : request manual_body)
    (w w' : kworld) (t : string) (n : Z)
    (manualTitle manualContent manualTags : string) (body : manual_body) :
  Client.manual_entry manualTitle manualContent manualTags = Some body ->
  json_body req = Some body ->
  add_manual_knowledge e req w = (w', Returned (Success t n)) ->
  exists row,
    stored_knowledge (new_calls w w') = [row]
    /\ k_title row = JS.trim manualTitle /\ t = k_title row
    /\ k_content row = JS.trim manualContent /\ n = JS.length (k_content row)
    /\ Forall (fun tag => tag <> "" /\ JS.trim tag = tag) (k_tags row).
Proof.
  intros Hform Hbody Hrun.
  destruct (String.eqb (method req) "OPTIONS") eqn:Hmethod.
  { unfold add_manual_knowledge in Hrun. rewrite Hmethod in Hrun. discriminate. }
  destruct (manual_run e req w Hmethod) as (w1 & r & Hrun1 & Hcase).
  rewrite Hrun in Hrun1. injection Hrun1 as <- <-.
  destruct Hcase as [Hok | ((details & Hfail) & _)]; [| discriminate].
  destruct Hok as (body' & t' & c & user & v & Hbody' & Ht & Hc & _ & _ & _ & _ & Hr
                   & _ & Hstored).
  injection Hr as <- ->. rewrite Hbody in Hbody'. injection Hbody' as <-.
  unfold Client.manual_entry in Hform.
  destruct (JS.trim manualTitle) as [| x title'] eqn:Htitle; [discriminate |].
  destruct (JS.trim manualContent) as [| y content'] eqn:Hcontent; [discriminate |].
  injection Hform as <-. cbn [title content tags] in *.
  injection Ht as <-. injection Hc as <-.
  rewrite <- Htitle, <- Hcontent in *. rewrite !trim_idempotent in Hstored.
  eexists. split; [exact Hstored |]. cbn [k_title k_content k_tags from_option id].
  repeat split; try reflexivity.
  apply Forall_forall. intros tag Htag.
  apply list_elem_of_In, filter_In in Htag as [Hin Hfull].
  apply in_map_iff in Hin as (raw & <- & _).
  split; [| apply trim_idempotent].
  intros Hempty. rewrite Hempty in Hfull. discriminate.
Qed.

Lemma form_entry_stored_as_sent_witness :
  let body := mkManualBody (Some "Axle loads") (Some "Two axles.")
                (Some ["weights"; "axles"]) in
  let req := mkRequest "POST" (Some "Bearer token-1") (Some body) in
  exists row,
    stored_knowledge
      (new_calls initial (fst (add_manual_knowledge sample_knowledge_env req initial)))
    = [row]
    /\ k_title row = JS.trim " Axle loads " /\ "Axle loads" = k_title row
    /\ k_content row = JS.trim "Two axles. " /\ 10%Z = JS.length (k_content row)
    /\ Forall (fun tag => tag <> "" /\ JS.trim tag = tag) (k_tags row).
Proof.
  cbv zeta.
  eapply (form_entry_stored_as_sent sample_knowledge_env
            (mkRequest "POST" (Some "Bearer token-1")
               (Some (mkManualBody (Some "Axle loads") (Some "Two axles.")
                        (Some ["weights"; "axles"]))))
            initial _ "Axle loads" 10 " Axle loads " "Two axles. " "weights, ,axles");
    reflexivity.
Defined.

(** How a request to either knowledge function ends. *)
Definition settled (e : env) (authHeader : option string) (w w' : kworld)
    (r : response) : Prop :=
  length (stored_knowledge (new_calls w w'))
  = match r with Success _ _ => 1%nat | _ => 0%nat end
  /\ (caller e authHeader = None ->
      (forall t n, r <> Success t n)
      /\ Pipeline.embedding_inputs (new_trace w w') = []
      /\ fetched (new_calls w w') = []).

Lemma preflight_settled e authHeader w : settled e authHeader w w Preflight.
Proof.
  unfold settled, new_calls, new_trace. rewrite !drop_all.
  split; [reflexivity |]. intros _. repeat split. discriminate.
Qed.

Lemma failure_settled e authHeader w w' r :
  knowledge_failure e authHeader w w' r -> settled e authHeader w w' r.
Proof.
  intros ((details & ->) & Hstored & Hgate). split; [now rewrite Hstored |].
  intros Hnone. destruct (Hgate Hnone) as [Hquiet Hfetch].
  repeat split; [discriminate | assumption | assumption].
Qed.

(** X17. Both knowledge functions answer every request, never leaving
    an error uncaught; a row is stored exactly when the answer is a
    success, and then only one; and for a request whose authorization
    header is missing or stands for no user the answer is no success,
    no page is fetched and nothing is sent to the embedding service. *)
Theorem knowledge_requests_settle (e : env) (manual : request manual_body)
    (page : request url_body) (w : kworld) :
  (exists w' r,
      add_manual_knowledge e manual w = (w', Returned r)
      /\ settled e (authorization manual) w w' r)
  /\ (exists w' r,
        process_url e page w = (w', Returned r)
        /\ settled e (authorization page) w w' r).
Proof.
  split.
  - destruct (String.eqb (method manual) "OPTIONS") eqn:Hmethod.
    + exists w, Preflight. unfold add_manual_knowledge. rewrite Hmethod.
      split; [reflexivity | apply preflight_settled].
    + destruct (manual_run e manual w Hmethod) as (w' & r & Hrun & [Hok | Hfail]);
        exists w', r; (split; [exact Hrun |]); [| now apply failure_settled].
      destruct Hok as (body & t & c & user & v & _ & _ & _ & _ & _ & Hcaller & _ & ->
                       & _ & Hstored).
      split; [now rewrite Hstored |]. intros Hnone. congruence.
  - destruct (String.eqb (method page) "OPTIONS") eqn:Hmethod.
    + exists w, Preflight. unfold process_url. rewrite Hmethod.
      split; [reflexivity | apply preflight_settled].
    + destruct (url_run e page w Hmethod) as (w' & r & Hrun & [Hok | Hfail]);
        exists w', r; (split; [exact Hrun |]); [| now apply failure_settled].
      destruct Hok as (body & u & user & html & v & _ & _ & Hcaller & _ & _ & _ & ->
                       & _ & _ & Hstored).
      split; [now rewrite Hstored |]. intros Hnone. congruence.
Qed.

End KnowledgeFacts.

(* ===================================================================== *)
(** * Properties of the Markdown chunker                                  *)
(* ===================================================================== *)

Section MarkdownFacts.
Import Chunker Markdown.
Local Open Scope string_scope.

Lemma concat_cons x xs : String.concat "" (x :: xs) = x ++ String.concat "" xs.
Proof.
  destruct xs as [| y ys]; [| reflexivity].
  cbn [String.concat]. now rewrite append_empty_r.
Qed.

Lemma concat_prepend c l : String.concat "" (prepend c l) = String c (String.concat "" l).
Proof.
  destruct l as [| h t]; [reflexivity |].
  cbn [prepend]. now rewrite !concat_cons, append_cons.
Qed.

Lemma cut_concat s : forall b, String.concat "" (cut_at_headings b s) = s.
Proof.
  induction s as [| c s IH]; intros b; [reflexivity |].
  cbn [cut_at_headings].
  destruct (b && heading_here (String c s)); [rewrite concat_cons |];
    now rewrite concat_prepend, IH.
Qed.

Lemma hd_prepend c l : hd "" (prepend c l) = String c (hd "" l).
Proof. now destruct l. Qed.

Lemma tl_prepend c l : tl (prepend c l) = tl l.
Proof. now destruct l. Qed.

(** A heading: one to three hashes and a white-space character. *)
Definition heading_rest (s : string) : bool :=
  match s with
  | String c1 r1 =>
      JS.is_whitespace c1
      || (Ascii.eqb c1 "#"
          && match r1 with
             | String c2 r2 =>
                 JS.is_whitespace c2
                 || (Ascii.eqb c2 "#"
                     && match r2 with
                        | String c3 _ => JS.is_whitespace c3
                        | EmptyString => false
                        end)
             | EmptyString => false
             end)
  | EmptyString => false
  end.

Lemma heading_here_cons c s :
  heading_here (String c s) = Ascii.eqb c "#" && heading_rest s.
Proof.
  destruct c as [[] [] [] [] [] [] [] []]; reflexivity.
Qed.

Lemma first_piece c s b :
  b = false ->
  hd "" (cut_at_headings b (String c s))
  = String c (hd "" (cut_at_headings (is_line_terminator c) s)).
Proof. intros ->. cbn [cut_at_headings andb]. apply hd_prepend. Qed.

(** The piece that starts at a heading holds the whole mark of the
    heading. *)
Lemma first_piece_heading c s :
  heading_here (String c s) = true ->
  heading_here (String c (hd "" (cut_at_headings (is_line_terminator c) s))) = true.
Proof.
  rewrite !heading_here_cons. intros Hhead.
  apply andb_true_iff in Hhead as [Hc Hrest]. rewrite Hc. cbn [andb].
  apply Ascii.eqb_eq in Hc as ->.
  change (is_line_terminator "#") with false.
  destruct s as [| c1 r1]; [discriminate |].
  rewrite first_piece by reflexivity. cbn [heading_rest] in *.
  destruct (JS.is_whitespace c1); [reflexivity |]. cbn [orb] in *.
  apply andb_true_iff in Hrest as [Hc1 Hrest]. rewrite Hc1. cbn [andb].
  apply Ascii.eqb_eq in Hc1 as ->.
  change (is_line_terminator "#") with false.
  destruct r1 as [| c2 r2]; [discriminate |].
  rewrite first_piece by reflexivity.
  destruct (JS.is_whitespace c2); [reflexivity |]. cbn [orb] in *.
  apply andb_true_iff in Hrest as [Hc2 Hrest]. rewrite Hc2. cbn [andb].
  apply Ascii.eqb_eq in Hc2 as ->.
  change (is_line_terminator "#") with false.
  destruct r2 as [| c3 r3]; [discriminate |].
  destruct (cut_at_headings false (String c3 r3)) as [| h t] eqn:Hcut.
  - cbn [cut_at_headings andb] in Hcut. now destruct (cut_at_headings _ r3).
  - cbn [cut_at_headings andb] in Hcut.
    destruct (cut_at_headings _ r3); cbn [prepend] in Hcut; injection Hcut as <- _;
      exact Hrest.
Qed.

Lemma cut_heads s :
  forall b, Forall (fun piece => heading_here piece = true) (tl (cut_at_headings b s)).
Proof.
  induction s as [| c s IH]; intros b; [constructor |].
  cbn [cut_at_headings].
  destruct (b && heading_here (String c s)) eqn:Hcut.
  - cbn [tl]. apply andb_true_iff in Hcut as [_ Hhead].
    pose proof (first_piece_heading c s Hhead) as Hpiece.
    pose proof (IH (is_line_terminator c)) as Hrest.
    destruct (cut_at_headings (is_line_terminator c) s) as [| h t];
      cbn [prepend hd tl] in *; constructor; auto.
  - rewrite tl_prepend. apply IH.
Qed.

(** X18. Splitting a Markdown text into sections loses nothing and
    cuts only before headings: the sections, joined, are the text again;
    every section after the first begins with one to three hashes
    followed by a white-space character; and the text is not cut at its
    very beginning, so the first section is empty only for the empty
    text. *)
Theorem split_sections_round_trip (content : string) :
  String.concat "" (split_sections content) = content
  /\ Forall (fun section => heading_here section = true) (tl (split_sections content))
  /\ (hd "" (split_sections content) = "" -> content = "").
Proof.
  unfold split_sections. destruct content as [| c s].
  - repeat split. constructor.
  - split; [now rewrite concat_prepend, cut_concat |].
    split; [rewrite tl_prepend; apply cut_heads |].
    rewrite hd_prepend. discriminate.
Qed.

Local Open Scope Z_scope.

(** The chunks of sections that each fit one chunk, the first of them
    starting at [index]. *)
Fixpoint section_chunks (index : Z) (sections : list string) : list TextChunk :=
  match sections with
  | [] => []
  | section :: rest =>
      app (if JS.length (JS.trim section) =? 0 then []
           else [mkChunk (JS.trim section) index (index + JS.length section)])
          (section_chunks (index + JS.length section) rest)
  end.

Lemma fold_small_sections maxChunkSize overlap sections :
  Forall (fun section => JS.length section <= maxChunkSize) sections ->
  forall chunks index,
    fst (fold_left (add_section maxChunkSize overlap) sections (chunks, index))
    = app chunks (section_chunks index sections).
Proof.
  induction 1 as [| section rest Hfit _ IH]; intros chunks index.
  - cbn. now rewrite app_nil_r.
  - cbn [fold_left section_chunks]. unfold add_section at 2. cbn [fst snd].
    destruct (JS.length (JS.trim section) =? 0).
    + now rewrite IH.
    + destruct (Z.leb_spec (JS.length section) maxChunkSize); [| lia].
      now rewrite IH, <- app_assoc.
Qed.

Lemma length_append (a b : string) :
  String.length (a ++ b) = (String.length a + String.length b)%nat.
Proof. induction a as [| c a IH]; [reflexivity |]. rewrite append_cons. cbn. now rewrite IH. Qed.

Lemma substring_head s : forall rest, String.substring 0 (String.length s) (s ++ rest) = s.
Proof.
  induction s as [| c s IH]; intros rest.
  - apply substring_none.
  - rewrite append_cons. cbn. now rewrite IH.
Qed.

Lemma substring_middle before s rest :
  String.substring (String.length before) (String.length s) (before ++ s ++ rest) = s.
Proof.
  induction before as [| c before IH]; [exact (substring_head s rest) |].
  rewrite append_cons. cbn. exact IH.
Qed.

Lemma slice_middle before s rest :
  JS.slice (before ++ s ++ rest) (JS.length before) (JS.length before + JS.length s) = s.
Proof.
  rewrite slice_inside.
  - unfold JS.length.
    replace (Z.to_nat (Z.of_nat (String.length before) + Z.of_nat (String.length s)
                       - Z.of_nat (String.length before))) with (String.length s) by lia.
    rewrite Nat2Z.id. apply substring_middle.
  - unfold JS.length. rewrite !length_append. lia.
  - unfold JS.length. rewrite !length_append. lia.
Qed.

(** A chunk that is a section of [text], trimmed, at its place. *)
Definition section_of (text : string) (chunk : TextChunk) : Prop :=
  content chunk = JS.trim (JS.slice text (startIndex chunk) (endIndex chunk))
  /\ content chunk <> ""
  /\ 0 <= startIndex chunk < endIndex chunk
  /\ endIndex chunk <= JS.length text
  /\ (startIndex chunk = 0
      \/ heading_here (JS.slice text (startIndex chunk) (endIndex chunk)) = true).

Lemma section_chunks_places text sections :
  forall before,
    text = before ++ String.concat "" sections ->
    Forall (fun section => before = "" \/ heading_here section = true) (take 1 sections) ->
    Forall (fun section => heading_here section = true) (drop 1 sections) ->
    Forall (fun chunk => section_of text chunk /\ JS.length before <= startIndex chunk)
           (section_chunks (JS.length before) sections)
    /\ StronglySorted (fun a b => endIndex a <= startIndex b)
                      (section_chunks (JS.length before) sections).
Proof.
  induction sections as [| section rest IH]; intros before Htext Hfirst Hrest.
  - split; constructor.
  - rewrite concat_cons in Htext. cbn [section_chunks].
    assert (text = (before ++ section) ++ String.concat "" rest) as Hnext
      by now rewrite append_assoc.
    assert (JS.length (before ++ section) = JS.length before + JS.length section)
      as Hlen by (unfold JS.length; rewrite length_append; lia).
    destruct (IH (before ++ section) Hnext) as [Hplaces Hsorted].
    { destruct rest as [| next rest']; [constructor |].
      cbn [take]. constructor; [| constructor]. right.
      cbn [drop] in Hrest. now inversion Hrest. }
    { destruct rest as [| next rest']; [constructor |].
      cbn [drop] in *. now inversion Hrest. }
    rewrite Hlen in Hplaces, Hsorted.
    destruct (Z.eqb_spec (JS.length (JS.trim section)) 0) as [Hblank | Hfull].
    + cbn [app]. split; [| exact Hsorted].
      eapply Forall_impl; [exact Hplaces |]. cbn. intros chunk [Hof Hstart].
      split; [exact Hof |]. unfold JS.length in *. lia.
    + assert (section <> "") as Hsection.
      { intros ->. now apply Hfull. }
      assert (0 < JS.length section) as Hpos.
      { destruct section; [contradiction |]. unfold JS.length. cbn. lia. }
      assert (JS.slice text (JS.length before) (JS.length before + JS.length section)
              = section) as Hslice
        by (rewrite Htext; apply slice_middle).
      split.
      * constructor.
        -- cbn [content startIndex endIndex]. split; [| lia].
           unfold section_of. cbn [content startIndex endIndex]. rewrite Hslice.
           split; [reflexivity |].
           split; [intros Hempty; apply Hfull; now rewrite Hempty |].
           split; [unfold JS.length in *; lia |].
           split.
           ++ rewrite Hnext. unfold JS.length in *. rewrite !length_append. lia.
           ++ cbn [take] in Hfirst. inversion Hfirst as [| ? ? [-> | Hhead] _]; subst.
              ** now left.
              ** now right.
        -- eapply Forall_impl; [exact Hplaces |]. cbn. intros chunk [Hof Hstart].
           split; [exact Hof |]. lia.
      * constructor; [exact Hsorted |].
        eapply Forall_impl; [exact Hplaces |]. cbn. intros chunk [_ Hstart]. exact Hstart.
Qed.

(** X19. When every section of a Markdown text fits one chunk,
    [chunkMarkdown] returns the sections that are not blank, trimmed, in
    the order of the text and each with the offsets of its section: the
    content of a chunk is the trimmed text between its offsets, which
    begins at 0 or at a heading, and no two chunks overlap, whatever the
    overlap asked for. *)
Theorem chunkMarkdown_small_sections (text : string) (maxChunkSize overlap : Z) :
  Forall (fun section => JS.length section <= maxChunkSize) (split_sections text) ->
  map content (chunkMarkdown text maxChunkSize overlap)
  = List.filter (fun section => negb (String.eqb section ""))
                (map JS.trim (split_sections text))
  /\ Forall (section_of text) (chunkMarkdown text maxChunkSize overlap)
  /\ StronglySorted (fun a b => endIndex a <= startIndex b)
                    (chunkMarkdown text maxChunkSize overlap).
Proof.
  intros Hfit. unfold chunkMarkdown. cbv zeta.
  rewrite (fold_small_sections _ _ _ Hfit). cbn [app].
  split.
  - clear Hfit. generalize 0. induction (split_sections text) as [| section rest IH];
      intros index; [reflexivity |].
    cbn [section_chunks map List.filter].
    destruct (Z.eqb_spec (JS.length (JS.trim section)) 0) as [Hblank | Hfull].
    + apply length_zero_iff in Hblank. rewrite Hblank. cbn. apply IH.
    + destruct (String.eqb_spec (JS.trim section) "") as [Hempty | _].
      * rewrite Hempty in Hfull. now destruct Hfull.
      * cbn. now rewrite IH.
  - destruct (section_chunks_places text (split_sections text) "") as [Hplaces Hsorted].
    + cbn. destruct text as [| c s]; [reflexivity |].
      unfold split_sections. now rewrite concat_prepend, cut_concat.
    + destruct (split_sections text); constructor; [now left | constructor].
    + unfold split_sections. destruct text as [| c s]; [constructor |].
      change (drop 1 ?l) with (tl l). rewrite tl_prepend. apply cut_heads.
    + split; [| exact Hsorted].
      eapply Forall_impl; [exact Hplaces |]. now intros chunk [Hof _].
Qed.

Lemma chunkMarkdown_small_sections_witness :
  let text := String.concat (String JS.LF "")
                ["# Loads"; "Axle weights."; "## Routes"; "Bridges."] in
  map content (chunkMarkdown text 1000 200)
  = List.filter (fun section => negb (String.eqb section ""))
                (map JS.trim (split_sections text))
  /\ Forall (section_of text) (chunkMarkdown text 1000 200)
  /\ StronglySorted (fun a b => endIndex a <= startIndex b) (chunkMarkdown text 1000 200).
Proof.
  cbv zeta. apply chunkMarkdown_small_sections.
  repeat constructor; vm_compute; discriminate.
Defined.

Lemma trimStart_length s : (String.length (JS.trimStart s) <= String.length s)%nat.
Proof.
  induction s as [| c s IH]; [reflexivity |].
  cbn [JS.trimStart]. destruct (JS.is_whitespace c); cbn [String.length]; lia.
Qed.

Lemma trimEnd_length s : (String.length (JS.trimEnd s) <= String.length s)%nat.
Proof.
  induction s as [| c s IH]; [reflexivity |].
  rewrite trimEnd_cons.
  destruct (JS.trimEnd s); [destruct (JS.is_whitespace c) |]; cbn [String.length] in *; lia.
Qed.

Lemma trim_length s : JS.length (JS.trim s) <= JS.length s.
Proof.
  unfold JS.length, JS.trim.
  pose proof (trimEnd_length (JS.trimStart s)). pose proof (trimStart_length s). lia.
Qed.

Lemma substring_length n m :
  forall s, (String.length (String.substring n m s) <= m)%nat.
Proof.
  revert m. induction n as [| n IHn]; intros m s.
  - revert s. induction m as [| m IHm]; intros [| c s]; cbn; try lia.
    specialize (IHm s). lia.
  - destruct s as [| c s]; cbn; [destruct m; cbn; lia | apply IHn].
Qed.

Lemma split_paragraphs_not_nil section : split_paragraphs section <> [].
Proof.
  unfold split_paragraphs. generalize 0%nat.
  induction section as [| c s IH]; intros skip; [discriminate |].
  cbn [split_paragraphs_from].
  destruct skip as [| k]; [| apply IH].
  assert (forall l, prepend c l <> []) as Hprepend by (intros []; discriminate).
  destruct (Ascii.eqb c JS.LF); [| apply Hprepend].
  destruct (blank_run s 0 None); [discriminate | apply Hprepend].
Qed.

(** The text carried over into the next chunk is at most [overlap]
    long, for a positive [overlap]. *)
Lemma overlap_length currentChunk overlap :
  1 <= overlap ->
  JS.length (JS.slice currentChunk (- overlap) (JS.length currentChunk)) <= overlap.
Proof.
  intros Hoverlap. unfold JS.slice, JS.rel_index. cbv zeta.
  destruct (Z.ltb_spec (- overlap) 0); [| lia].
  destruct (Z.ltb_spec (JS.length currentChunk) 0);
    [unfold JS.length in *; lia |].
  unfold JS.length at 1.
  match goal with
  | |- Z.of_nat (String.length (String.substring ?n ?m ?s)) <= _ =>
      pose proof (substring_length n m s) as Hlen
  end.
  lia.
Qed.

Lemma add_paragraph_size maxChunkSize overlap longest bound st paragraph :
  1 <= overlap ->
  bound = Z.max maxChunkSize (overlap + longest + 2) ->
  JS.length paragraph <= longest ->
  JS.length (st_currentChunk st) <= bound ->
  Forall (fun chunk => JS.length (content chunk) <= bound) (st_chunks st) ->
  let st' := add_paragraph maxChunkSize overlap st paragraph in
  JS.length (st_currentChunk st') <= bound
  /\ Forall (fun chunk => JS.length (content chunk) <= bound) (st_chunks st').
Proof.
  intros Hoverlap Hbound Hparagraph Hcurrent Hchunks. cbv zeta. unfold add_paragraph.
  cbv zeta.
  assert (JS.length (paragraph ++ Csv.newline ++ Csv.newline) = JS.length paragraph + 2)
    as Hspacing.
  { unfold JS.length. rewrite !length_append. cbn. lia. }
  rewrite Hspacing.
  destruct ((maxChunkSize <? JS.length (st_currentChunk st) + (JS.length paragraph + 2))
            && (0 <? JS.length (st_currentChunk st))) eqn:Hflush;
    cbn [st_currentChunk st_chunks].
  - split.
    + pose proof (overlap_length (st_currentChunk st) overlap Hoverlap) as Hcarried.
      unfold JS.length in *. rewrite length_append. lia.
    + apply Forall_app. split; [exact Hchunks |]. constructor; [| constructor].
      cbn [content]. pose proof (trim_length (st_currentChunk st)). lia.
  - split; [| exact Hchunks].
    apply andb_false_iff in Hflush as [Hfits | Hfresh].
    + apply Z.ltb_ge in Hfits. unfold JS.length in *. rewrite length_append. lia.
    + apply Z.ltb_ge in Hfresh. unfold JS.length in *. rewrite length_append. lia.
Qed.

(** X20. [chunkLargeMarkdownSection], asked for a positive overlap,
    keeps its chunks within bounds: no chunk is longer than the larger
    of [maxChunkSize] and the sum of the overlap carried over, the
    length of the longest paragraph and the two line feeds that follow
    it. *)
Theorem large_section_chunk_size (section : string) (maxChunkSize overlap longest : Z) :
  1 <= overlap ->
  Forall (fun paragraph => JS.length paragraph <= longest) (split_paragraphs section) ->
  Forall (fun chunk =>
            JS.length (content chunk) <= Z.max maxChunkSize (overlap + longest + 2))
         (chunkLargeMarkdownSection section maxChunkSize overlap).
Proof.
  intros Hoverlap Hparagraphs. unfold chunkLargeMarkdownSection. cbv zeta.
  set (bound := Z.max maxChunkSize (overlap + longest + 2)).
  assert (forall paragraphs st,
             Forall (fun paragraph => JS.length paragraph <= longest) paragraphs ->
             JS.length (st_currentChunk st) <= bound ->
             Forall (fun chunk => JS.length (content chunk) <= bound) (st_chunks st) ->
             let st' := fold_left (add_paragraph maxChunkSize overlap) paragraphs st in
             JS.length (st_currentChunk st') <= bound
             /\ Forall (fun chunk => JS.length (content chunk) <= bound) (st_chunks st'))
    as Hloop.
  { induction paragraphs as [| paragraph rest IH]; intros st Hall Hcurrent Hchunks;
      [now split |].
    cbn [fold_left]. inversion Hall as [| ? ? Hparagraph Hrest]; subst.
    destruct (add_paragraph_size maxChunkSize overlap longest bound st paragraph
                Hoverlap eq_refl Hparagraph Hcurrent Hchunks) as [Hcurrent' Hchunks'].
    now apply IH. }
  destruct (Hloop (split_paragraphs section) (mkSectionState [] "" 0 0) Hparagraphs)
    as [Hcurrent Hchunks].
  { cbn [st_currentChunk]. change (JS.length "") with 0.
    pose proof (split_paragraphs_not_nil section) as Hsome.
    destruct Hparagraphs as [| paragraph rest Hparagraph _]; [contradiction |].
    unfold JS.length in *. lia. }
  { constructor. }
  cbv zeta in Hcurrent, Hchunks.
  destruct (0 <? JS.length (JS.trim (st_currentChunk _))); [| exact Hchunks].
  apply Forall_app. split; [exact Hchunks |]. constructor; [| constructor].
  cbn [content].
  match goal with
  | |- JS.length (JS.trim ?s) <= _ => pose proof (trim_length s)
  end.
  lia.
Qed.

Lemma large_section_chunk_size_witness :
  let section := String.concat (String JS.LF (String JS.LF ""))
                   ["Axle weights."; "Bridge limits."; "Fuel."] in
  Forall (fun chunk => JS.length (content chunk) <= Z.max 20 (4 + 14 + 2))
         (chunkLargeMarkdownSection section 20 4).
Proof.
  cbv zeta. apply large_section_chunk_size; [lia |].
  repeat constructor; vm_compute; discriminate.
Defined.

End MarkdownFacts.

(* ===================================================================== *)
(** * Further properties of the chat function                             *)
(* ===================================================================== *)

Section ChatRuns.
Import Eff Search Chat.
Local Open Scope string_scope.

(** The calls to collaborators other than the console. *)
Definition requests (calls : list effect) : list effect :=
  List.filter (fun c => match c with ConsoleError _ => false | _ => true end) calls.

(** The requests of a chat turn up to the two searches. *)
Definition searches (question : string) : list effect :=
  [EmbeddingRequest "text-embedding-ada-002" question; Rpc "search_chunks";
   Rpc "search_knowledge"].

(** The requests of a chat turn that reaches the completion, and what
    the completion service is asked: the recent history is readable and
    the service gets it with some system prompt and the question. *)
Definition full_turn (e : env) (body : payload) (calls : list effect)
    (reply : completion_reply) : Prop :=
  exists prompt history,
    requests calls
    = app (searches (payload_message body)) [ChatCompletion prompt]
    /\ read_history (payload_history body) = Returned history
    /\ completion_service e prompt history (payload_message body) = reply.

(** X21. The chat function answers every request, never leaving an
    error uncaught, and makes its requests in one order: the embedding
    of the question, the two searches, then the completion. An answer
    is given only after all four, with a readable history and the reply
    of the completion service. A failure is logged last and happens in
    one of four places: with no request made, when the body cannot be
    read; after the embedding request alone, when the embedding fails
    (no search and no completion is made then); after the two searches
    and before any completion, when the conversation history of the
    body is no array of messages (a number, a text, an array whose
    last six elements include [null]); or after all four, when the
    completion fails. A preflight request calls nothing. *)
Theorem chat_always_answers (e : env) :
  exists calls r,
    serve e initial = (mkWorld (negb (String.eqb (req_method e) "OPTIONS")) calls, Returned r)
    /\ match r with
       | Preflight => calls = []
       | Answer answer _ _ =>
           exists body,
             req_payload e = Some body /\ full_turn e body calls (CompletionOk answer)
       | Failure details =>
           last calls = Some (ConsoleError "Error in chat function:")
           /\ (req_payload e = None /\ requests calls = []
               \/ exists body,
                    req_payload e = Some body
                    /\ ((forall v,
                            embedding_service e [] "text-embedding-ada-002"
                              (payload_message body) <> ReplyOk v)
                        /\ requests calls
                           = [EmbeddingRequest "text-embedding-ada-002"
                                (payload_message body)]
                        \/ read_history (payload_history body) = Thrown details
                           /\ requests calls = searches (payload_message body)
                        \/ exists reply,
                             full_turn e body calls reply
                             /\ forall answer, reply <> CompletionOk answer))
       end.
Proof.
  unfold serve. destruct (String.eqb (req_method e) "OPTIONS").
  { exists [], Preflight. split; reflexivity. }
  unfold try_catch, chat_turn.
  unfold Eff.bind at 1. cbn [req_json initial bodyUsed trace].
  destruct (req_payload e) as [body |] eqn:Hbody.
  2: { do 2 eexists. split; [reflexivity |]. split; [reflexivity | left; now split]. }
  cbv zeta. unfold Eff.bind at 1. unfold Embedder.generateEmbedding.
  rewrite fetch_embedding_spec. cbn [after bodyUsed trace app].
  destruct (embedding_service e [] "text-embedding-ada-002" (payload_message body))
    as [v | status errorText | failure] eqn:Hreply; cbn [embedding_outcome].
  2, 3: do 2 eexists; (split; [reflexivity |]); (split; [reflexivity |]);
        right; exists body; (split; [reflexivity |]); left;
        (split; [intros v; rewrite Hreply; discriminate | reflexivity]).
  unfold rpc, complete, console_error.
  destruct (read_history (payload_history body)) as [history | unreadable] eqn:Hhistory.
  - destruct (rpc_search_chunks e v (7 # 10) 5) as [cs | m1];
      destruct (rpc_search_knowledge e v (7 # 10) 3) as [ks | m2];
      cbn [error data];
      unfold Eff.bind, emit, ret, throw; cbn [bodyUsed trace error data app];
      match goal with
      | |- context [completion_service e ?p ?h ?q] =>
          destruct (completion_service e p h q)
            as [answer | status errorText | failure] eqn:Hcompletion
      end;
      do 2 eexists; (split; [reflexivity |]);
      first [ exists body; split; [reflexivity |];
              eexists _, history; split; [reflexivity |]; split; [exact Hhistory |];
              exact Hcompletion
            | split; [reflexivity |]; right; exists body; split; [reflexivity |];
              right; right; eexists; split;
              [ eexists _, history; split; [reflexivity |]; split; [exact Hhistory |];
                exact Hcompletion
              | intros answer; discriminate ] ].
  - destruct (rpc_search_chunks e v (7 # 10) 5) as [cs | m1];
      destruct (rpc_search_knowledge e v (7 # 10) 3) as [ks | m2];
      cbn [error data];
      unfold Eff.bind, emit, ret, throw; cbn [bodyUsed trace error data app];
      do 2 eexists; (split; [reflexivity |]); (split; [reflexivity |]);
      right; exists body; (split; [reflexivity |]); right; left;
      (split; [exact Hhistory | reflexivity]).
Qed.

(** A request whose history is the number 5, with every service at
    work: the two searches are made, no completion is. *)
Example chat_history_unreadable :
  serve (mkEnv "POST" (Some (mkPayload "How heavy is the trailer?" OtherValue))
           (fun _ _ _ => ReplyOk []) (fun _ _ _ => RpcData []) (fun _ _ _ => RpcData [])
           (fun _ _ _ => CompletionOk "About two tonnes."))
        initial
  = (mkWorld true
       [EmbeddingRequest "text-embedding-ada-002" "How heavy is the trailer?";
        Rpc "search_chunks"; Rpc "search_knowledge";
        ConsoleError "Error in chat function:"],
     Returned (Failure "conversationHistory?.slice is not a function")).
Proof. reflexivity. Qed.

End ChatRuns.
